(** * bulk_sender.py: a shallow embedding and its verified properties

    The program drives WhatsApp Web through Selenium: it loads contacts
    from a CSV file, renders a message template per contact and submits it
    in a fresh browser tab, retrying a bounded number of times.

    Conventions of the embedding
    - A Python [str] is a [string]; each character is a code point below
      256, so [ord] is [N_of_ascii].
    - A Python [dict] is a [gmap].
    - Code that talks to the outside world (the browser, the network, the
      keyboard, the file system, the speaker) runs in the monad [M]: state
      passing over a [world], with Python's exceptions as a second kind of
      result.  What the outside world answers to each call is given by an
      environment, a function of the call and of how often it was made. *)

From Stdlib Require Import ZArith NArith Ascii String List Bool Lia.
From stdpp Require Import base option list strings gmap.

(** ** Python exceptions *)

(** The subclasses of [Exception] that the program or its libraries raise.
    [OutOfFuel] is not one of Python's: it reports that a recursion bound
    of the embedding was reached. *)
Inductive error : Type :=
  | TimeoutException
  | NoSuchWindowException
  | WebDriverException
  | IndexError
  | URLError
  | EOFError
  | OSError
  | UnicodeDecodeError
  | AttributeError
  | ValueError
  | KeyError
  | RuntimeError
  | OutOfFuel.

(** [KeyboardInterrupt] and [SystemExit] derive from [BaseException] only:
    an [except Exception] clause does not catch them. *)
Inductive exn : Type :=
  | Err (e : error)
  | KeyboardInterrupt
  | SystemExit (code : Z).

Inductive result (A : Type) : Type :=
  | Ret (a : A)
  | Raise (e : exn).
Arguments Ret {A} a.
Arguments Raise {A} e.

Global Instance error_eq_dec : EqDecision error.
Proof. solve_decision. Defined.
Global Instance exn_eq_dec : EqDecision exn.
Proof. solve_decision. Defined.

Definition is_Exception (e : exn) : bool :=
  match e with Err _ => true | _ => false end.

Global Instance result_ret : MRet result := λ A a, Ret a.
Global Instance result_bind : MBind result := λ A B f m,
  match m with Ret a => f a | Raise e => Raise e end.

(** ** Python's [str] methods used by the program *)
Module Py.

Definition ord (c : ascii) : N := N_of_ascii c.

Definition between (lo hi : N) (c : ascii) : bool :=
  ((lo <=? ord c) && (ord c <=? hi))%N.

(** [str.isspace] on one character: the code points below 256 that Unicode
    classes as whitespace. *)
Definition char_isspace (c : ascii) : bool :=
  between 9 13 c || between 28 32 c || (ord c =? 133)%N || (ord c =? 160)%N.

(** [str.isdigit] on one character: the ASCII digits and the superscripts
    two, three and one (U+00B2, U+00B3, U+00B9). *)
Definition char_isdigit (c : ascii) : bool :=
  between 48 57 c || (ord c =? 178)%N || (ord c =? 179)%N || (ord c =? 185)%N.

Fixpoint all (p : ascii → bool) (s : string) : bool :=
  match s with
  | EmptyString => true
  | String c r => p c && all p r
  end.

(** [s.isdigit()]: every character is a digit and there is at least one. *)
Definition isdigit (s : string) : bool :=
  match s with
  | EmptyString => false
  | String _ _ => all char_isdigit s
  end.

Definition len (s : string) : Z := Z.of_nat (String.length s).

Fixpoint lstrip (s : string) : string :=
  match s with
  | EmptyString => EmptyString
  | String c r => if char_isspace c then lstrip r else s
  end.

Fixpoint rstrip (s : string) : string :=
  match s with
  | EmptyString => EmptyString
  | String c r =>
      match rstrip r with
      | EmptyString => if char_isspace c then EmptyString else String c EmptyString
      | r' => String c r'
      end
  end.

(** [s.strip()]: leading and trailing whitespace removed. *)
Definition strip (s : string) : string := rstrip (lstrip s).

(** [s.replace(old, new)] for a non-empty [old]: the occurrences of [old]
    are found left to right and do not overlap.  [skip] counts the
    characters of the occurrence just replaced that are still to pass. *)
Fixpoint replace_from (old new : string) (skip : nat) (s : string) : string :=
  match s with
  | EmptyString => EmptyString
  | String c r =>
      match skip with
      | S k => replace_from old new k r
      | O =>
          if String.prefix old s
          then new +:+ replace_from old new (String.length old - 1) r
          else String c (replace_from old new 0 r)
      end
  end.

(** With an empty [old], Python puts [new] before every character and at
    the end. *)
Fixpoint replace_empty (new : string) (s : string) : string :=
  match s with
  | EmptyString => new
  | String c r => new +:+ String c (replace_empty new r)
  end.

Definition replace (old new s : string) : string :=
  match old with
  | EmptyString => replace_empty new s
  | String _ _ => replace_from old new 0 s
  end.

End Py.

(** ** [string.Template.safe_substitute] *)
Module Template.

Definition delimiter : ascii := "$"%char.

(** The identifier pattern: an ASCII letter or underscore, then ASCII
    letters, digits and underscores, matched under [re.IGNORECASE]. *)
Definition id_start (c : ascii) : bool :=
  Ascii.eqb c "_" || Py.between 97 122 c || Py.between 65 90 c.

Definition id_continue (c : ascii) : bool :=
  id_start c || Py.between 48 57 c.

(** The longest prefix of characters satisfying [p], and what follows it. *)
Fixpoint span (p : ascii → bool) (s : string) : string * string :=
  match s with
  | EmptyString => (EmptyString, EmptyString)
  | String c r =>
      if p c then let '(a, b) := span p r in (String c a, b)
      else (EmptyString, s)
  end.

(** A match object of [Template.pattern]: the whole match and its four
    named groups, [None] for a group that took no part in the match. *)
Record match_object : Type := {
  group : string;
  escaped : option string;
  named : option string;
  braced : option string;
  invalid : option string
}.

Definition mo_escaped : match_object :=
  {| group := "$$"; escaped := Some "$"; named := None; braced := None;
     invalid := None |}.
Definition mo_named (id : string) : match_object :=
  {| group := String delimiter id; escaped := None; named := Some id;
     braced := None; invalid := None |}.
Definition mo_braced (id : string) : match_object :=
  {| group := "${" +:+ id +:+ "}"; escaped := None; named := None;
     braced := Some id; invalid := None |}.
Definition mo_invalid : match_object :=
  {| group := "$"; escaped := None; named := None; braced := None;
     invalid := Some "" |}.

(** The pattern tried just after a delimiter, on the text [r] that follows
    it; the alternatives in the order the regular expression lists them:
    [$$], [$identifier], [${identifier}], and the empty alternative that
    makes every other delimiter a match of its own.  Returns the match and
    the text after it. *)
Definition match_after_delimiter (r : string) : match_object * string :=
  match r with
  | EmptyString => (mo_invalid, r)
  | String c r' =>
      if Ascii.eqb c delimiter then (mo_escaped, r')
      else if id_start c then
        let '(id, rest) := span id_continue r in (mo_named id, rest)
      else if Ascii.eqb c "{" then
        match r' with
        | String d _ =>
            if id_start d then
              let '(id, rest) := span id_continue r' in
              match rest with
              | String e rest' =>
                  if Ascii.eqb e "}" then (mo_braced id, rest')
                  else (mo_invalid, r)
              | EmptyString => (mo_invalid, r)
              end
            else (mo_invalid, r)
        | EmptyString => (mo_invalid, r)
        end
      else (mo_invalid, r)
  end.

(** Python's [a or b] on optional strings: [a] unless it is [None] or
    empty. *)
Definition py_or (a b : option string) : option string :=
  match a with
  | Some EmptyString | None => b
  | Some _ => a
  end.

(** The helper [convert] of [safe_substitute]: a [KeyError] of the mapping
    is caught and answered with the matched text. *)
Definition convert (mapping : gmap string string) (mo : match_object)
  : result string :=
  match py_or (named mo) (braced mo) with
  | Some key =>
      match mapping !! key with
      | Some v => Ret v
      | None => Ret (group mo)
      end
  | None =>
      match escaped mo with
      | Some _ => Ret (String delimiter EmptyString)
      | None =>
          match invalid mo with
          | Some _ => Ret (group mo)
          | None => Raise (Err ValueError)
          end
      end
  end.

(** [pattern.sub(convert, template)]: text up to the next delimiter is
    copied, each match is replaced by what [convert] returns.  The
    recursion continues after the match, so it is driven by [fuel]; running
    out of it is reported as an error of its own kind. *)
Fixpoint sub (mapping : gmap string string) (fuel : nat) (s : string)
  : result string :=
  match s with
  | EmptyString => Ret EmptyString
  | String c r =>
      match fuel with
      | O => Raise (Err OutOfFuel)
      | S n =>
          if Ascii.eqb c delimiter then
            let '(mo, rest) := match_after_delimiter r in
            x ← convert mapping mo;
            y ← sub mapping n rest;
            Ret (x +:+ y)
          else
            y ← sub mapping n r;
            Ret (String c y)
      end
  end.

Definition safe_substitute (mapping : gmap string string) (template : string)
  : result string :=
  sub mapping (String.length template) template.

End Template.

(** ** [urllib.parse.quote] *)
Module Urllib.

Definition hex_digit (n : N) : ascii :=
  if (n <? 10)%N then ascii_of_N (48 + n) else ascii_of_N (55 + n).

Definition percent (byte : N) : string :=
  String "%" (String (hex_digit (byte / 16)) (String (hex_digit (byte mod 16)) EmptyString)).

(** The characters [quote] never escapes, with its default [safe='/']. *)
Definition always_safe (c : ascii) : bool :=
  Py.between 65 90 c || Py.between 97 122 c || Py.between 48 57 c
  || Ascii.eqb c "_" || Ascii.eqb c "." || Ascii.eqb c "-" || Ascii.eqb c "~"
  || Ascii.eqb c "/".

(** One character: kept when safe, else each byte of its UTF-8 encoding
    as [%XX]. *)
Definition quote_char (c : ascii) : string :=
  let n := Py.ord c in
  if always_safe c then String c EmptyString
  else if (n <? 128)%N then percent n
  else percent (192 + n / 64) +:+ percent (128 + n mod 64).

Fixpoint quote (s : string) : string :=
  match s with
  | EmptyString => EmptyString
  | String c r => quote_char c +:+ quote r
  end.

End Urllib.

(** ** Selenium's [ChromeOptions] *)
Module Selenium.

Inductive option_value : Type :=
  | VBool (b : bool)
  | VList (l : list string).

(** [Options] keeps the command-line arguments in a list and the
    experimental options in a dictionary. *)
Record Options : Type := {
  arguments : list string;
  experimental_options : gmap string option_value
}.

Definition new_Options : Options :=
  {| arguments := []; experimental_options := ∅ |}.

(** [add_argument] appends, and refuses an empty argument. *)
Definition add_argument (argument : string) (o : Options) : result Options :=
  match argument with
  | EmptyString => Raise (Err ValueError)
  | String _ _ =>
      Ret {| arguments := arguments o ++ [argument];
             experimental_options := experimental_options o |}
  end.

(** [add_experimental_option] is a dictionary assignment. *)
Definition add_experimental_option (name : string) (value : option_value)
    (o : Options) : Options :=
  {| arguments := arguments o;
     experimental_options := <[name := value]> (experimental_options o) |}.

End Selenium.

(** ** Configuration constants *)

Definition CSV_FILE : string := "contacts.csv".
Definition RETRY_LIMIT : Z := 2.
Definition MIN_DELAY_SEC : Z := 3.
Definition MAX_DELAY_SEC : Z := 5.

(** ** The world outside the program *)

Definition handle : Type := nat.

(** The browser: its open windows in the order [window_handles] lists
    them, the window the driver is focused on (it may have been closed),
    and the next unused handle. *)
Record browser : Type := {
  handles : list handle;
  focus : handle;
  fresh : handle
}.

(** A row as [csv.DictReader] yields it: a missing column has no key, a
    short row has the value [None] for the columns it lacks. *)
Abbreviation row := (gmap string (option string)).

Record contact : Type := {
  name : string;
  phone : string;
  message : string
}.

(** The calls the program makes to the outside world:
    - [UrlOpen]: [urllib.request.urlopen] of the WhatsApp Web address;
    - [ChromeNew], [SetPageLoadTimeout], [ImplicitlyWait], [MaximizeWindow]:
      [webdriver.Chrome(...)] and the three settings that follow it;
    - [Get]: [driver.get] of the WhatsApp Web address;
    - [UntilChatList t]: [WebDriverWait(driver, t).until] the chat list is
      present;
    - [Input]: [input()];
    - [OpenCsv path], [NextRow]: [open(path)] and one step of the
      [csv.DictReader];
    - [CurrentWindowHandle], [WindowHandles], [SwitchToWindow h], [Close],
      [Quit]: the properties and methods of the driver with these names;
    - [ExecuteScript script]: [driver.execute_script(script)];
    - [UntilInputBox], [UntilSendButton]: [wait.until] the message box is
      present, the send button can be clicked (30 seconds each);
    - [SendKeysEnter], [Click]: [input_box.send_keys(Keys.ENTER)] and
      [send_button.click()];
    - [Beep f d]: [winsound.Beep(f, d)]. *)
Inductive op : Type :=
  | UrlOpen
  | ChromeNew
  | SetPageLoadTimeout
  | ImplicitlyWait
  | MaximizeWindow
  | Get
  | UntilChatList (timeout : Z)
  | Input
  | OpenCsv (path : string)
  | NextRow
  | CurrentWindowHandle
  | ExecuteScript (script : string)
  | WindowHandles
  | SwitchToWindow (h : handle)
  | UntilInputBox
  | SendKeysEnter
  | UntilSendButton
  | Click
  | Close
  | Quit
  | Beep (frequency duration : Z).

Global Instance op_eq_dec : EqDecision op.
Proof. solve_decision. Defined.

(** What the outside world does with a call: carry it out, fail it with an
    error, or deliver the user's interrupt while it runs.  An interrupt is
    observed at a call: logging and sleeping are not calls. *)
Inductive answer : Type :=
  | Proceed
  | Fault (e : error)
  | Interrupt.

(** The argument of [time.sleep]: a number of seconds, or
    [random.uniform(lo, hi)]. *)
Inductive delay : Type :=
  | Seconds (n : Z)
  | Uniform (lo hi : Z).

(** The lines the program logs, by content. *)
Inductive message_line : Type :=
  | NetworkError (e : error)
  | ScanQR
  | LoginFailed
  | Sent (name phone : string)
  | AttemptFailed (attempt : Z) (phone : string) (e : error)
  | FailedToSend (phone : string)
  | InvalidPhone (raw_phone : string)
  | CsvError (path : string) (e : error)
  | NoValidContacts
  | Starting (n : Z)
  | Summary (success_count total : Z)
  | Interrupted
  | Unexpected (e : error)
  | Quitting.

(** What an observer of a run sees, in order. *)
Inductive event : Type :=
  | Call (o : op) (raised : option exn)
  | Log (line : message_line) (style : string)
  | Sleep (d : delay).

(** The world: the browser, what was observed so far, what
    [time.strftime] gives for the date and for the time, and the rows that
    [csv.DictReader] yields for each file. *)
Record world : Type := {
  chrome : browser;
  trace : list event;
  today : string;
  now : string;
  disk : gmap string (list row)
}.

Definition set_chrome (b : browser) (w : world) : world :=
  {| chrome := b; trace := trace w; today := today w; now := now w;
     disk := disk w |}.

Definition record (ev : event) (w : world) : world :=
  {| chrome := chrome w; trace := trace w ++ [ev]; today := today w;
     now := now w; disk := disk w |}.

(** How often [o] was called so far. *)
Definition is_call (o : op) (ev : event) : bool :=
  match ev with
  | Call o' _ => bool_decide (o' = o)
  | _ => false
  end.

Definition calls (o : op) (tr : list event) : nat :=
  length (List.filter (is_call o) tr).

(** ** The monad of the program: state and exceptions *)

Definition M (A : Type) : Type := world → result A * world.

Global Instance M_ret : MRet M := λ A a w, (Ret a, w).
Global Instance M_bind : MBind M := λ A B f m w,
  match m w with
  | (Ret a, w') => f a w'
  | (Raise e, w') => (Raise e, w')
  end.

Definition raise {A : Type} (e : exn) : M A := λ w, (Raise e, w).

Definition lift {A : Type} (r : result A) : M A := λ w, (r, w).

(** An [except] clause: the handler to run when the clause matches the
    exception. *)
Definition clause (A : Type) : Type := exn → option (M A).

Definition except_Exception {A : Type} (h : error → M A) : clause A :=
  λ e, match e with Err x => Some (h x) | _ => None end.

Definition except_TimeoutException {A : Type} (h : M A) : clause A :=
  λ e, match e with Err TimeoutException => Some h | _ => None end.

Definition except_KeyboardInterrupt {A : Type} (h : M A) : clause A :=
  λ e, match e with KeyboardInterrupt => Some h | _ => None end.

(** The first clause that matches. *)
Fixpoint select {A : Type} (cs : list (clause A)) (e : exn) : option (M A) :=
  match cs with
  | [] => None
  | c :: rest => match c e with Some h => Some h | None => select rest e end
  end.

Definition try_except {A : Type} (body : M A) (cs : list (clause A)) : M A :=
  λ w,
  match body w with
  | (Ret a, w') => (Ret a, w')
  | (Raise e, w') =>
      match select cs e with
      | Some h => h w'
      | None => (Raise e, w')
      end
  end.

(** [try: body finally: final]: [final] runs whatever [body] did; what it
    raises replaces the outcome of [body]. *)
Definition try_finally {A : Type} (body : M A) (final : M unit) : M A :=
  λ w,
  let '(r, w1) := body w in
  match final w1 with
  | (Ret _, w2) => (r, w2)
  | (Raise e, w2) => (Raise e, w2)
  end.

(** [log] and [time.sleep] always return. *)
Definition log (line : message_line) (style : string) : M unit :=
  λ w, (Ret tt, record (Log line style) w).

Definition sleep (d : delay) : M unit :=
  λ w, (Ret tt, record (Sleep d) w).

(** [exit(code)] raises [SystemExit]. *)
Definition exit {A : Type} (code : Z) : M A := raise (SystemExit code).

(** ** The program *)
Section Program.

(** The answers of the outside world: [env o i] is what happens to call
    number [i] (from 0) of [o]. *)
Variable env : op → nat → answer.

(** [os.path.join(os.getcwd(), "whatsapp_session")], fixed when the module
    is loaded. *)
Variable SESSION_DIR : string.

(** A call to the outside world.  When the world lets it proceed, [act]
    gives its result and effect, or the error it ends in by itself. *)
Definition syscall {A : Type} (o : op) (act : world → error + (A * world))
  : M A :=
  λ w,
  match env o (calls o (trace w)) with
  | Proceed =>
      match act w with
      | inr (a, w') => (Ret a, record (Call o None) w')
      | inl e => (Raise (Err e), record (Call o (Some (Err e))) w)
      end
  | Fault e => (Raise (Err e), record (Call o (Some (Err e))) w)
  | Interrupt =>
      (Raise KeyboardInterrupt, record (Call o (Some KeyboardInterrupt)) w)
  end.

Definition call (o : op) : M unit := syscall o (λ w, inr (tt, w)).

(** *** The driver's commands *)

Definition is_open (h : handle) (b : browser) : bool :=
  existsb (Nat.eqb h) (handles b).

(** A command that needs the focused window: it ends in
    [NoSuchWindowException] when that window was closed. *)
Definition in_window {A : Type} (f : browser → A * browser)
  : world → error + (A * world) :=
  λ w,
  if is_open (focus (chrome w)) (chrome w)
  then let '(a, b) := f (chrome w) in inr (a, set_chrome b w)
  else inl NoSuchWindowException.

Definition webdriver_Chrome : M unit :=
  syscall ChromeNew
    (λ w, inr (tt, set_chrome {| handles := [0]; focus := 0; fresh := 1 |} w)).

Definition driver_get : M unit :=
  syscall Get (in_window (λ b, (tt, b))).

Definition current_window_handle : M handle :=
  syscall CurrentWindowHandle (in_window (λ b, (focus b, b))).

(** The only script the program runs opens a tab; the focus stays. *)
Definition execute_script (script : string) : M unit :=
  syscall (ExecuteScript script)
    (in_window (λ b, (tt, {| handles := handles b ++ [fresh b];
                              focus := focus b;
                              fresh := S (fresh b) |}))).

Definition window_handles : M (list handle) :=
  syscall WindowHandles (λ w, inr (handles (chrome w), w)).

Definition switch_to_window (h : handle) : M unit :=
  syscall (SwitchToWindow h)
    (λ w, if is_open h (chrome w)
          then inr (tt, set_chrome {| handles := handles (chrome w);
                                      focus := h;
                                      fresh := fresh (chrome w) |} w)
          else inl NoSuchWindowException).

(** [driver.close()] closes the focused window and leaves the focus on
    it. *)
Definition driver_close : M unit :=
  syscall Close
    (in_window (λ b, (tt, {| handles :=
                               List.filter (λ h, negb (Nat.eqb h (focus b)))
                                 (handles b);
                             focus := focus b;
                             fresh := fresh b |}))).

(** [ChromiumDriver.quit] catches what the underlying command raises, so
    it always returns; every window is gone afterwards. *)
Definition driver_quit : M unit :=
  λ w,
  (Ret tt,
   record (Call Quit None)
     (set_chrome {| handles := []; focus := focus (chrome w);
                    fresh := fresh (chrome w) |} w)).

Definition until_chat_list (timeout : Z) : M unit :=
  syscall (UntilChatList timeout) (in_window (λ b, (tt, b))).
Definition until_input_box : M unit :=
  syscall UntilInputBox (in_window (λ b, (tt, b))).
Definition send_keys_ENTER : M unit :=
  syscall SendKeysEnter (in_window (λ b, (tt, b))).
Definition until_send_button : M unit :=
  syscall UntilSendButton (in_window (λ b, (tt, b))).
Definition click : M unit :=
  syscall Click (in_window (λ b, (tt, b))).

(** [l[-1]] *)
Definition last_item {A : Type} (l : list A) : result A :=
  match List.last (List.map Some l) None with
  | Some x => Ret x
  | None => Raise (Err IndexError)
  end.

(** [range(lo, hi)] *)
Definition range (lo hi : Z) : list Z :=
  List.map (λ i, (lo + Z.of_nat i)%Z) (seq 0 (Z.to_nat (hi - lo))).

(** *** Utility functions (lines 47-58) *)

Definition beep_success : M unit := call (Beep 1000 200).
Definition beep_fail : M unit := call (Beep 400 400).

(** *** [configure_chrome_options] (lines 65-97) *)
Definition configure_chrome_options : result Selenium.Options :=
  let o := Selenium.new_Options in
  o ← Selenium.add_argument ("--user-data-dir=" +:+ SESSION_DIR) o;
  o ← Selenium.add_argument "--profile-directory=Default" o;
  o ← Selenium.add_argument "--disable-blink-features=AutomationControlled" o;
  let o := Selenium.add_experimental_option "excludeSwitches"
             (Selenium.VList ["enable-automation"]) o in
  let o := Selenium.add_experimental_option "useAutomationExtension"
             (Selenium.VBool false) o in
  o ← Selenium.add_argument "--disable-gpu" o;
  o ← Selenium.add_argument "--no-sandbox" o;
  o ← Selenium.add_argument "--disable-dev-shm-usage" o;
  o ← Selenium.add_argument "--log-level=3" o;
  o ← Selenium.add_argument "--disable-logging" o;
  o ← Selenium.add_argument "--disable-crash-reporter" o;
  o ← Selenium.add_argument "--disable-breakpad" o;
  o ← Selenium.add_argument "--disable-component-update" o;
  o ← Selenium.add_argument "--disable-background-networking" o;
  o ← Selenium.add_argument "--disable-default-apps" o;
  o ← Selenium.add_argument "--disable-features=TranslateUI" o;
  o ← Selenium.add_argument "--no-first-run" o;
  o ← Selenium.add_argument "--no-service-autorun" o;
  o ← Selenium.add_argument "--metrics-recording-only" o;
  let o := Selenium.add_experimental_option "excludeSwitches"
             (Selenium.VList ["enable-logging"]) o in
  Ret o.

(** *** [check_internet_connection] (lines 100-107) *)
Definition check_internet_connection : M bool :=
  try_except
    (call UrlOpen;; mret true)
    [except_Exception (λ e, log (NetworkError e) "red";; mret false)].

(** *** [initialize_driver] (lines 110-122) *)
Definition initialize_driver : M unit :=
  _ ← lift configure_chrome_options;
  webdriver_Chrome;;
  call SetPageLoadTimeout;;
  call ImplicitlyWait;;
  call MaximizeWindow.

(** *** [wait_for_whatsapp_login] (lines 125-133) *)
Definition wait_for_whatsapp_login (timeout : Z) : M bool :=
  try_except
    (until_chat_list timeout;; mret true)
    [except_TimeoutException (mret false)].

(** *** [prompt_qr_scan] (lines 136-143) *)
Definition prompt_qr_scan : M unit :=
  log ScanQR "cyan";;
  call Input;;
  logged_in ← wait_for_whatsapp_login 30;
  if negb logged_in then
    log LoginFailed "red";;
    driver_quit;;
    exit 1
  else mret tt.

(** *** [render_message_template] (lines 150-157) *)

(** The keyword arguments of [safe_substitute]. *)
Definition substitutions (name phone date time : string) : gmap string string :=
  <["name" := name]> (<["phone" := phone]> (<["date" := date]>
    (<["time" := time]> ∅))).

Definition render_message_template (template_str name phone : string)
  : M string :=
  λ w,
  (Template.safe_substitute (substitutions name phone (today w) (now w))
     template_str, w).

(** *** [send_whatsapp_message] (lines 164-237) *)

(** The body of the [try] (lines 187-222). *)
Definition attempt_body (name phone url : string) (main_window : handle)
    (is_reply : bool) : M bool :=
  execute_script ("window.open('" +:+ url +:+ "', '_blank');");;
  hs ← window_handles;
  newest ← lift (last_item hs);
  switch_to_window newest;;
  until_input_box;;
  sleep (Uniform 1 3);;
  try_except send_keys_ENTER
    [except_Exception (λ _, until_send_button;; click)];;
  log (Sent name phone) "green";;
  beep_success;;
  sleep (Seconds 2);;
  driver_close;;
  switch_to_window main_window;;
  (if negb is_reply then sleep (Uniform MIN_DELAY_SEC MAX_DELAY_SEC)
   else mret tt);;
  mret true.

(** The inner [try] of the handler (lines 227-232). *)
Definition cleanup (main_window : handle) : M unit :=
  try_except
    (hs ← window_handles;
     (if (1 <? length hs)%nat then driver_close else mret tt);;
     switch_to_window main_window)
    [except_Exception (λ _, mret tt)].

(** The handler of the [try] (lines 224-233). *)
Definition on_failure (attempt : Z) (phone : string) (main_window : handle)
    (e : error) : M unit :=
  log (AttemptFailed attempt phone e) "yellow";;
  cleanup main_window;;
  sleep (Seconds 5).

(** One turn of the [for] loop: [Some b] when the turn returned [b] from
    the function, [None] when the loop goes on. *)
Definition attempt_turn (name phone url : string) (main_window : handle)
    (is_reply : bool) (attempt : Z) : M (option bool) :=
  try_except
    (b ← attempt_body name phone url main_window is_reply; mret (Some b))
    [except_Exception (λ e, on_failure attempt phone main_window e;;
                            mret None)].

(** The [for] loop over the attempt numbers and what follows it
    (lines 185-237). *)
Fixpoint attempts (name phone url : string) (main_window : handle)
    (is_reply : bool) (numbers : list Z) : M bool :=
  match numbers with
  | [] =>
      log (FailedToSend phone) "red";;
      beep_fail;;
      mret false
  | attempt :: rest =>
      r ← attempt_turn name phone url main_window is_reply attempt;
      match r with
      | Some b => mret b
      | None => attempts name phone url main_window is_reply rest
      end
  end.

Definition send_whatsapp_message (name phone raw_message : string)
    (retry_limit : Z) (is_reply : bool) : M bool :=
  message ← (if negb is_reply
             then render_message_template raw_message name phone
             else mret raw_message);
  let encoded_message := Urllib.quote message in
  let url := "https://web.whatsapp.com/send?phone=" +:+ phone +:+ "&text="
             +:+ encoded_message in
  main_window ← current_window_handle;
  attempts name phone url main_window is_reply (range 1 (retry_limit + 1)).

(** *** [load_contacts_from_csv] (lines 244-267) *)

(** [row.get(key, "")]: the default only stands in for a missing key. *)
Definition row_get (r : row) (key : string) : option string :=
  match r !! key with
  | Some v => v
  | None => Some EmptyString
  end.

(** [v.strip()]; [None] has no such method. *)
Definition strip_value (v : option string) : M string :=
  match v with
  | Some s => mret (Py.strip s)
  | None => raise (Err AttributeError)
  end.

(** The body of the [for] loop (lines 251-260), with the list built so
    far. *)
Definition read_row (r : row) (contacts : list contact) : M (list contact) :=
  raw_phone ← strip_value (row_get r "Phone");
  name ← strip_value (row_get r "Name");
  message ← strip_value (row_get r "Message");
  let phone := Py.replace " " "" (Py.replace "+" "" raw_phone) in
  if Py.isdigit phone && (10 <=? Py.len phone)%Z
  then mret (contacts ++
               [{| name := name; phone := phone; message := message |}])
  else log (InvalidPhone raw_phone) "yellow";; mret contacts.

(** The [for] loop: the reader is asked for each row in turn. *)
Fixpoint read_rows (rows : list row) (contacts : list contact)
  : M (list contact) :=
  match rows with
  | [] => mret contacts
  | r :: rest =>
      call NextRow;;
      contacts ← read_row r contacts;
      read_rows rest contacts
  end.

(** [open(csv_path)] fails by itself when there is no such file. *)
Definition open_csv (csv_path : string) : M (list row) :=
  syscall (OpenCsv csv_path)
    (λ w, match disk w !! csv_path with
          | Some rows => inr (rows, w)
          | None => inl OSError
          end).

Definition load_contacts_from_csv (csv_path : string) : M (list contact) :=
  contacts ←
    try_except
      (rows ← open_csv csv_path; read_rows rows [])
      [except_Exception (λ e, log (CsvError csv_path e) "red";;
                              raise (Err e))];
  match contacts with
  | [] => log NoValidContacts "red";; mret contacts
  | _ :: _ => mret contacts
  end.

(** *** [main_bulk_send] (lines 274-311) *)

(** The [for] loop over the contacts (lines 293-297). *)
Fixpoint send_all (contacts : list contact) (success_count : Z) : M Z :=
  match contacts with
  | [] => mret success_count
  | c :: rest =>
      sent ← send_whatsapp_message (name c) (phone c) (message c)
                RETRY_LIMIT false;
      send_all rest (if sent : bool then (success_count + 1)%Z
                     else success_count)
  end.

(** The body of the [try] (lines 281-302). *)
Definition workflow : M unit :=
  driver_get;;
  logged_in ← wait_for_whatsapp_login 30;
  (if negb logged_in then prompt_qr_scan else mret tt);;
  contacts ← load_contacts_from_csv CSV_FILE;
  match contacts with
  | [] => mret tt
  | _ :: _ =>
      let total := Z.of_nat (length contacts) in
      log (Starting total) "magenta";;
      success_count ← send_all contacts 0%Z;
      log (Summary success_count total)
        (if (success_count =? total)%Z then "bold green" else "bold yellow")
  end.

Definition main_bulk_send : M unit :=
  connected ← check_internet_connection;
  if negb connected then exit 1
  else
    initialize_driver;;
    try_finally
      (try_except workflow
         [except_KeyboardInterrupt (log Interrupted "yellow");
          except_Exception (λ e, log (Unexpected e) "red";; raise (Err e))])
      (log Quitting "blue";; driver_quit).

End Program.

(** ** The process *)

(** The world when the interpreter starts: no browser, nothing observed
    yet. *)
Definition initial_world (date time : string) (files : gmap string (list row))
  : world :=
  {| chrome := {| handles := []; focus := 0; fresh := 0 |};
     trace := [];
     today := date;
     now := time;
     disk := files |}.

(** The exit status of the interpreter when the script's entry point ends
    with [r]: 0 when it returns, the code of a [SystemExit], 1 after the
    traceback of an uncaught exception, and [STATUS_CONTROL_C_EXIT] for an
    uncaught [KeyboardInterrupt]. *)
Definition exit_status (r : result unit) : Z :=
  match r with
  | Ret _ => 0
  | Raise (SystemExit code) => code
  | Raise (Err _) => 1
  | Raise KeyboardInterrupt => 3221225786
  end.

(** ** Observations on a trace *)

(** The last call in the trace and how it ended. *)
Definition last_call (tr : list event) : option (op * option exn) :=
  fold_left (λ acc ev, match ev with Call o r => Some (o, r) | _ => acc end)
    tr None.

(** An attempt cycle starts by running the script that opens a tab. *)
Definition is_attempt (ev : event) : bool :=
  match ev with Call (ExecuteScript _) _ => true | _ => false end.

Definition attempts_made (tr : list event) : nat :=
  length (List.filter is_attempt tr).

(** A submit step that succeeded: the key press or, after it failed, the
    click on the send button. *)
Definition is_submit (ev : event) : bool :=
  match ev with
  | Call SendKeysEnter None | Call Click None => true
  | _ => false
  end.

Definition submits (tr : list event) : nat :=
  length (List.filter is_submit tr).

(** ** The specification's reading of the phone check *)
Module Spec.

Fixpoint remove_chars (p : ascii → bool) (s : string) : string :=
  match s with
  | EmptyString => EmptyString
  | String c r => if p c then remove_chars p r else String c (remove_chars p r)
  end.

(** Every plus sign and every space character removed. *)
Definition cleaned (v : string) : string :=
  remove_chars (λ c, Ascii.eqb c "+" || Ascii.eqb c " ") v.

(** All-digit and of length at least 10 after cleaning. *)
Definition phone_accepted (v : string) : bool :=
  Py.all Py.char_isdigit (cleaned v) && (10 <=? String.length (cleaned v))%nat.

Fixpoint has_char (c : ascii) (s : string) : bool :=
  match s with
  | EmptyString => false
  | String x r => Ascii.eqb x c || has_char c r
  end.

End Spec.

(** ** Scenarios: concrete environments and worlds *)
Module Scenario.

Definition all_proceed : op → nat → answer := λ _ _, Proceed.

(** The browser as [initialize_driver] leaves it: one window, focused. *)
Definition one_tab : browser := {| handles := [0]; focus := 0; fresh := 1 |}.

Definition ready : world :=
  {| chrome := one_tab; trace := []; today := "2026-11-04"; now := "12:30";
     disk := ∅ |}.

(** The first [driver.close()] fails, everything else works. *)
Definition first_close_fails : op → nat → answer :=
  λ o i, match o, i with
         | Close, O => Fault WebDriverException
         | _, _ => Proceed
         end.

(** The message box never shows up, and the anchor cannot be switched to
    any more. *)
Definition no_input_box_and_no_way_back : op → nat → answer :=
  λ o _, match o with
         | UntilInputBox => Fault TimeoutException
         | SwitchToWindow 0 => Fault NoSuchWindowException
         | _ => Proceed
         end.

(** The message box never shows up; everything else works. *)
Definition no_input_box : op → nat → answer :=
  λ o _, match o with
         | UntilInputBox => Fault TimeoutException
         | _ => Proceed
         end.

(** The chat list never shows up: nobody is logged in. *)
Definition never_logged_in : op → nat → answer :=
  λ o _, match o with
         | UntilChatList _ => Fault TimeoutException
         | _ => Proceed
         end.

(** The chat list shows up only after the QR code was scanned. *)
Definition logged_in_after_scan : op → nat → answer :=
  λ o i, match o, i with
         | UntilChatList _, O => Fault TimeoutException
         | _, _ => Proceed
         end.

(** No network. *)
Definition offline : op → nat → answer :=
  λ o _, match o with
         | UrlOpen => Fault URLError
         | _ => Proceed
         end.

Definition cell (v : string) : option string := Some v.

Definition make_row (phone name message : option string) : row :=
  <["Phone" := phone]> (<["Name" := name]> (<["Message" := message]> ∅)).

Definition tab : string := String "009"%char EmptyString.

(** A phone number followed by a tab character. *)
Definition row_with_tab : row :=
  make_row (cell ("15551234567" +:+ tab)) (cell "Ana") (cell "Hi $name").

(** A line with a phone number only: the reader fills the other columns
    with [None]. *)
Definition short_row : row := make_row (cell "15551234567") None None.

Definition ana : row :=
  make_row (cell "+1 555 123 4567") (cell "Ana") (cell "Hi ${name}").
Definition bob : row :=
  make_row (cell "+44 20 7946 0958") (cell "Bob") (cell "Hi $name").
Definition cyd : row :=
  make_row (cell "+49 30 901820") (cell "Cyd") (cell "Hi").
Definition bad : row :=
  make_row (cell "555-123") (cell "Dan") (cell "Hi").

Definition session_dir : string := "C:\bulk\whatsapp_session".

Definition at_start (rows : list row) : world :=
  initial_world "2026-11-04" "12:30" (<[CSV_FILE := rows]> ∅).

(** No contacts file at all. *)
Definition no_file : world := initial_world "2026-11-04" "12:30" ∅.

(** The third contact's message box never shows up: the third
    [execute_script] onwards, waiting for it times out. *)
Definition third_contact_fails : op → nat → answer :=
  λ o i, match o with
         | UntilInputBox => if (2 <=? i)%nat then Fault TimeoutException
                            else Proceed
         | _ => Proceed
         end.

(** A row of a file whose header spells the phone column in lower
    case. *)
Definition lower_case_header : row :=
  <["phone" := Some "15551234567"]> (<["Name" := Some "Ana"]>
    (<["Message" := Some "Hi"]> ∅)).

Definition ana_and_bob : list contact :=
  [{| name := "Ana"; phone := "15551234567"; message := "Hi ${name}" |};
   {| name := "Bob"; phone := "442079460958"; message := "Hi $name" |}].

(** The message box never shows up and the speaker is out of order. *)
Definition no_input_box_no_beep : op → nat → answer :=
  λ o _, match o with
         | UntilInputBox => Fault TimeoutException
         | Beep _ _ => Fault RuntimeError
         | _ => Proceed
         end.

Definition four_rows : list row :=
  [Scenario.ana; Scenario.bob; Scenario.bad; Scenario.cyd].

(** The page load timeout cannot be set. *)
Definition no_page_load_timeout : op → nat → answer :=
  λ o _, match o with
         | SetPageLoadTimeout => Fault WebDriverException
         | _ => Proceed
         end.

(** The browser crashes while the chat list is waited for. *)
Definition crash_at_login : op → nat → answer :=
  λ o _, match o with
         | UntilChatList _ => Fault WebDriverException
         | _ => Proceed
         end.

(** Nobody is logged in and there is no keyboard to read from. *)
Definition no_keyboard : op → nat → answer :=
  λ o _, match o with
         | UntilChatList _ => Fault TimeoutException
         | Input => Fault EOFError
         | _ => Proceed
         end.

(** The user interrupts the second wait for a message box. *)
Definition interrupted_at_second_contact : op → nat → answer :=
  λ o i, match o, i with
         | UntilInputBox, 1 => Interrupt
         | _, _ => Proceed
         end.

End Scenario.

Global Instance delay_eq_dec : EqDecision delay.
Proof. solve_decision. Defined.
Global Instance message_line_eq_dec : EqDecision message_line.
Proof. solve_decision. Defined.
Global Instance event_eq_dec : EqDecision event.
Proof. solve_decision. Defined.

(** ** Vocabulary of the properties *)

(** An identifier of the template language. *)
Definition is_identifier (id : string) : bool :=
  match id with
  | EmptyString => false
  | String c r => Template.id_start c && Py.all Template.id_continue r
  end.

(** The text starts with a character that could continue an
    identifier. *)
Definition continues_identifier (s : string) : bool :=
  match s with
  | EmptyString => false
  | String c _ => Template.id_continue c
  end.

(** Every exception that [m] can end in satisfies [P]. *)
Definition raises_only {A : Type} (P : exn → Prop) (m : M A) : Prop :=
  ∀ w e w', m w = (Raise e, w') → P e.

(** The user never interrupts. *)
Definition uninterrupted (env : op → nat → answer) : Prop :=
  ∀ o i, env o i ≠ Interrupt.

(** The commands that manage windows never fail by themselves. *)
Definition tabs_reliable (env : op → nat → answer) : Prop :=
  ∀ i, env CurrentWindowHandle i = Proceed
       ∧ env WindowHandles i = Proceed
       ∧ env Close i = Proceed
       ∧ ∀ h, env (SwitchToWindow h) i = Proceed.

(** The anchor is the only open window and has the focus. *)
Definition only_window (a : handle) (b : browser) : Prop :=
  handles b = [a] ∧ focus b = a.

(** The calls that are commands to the browser. *)
Definition is_driver_op (o : op) : bool :=
  match o with
  | ChromeNew | SetPageLoadTimeout | ImplicitlyWait | MaximizeWindow | Get
  | UntilChatList _ | CurrentWindowHandle | ExecuteScript _ | WindowHandles
  | SwitchToWindow _ | UntilInputBox | SendKeysEnter | UntilSendButton
  | Click | Close | Quit => true
  | UrlOpen | Input | OpenCsv _ | NextRow | Beep _ _ => false
  end.

(** The last command sent to the browser and how it ended. *)
Definition last_command (tr : list event) : option (op * option exn) :=
  fold_left
    (λ acc ev, match ev with
               | Call o r => if is_driver_op o then Some (o, r) else acc
               | _ => acc
               end)
    tr None.

(** A computation that fails does so in a call, which the trace shows
    last. *)
Definition fails_in_a_call {A : Type} (m : M A) : Prop :=
  ∀ w e w', m w = (Raise e, w') →
    ∃ o tr, is_driver_op o = true ∧ trace w' = tr ++ [Call o (Some e)].

(** The row has a string in each of the three columns (or lacks the
    column altogether). *)
Definition string_cells (r : row) : Prop :=
  ∃ pv nv mv, row_get r "Phone" = Some pv ∧ row_get r "Name" = Some nv
              ∧ row_get r "Message" = Some mv.

(** The contact a row of strings stands for, when its phone passes the
    check. *)
Definition accepted_contact (r : row) : option contact :=
  match row_get r "Phone", row_get r "Name", row_get r "Message" with
  | Some pv, Some nv, Some mv =>
      if Spec.phone_accepted (Py.strip pv)
      then Some {| name := Py.strip nv;
                   phone := Spec.cleaned (Py.strip pv);
                   message := Py.strip mv |}
      else None
  | _, _, _ => None
  end.

Definition accepted_contacts (rows : list row) : list contact :=
  omap accepted_contact rows.

(** The browser starts and loads the page. *)
Definition launches (env : op → nat → answer) : Prop :=
  env ChromeNew 0 = Proceed ∧ env SetPageLoadTimeout 0 = Proceed
  ∧ env ImplicitlyWait 0 = Proceed ∧ env MaximizeWindow 0 = Proceed
  ∧ env Get 0 = Proceed.

(** The chat list shows up at the first probe, or at the probe that
    follows the QR prompt. *)
Definition login_achieved (env : op → nat → answer) : Prop :=
  env (UntilChatList 30) 0 = Proceed
  ∨ (env (UntilChatList 30) 0 = Fault TimeoutException
     ∧ env Input 0 = Proceed
     ∧ env (UntilChatList 30) 1 = Proceed).

(** Both probes time out. *)
Definition login_never (env : op → nat → answer) : Prop :=
  env (UntilChatList 30) 0 = Fault TimeoutException
  ∧ env Input 0 = Proceed
  ∧ env (UntilChatList 30) 1 = Fault TimeoutException.

(** The world once [initialize_driver] has returned. *)
Definition started (date time : string) (files : gmap string (list row))
  : world :=
  {| chrome := {| handles := [0]; focus := 0; fresh := 1 |};
     trace := [Call UrlOpen None; Call ChromeNew None;
               Call SetPageLoadTimeout None; Call ImplicitlyWait None;
               Call MaximizeWindow None];
     today := date; now := time; disk := files |}.

(** The [try] statement of [main_bulk_send] (lines 280-311) around a
    body. *)
Definition guarded (body : M unit) : M unit :=
  try_finally
    (try_except body
       [except_KeyboardInterrupt (log Interrupted "yellow");
        except_Exception (λ e, log (Unexpected e) "red";; raise (Err e))])
    (log Quitting "blue";; driver_quit).

(** How many events of the trace satisfy [p]. *)
Definition tally (p : event → bool) (tr : list event) : nat :=
  length (List.filter p tr).

(** Whatever its outcome, [m] adds [n] events that satisfy [p]. *)
Definition adds {A : Type} (p : event → bool) (n : nat) (m : M A) : Prop :=
  ∀ w r w', m w = (r, w') → tally p (trace w') = (tally p (trace w) + n)%nat.

(** [m] calls [quit] at most once, and only to end in [SystemExit 1]. *)
Definition quits_to_exit {A : Type} (m : M A) : Prop :=
  ∀ w r w', m w = (r, w') →
    calls Quit (trace w') = calls Quit (trace w)
    ∨ (calls Quit (trace w') = S (calls Quit (trace w))
       ∧ r = Raise (SystemExit 1)).

(** ** Vocabulary of the further properties *)

(** The warning for a row that was skipped. *)
Definition is_invalid_phone_log (ev : event) : bool :=
  match ev with Log (InvalidPhone _) _ => true | _ => false end.

(** What the loop logs for rows that all lack the phone column. *)
Definition skipped_rows (rows : list row) : list event :=
  flat_map (λ _ : row, [Call NextRow None; Log (InvalidPhone "") "yellow"])
    rows.

(** The row that holds the fields of a contact, as a file written from
    the contact list would give it to the reader. *)
Definition row_of_contact (c : contact) : row :=
  <["Phone" := Some (phone c)]> (<["Name" := Some (name c)]>
    (<["Message" := Some (message c)]> ∅)).

(** The text starts in a way that could open a placeholder or an escape
    after a delimiter: a second delimiter, the first character of an
    identifier, or a brace followed by one. *)
Definition opens_placeholder (s : string) : bool :=
  match s with
  | EmptyString => false
  | String c r =>
      Ascii.eqb c Template.delimiter || Template.id_start c
      || (Ascii.eqb c "{"
          && match r with
             | String d _ => Template.id_start d
             | EmptyString => false
             end)
  end.

(** The address a message is sent through, and the script that opens it
    (lines 182 and 188). *)
Definition contact_url (phone message : string) : string :=
  "https://web.whatsapp.com/send?phone=" +:+ phone +:+ "&text="
  +:+ Urllib.quote message.

Definition open_tab_script (url : string) : string :=
  "window.open('" +:+ url +:+ "', '_blank');".

(** The characters an encoded text is made of. *)
Definition encoded_char (c : ascii) : bool :=
  Urllib.always_safe c || Ascii.eqb c "%".

(** The characters of an address: those of the fixed part, the digits of
    the phone number and those of the encoded message. *)
Definition address_char (c : ascii) : bool :=
  encoded_char c || Py.char_isdigit c
  || Spec.has_char c ":?=&".

(** The value of a hexadecimal digit as [Urllib.hex_digit] writes it. *)
Definition hex_value (c : ascii) : N :=
  if Py.between 48 57 c then (Py.ord c - 48)%N else (Py.ord c - 55)%N.

(** The character an encoded text starts with, and the rest of the
    text. *)
Definition first_encoded (s : string) : option (ascii * string) :=
  match s with
  | EmptyString => None
  | String c r =>
      if Ascii.eqb c "%" then
        match r with
        | String h (String l r') =>
            let byte := (16 * hex_value h + hex_value l)%N in
            if (byte <? 128)%N then Some (ascii_of_N byte, r')
            else
              match r' with
              | String _ (String h' (String l' r'')) =>
                  Some (ascii_of_N ((byte - 192) * 64
                                    + (16 * hex_value h' + hex_value l' - 128)),
                        r'')
              | _ => None
              end
        | _ => None
        end
      else Some (c, r)
  end.

(** Whatever its outcome, [m] only appends to the trace, and every event
    it appends satisfies [P]. *)
Definition emits {A : Type} (P : event → Prop) (m : M A) : Prop :=
  ∀ w r w', m w = (r, w') →
    ∃ added, trace w' = trace w ++ added ∧ Forall P added.

(** The event is not a script run, or it runs [script]. *)
Definition runs_only (script : string) (ev : event) : Prop :=
  ∀ s r, ev = Call (ExecuteScript s) r → s = script.

(** The lines and the pauses that tell how a send went. *)
Definition is_sent_log (ev : event) : bool :=
  match ev with Log (Sent _ _) _ => true | _ => false end.

Definition is_attempt_failed_log (ev : event) : bool :=
  match ev with Log (AttemptFailed _ _ _) _ => true | _ => false end.

Definition is_failed_to_send_log (ev : event) : bool :=
  match ev with Log (FailedToSend _) _ => true | _ => false end.

(** [time.sleep(5)], the pause after a failed attempt (line 233). *)
Definition is_retry_pause (ev : event) : bool :=
  match ev with Sleep (Seconds n) => (n =? 5)%Z | _ => false end.

(** [time.sleep(random.uniform(MIN_DELAY_SEC, MAX_DELAY_SEC))], the delay
    after a message that is not a reply (lines 219-220). *)
Definition is_rate_delay (ev : event) : bool :=
  match ev with
  | Sleep (Uniform lo hi) => (lo =? MIN_DELAY_SEC)%Z && (hi =? MAX_DELAY_SEC)%Z
  | _ => false
  end.

(** [m] adds [n] events that satisfy [p] when it returns, and none when it
    raises. *)
Definition adds_on_return {A : Type} (p : event → bool) (n : nat) (m : M A)
  : Prop :=
  ∀ w r w', m w = (r, w') →
    tally p (trace w')
    = (tally p (trace w) + match r with Ret _ => n | Raise _ => 0 end)%nat.

(** [m] adds at most [n] events that satisfy [p], and [n] when it
    returns. *)
Definition adds_upto {A : Type} (p : event → bool) (n : nat) (m : M A) : Prop :=
  ∀ w r w', m w = (r, w') →
    (tally p (trace w) ≤ tally p (trace w') ≤ tally p (trace w) + n)%nat
    ∧ ∀ a, r = Ret a → tally p (trace w') = (tally p (trace w) + n)%nat.

(** Whatever its outcome, [m] adds as many events that satisfy [p] as
    events that satisfy [q]. *)
Definition balanced {A : Type} (p q : event → bool) (m : M A) : Prop :=
  ∀ w r w', m w = (r, w') →
    (tally p (trace w') + tally q (trace w)
     = tally p (trace w) + tally q (trace w'))%nat.

(** The steps of the workflow up to the contact list (lines 281-286), and
    what it does with the list (lines 287-302). *)
Definition sign_in_and_load (env : op → nat → answer) : M (list contact) :=
  driver_get env;;
  logged_in ← wait_for_whatsapp_login env 30;
  (if negb logged_in then prompt_qr_scan env else mret tt);;
  load_contacts_from_csv env CSV_FILE.

Definition send_and_report (env : op → nat → answer) (contacts : list contact)
  : M unit :=
  match contacts with
  | [] => mret tt
  | _ :: _ =>
      let total := Z.of_nat (length contacts) in
      log (Starting total) "magenta";;
      success_count ← send_all env contacts 0%Z;
      log (Summary success_count total)
        (if (success_count =? total)%Z then "bold green" else "bold yellow")
  end.

(** The events of signing in and loading: the calls to the page, the
    keyboard and the file, and the lines about them. *)
Definition is_setup_event (ev : event) : bool :=
  match ev with
  | Call (Get | UntilChatList _ | Input | Quit | OpenCsv _ | NextRow) _ => true
  | Log (ScanQR | LoginFailed | InvalidPhone _ | CsvError _ _
         | NoValidContacts) _ => true
  | _ => false
  end.

(** The events of the attempts to send one message. *)
Definition is_attempt_event (ev : event) : bool :=
  match ev with
  | Call (ExecuteScript _ | WindowHandles | SwitchToWindow _ | UntilInputBox
          | SendKeysEnter | UntilSendButton | Click | Close | Beep _ _) _ =>
      true
  | Log (Sent _ _ | AttemptFailed _ _ _ | FailedToSend _) _ => true
  | Sleep _ => true
  | _ => false
  end.

(** An exit, if any, is the exit with status 1. *)
Definition exits_with_1 (e : exn) : Prop :=
  ∀ code, e = SystemExit code → code = 1%Z.

(** The text [render_message_template] returns on a given day, at a given
    time. *)
Definition rendering (date time name phone template : string) : string :=
  match Template.safe_substitute (substitutions name phone date time) template
  with
  | Ret out => out
  | Raise _ => EmptyString
  end.

(** What a send that succeeds at the first attempt leaves in the trace,
    when the tab it opens gets the handle [tab] and the anchor is window
    0. *)
Definition successful_send (name phone message : string) (tab : handle)
  : list event :=
  [Call CurrentWindowHandle None;
   Call (ExecuteScript (open_tab_script (contact_url phone message))) None;
   Call WindowHandles None;
   Call (SwitchToWindow tab) None;
   Call UntilInputBox None;
   Sleep (Uniform 1 3);
   Call SendKeysEnter None;
   Log (Sent name phone) "green";
   Call (Beep 1000 200) None;
   Sleep (Seconds 2);
   Call Close None;
   Call (SwitchToWindow 0) None;
   Sleep (Uniform MIN_DELAY_SEC MAX_DELAY_SEC)].

(** The sends of a list of contacts that all succeed at the first
    attempt; the first tab gets the handle [tab]. *)
Fixpoint successful_sends (date time : string) (contacts : list contact)
    (tab : handle) : list event :=
  match contacts with
  | [] => []
  | c :: rest =>
      successful_send (name c) (phone c)
        (rendering date time (name c) (phone c) (message c)) tab
      ++ successful_sends date time rest (S tab)
  end.

(** [m] leaves the date, the time and the files as they are. *)
Definition keeps_clock {A : Type} (m : M A) : Prop :=
  ∀ w r w', m w = (r, w') →
    today w' = today w ∧ now w' = now w ∧ disk w' = disk w.

(** The line that reports a contact as sent, and the script that opens
    its tab. *)
Definition sent_line (c : contact) : event :=
  Log (Sent (name c) (phone c)) "green".

Definition tab_of (date time : string) (c : contact) : event :=
  Call (ExecuteScript
          (open_tab_script
             (contact_url (phone c)
                (rendering date time (name c) (phone c) (message c)))))
    None.

(** A call during which the user's interrupt arrived. *)
Definition is_interrupted_call (ev : event) : bool :=
  match ev with
  | Call _ (Some KeyboardInterrupt) => true
  | _ => false
  end.

(** No call of the list was interrupted. *)
Definition undisturbed (tr : list event) : Prop :=
  Forall (λ ev, is_interrupted_call ev = false) tr.

(** [m] ends in [KeyboardInterrupt] exactly when one of its calls is
    interrupted, and that call is then the last thing it does. *)
Definition stops_at_interrupt {A : Type} (m : M A) : Prop :=
  ∀ w r w', m w = (r, w') →
    ∃ added,
      trace w' = trace w ++ added
      ∧ match r with
        | Raise KeyboardInterrupt =>
            ∃ pre o, added = pre ++ [Call o (Some KeyboardInterrupt)]
                     ∧ undisturbed pre
        | _ => undisturbed added
        end.

(** * Properties *)

(** ** Strings and URLs *)

Example quote_example : Urllib.quote "Hi Ana, it's 5$" = "Hi%20Ana%2C%20it%27s%205%24".
Proof. reflexivity. Qed.

Example strip_example : Py.strip "  +1 555 " = "+1 555".
Proof. reflexivity. Qed.

Lemma prefix_empty (s : string) : String.prefix EmptyString s = true.
Proof. destruct s; reflexivity. Qed.

(** Replacing one character by nothing removes every occurrence of it. *)
Lemma replace_char_remove (c : ascii) (s : string) :
  Py.replace (String c EmptyString) EmptyString s
  = Spec.remove_chars (λ x, Ascii.eqb x c) s.
Proof.
  unfold Py.replace.
  induction s as [|a s IH]; [reflexivity |].
  cbn [Py.replace_from Spec.remove_chars String.prefix].
  destruct (ascii_dec c a) as [<- | Hne].
  - rewrite prefix_empty, Ascii.eqb_refl. exact IH.
  - destruct (Ascii.eqb a c) eqn:E.
    + apply Ascii.eqb_eq in E. congruence.
    + now rewrite IH.
Qed.

Lemma remove_chars_twice (p q : ascii → bool) (s : string) :
  Spec.remove_chars q (Spec.remove_chars p s)
  = Spec.remove_chars (λ c, p c || q c) s.
Proof.
  induction s as [|a s IH]; [reflexivity |].
  cbn [Spec.remove_chars].
  destruct (p a); cbn [orb Spec.remove_chars]; [exact IH |].
  destruct (q a); now rewrite IH.
Qed.

(** The two [replace] calls of line 256 remove every plus sign and every
    space. *)
Lemma clean_phone (s : string) :
  Py.replace " " "" (Py.replace "+" "" s) = Spec.cleaned s.
Proof.
  rewrite !replace_char_remove, remove_chars_twice. reflexivity.
Qed.

(** The test of line 257 on a cleaned phone. *)
Lemma phone_test (p : string) :
  Py.isdigit p && (10 <=? Py.len p)%Z
  = Py.all Py.char_isdigit p && (10 <=? String.length p)%nat.
Proof.
  unfold Py.len.
  destruct p as [|a p]; [reflexivity |].
  cbn [Py.isdigit]. f_equal.
  destruct (Z.leb_spec 10 (Z.of_nat (String.length (String a p))));
    destruct (Nat.leb_spec 10 (String.length (String a p))); try reflexivity; lia.
Qed.

(** What [read_row] does with a row whose three cells are strings. *)
Lemma read_row_strings (r : row) (pv nv mv : string) (contacts : list contact)
    (w : world) :
  row_get r "Phone" = Some pv → row_get r "Name" = Some nv →
  row_get r "Message" = Some mv →
  read_row r contacts w
  = if Spec.phone_accepted (Py.strip pv)
    then (Ret (contacts ++ [{| name := Py.strip nv;
                               phone := Spec.cleaned (Py.strip pv);
                               message := Py.strip mv |}]), w)
    else (Ret contacts, record (Log (InvalidPhone (Py.strip pv)) "yellow") w).
Proof.
  intros HP HN HM. unfold read_row. rewrite HP, HN, HM.
  cbn [strip_value]. unfold mbind, M_bind, mret, M_ret.
  rewrite clean_phone, phone_test.
  fold (Spec.phone_accepted (Py.strip pv)).
  destruct (Spec.phone_accepted (Py.strip pv)); reflexivity.
Qed.




(** ** The template engine *)

Section TemplateEngine.
Import Template.

Lemma append_assoc (a b c : string) : (a +:+ b) +:+ c = a +:+ (b +:+ c).
Proof.
  induction a as [|x a IH]; [reflexivity |].
  change (String x a +:+ b) with (String x (a +:+ b)).
  change (String x (a +:+ b) +:+ c) with (String x ((a +:+ b) +:+ c)).
  now rewrite IH.
Qed.

Lemma span_length (p : ascii → bool) (s a b : string) :
  span p s = (a, b) → String.length b ≤ String.length s.
Proof.
  revert a b. induction s as [|c s IH]; intros a b; cbn [span].
  - intros [= <- <-]. reflexivity.
  - destruct (p c).
    + destruct (span p s) as [a' b'] eqn:E. intros [= <- <-].
      specialize (IH _ _ eq_refl). cbn. lia.
    + intros [= <- <-]. reflexivity.
Qed.

Lemma span_nonempty (p : ascii → bool) (c : ascii) (s : string) :
  p c = true → ∃ a b, span p (String c s) = (String c a, b).
Proof.
  intros H. cbn [span]. rewrite H. destruct (span p s) as [a b]. eauto.
Qed.

(** The text after a match is no longer than the text after the
    delimiter. *)
Lemma match_after_delimiter_length (r rest : string) (mo : match_object) :
  match_after_delimiter r = (mo, rest) → String.length rest ≤ String.length r.
Proof.
  unfold match_after_delimiter.
  destruct r as [|c r']; [intros [= <- <-]; reflexivity |].
  destruct (Ascii.eqb c delimiter); [intros [= <- <-]; cbn; lia |].
  destruct (id_start c).
  { destruct (span id_continue (String c r')) as [id rest0] eqn:E.
    intros [= <- <-]. exact (span_length _ _ _ _ E). }
  destruct (Ascii.eqb c "{"); [| intros [= <- <-]; reflexivity].
  destruct r' as [|d r'']; [intros [= <- <-]; reflexivity |].
  destruct (id_start d); [| intros [= <- <-]; reflexivity].
  destruct (span id_continue (String d r'')) as [id rest0] eqn:E.
  apply span_length in E.
  destruct rest0 as [|e rest']; [intros [= <- <-]; reflexivity |].
  destruct (Ascii.eqb e "}"); intros [= <- <-]; cbn in *; lia.
Qed.

(** [convert] never reaches its [ValueError]: every match of the pattern
    sets one of the four groups, and a named group is never empty. *)
Lemma convert_match_total (mapping : gmap string string) (r rest : string)
    (mo : match_object) :
  match_after_delimiter r = (mo, rest) → ∃ x, convert mapping mo = Ret x.
Proof.
  assert (Hinv : ∃ x, convert mapping mo_invalid = Ret x)
    by (eexists; reflexivity).
  unfold match_after_delimiter.
  destruct r as [|c r']; [intros [= <- <-]; exact Hinv |].
  destruct (Ascii.eqb c delimiter);
    [intros [= <- <-]; eexists; reflexivity |].
  destruct (id_start c) eqn:Hc.
  { assert (Hcc : id_continue c = true) by (unfold id_continue; now rewrite Hc).
    destruct (span_nonempty id_continue c r' Hcc) as (a & b & ->).
    intros [= <- <-]. unfold convert. cbn.
    destruct (mapping !! String c a); eexists; reflexivity. }
  destruct (Ascii.eqb c "{"); [| intros [= <- <-]; exact Hinv].
  destruct r' as [|d r'']; [intros [= <- <-]; exact Hinv |].
  destruct (id_start d) eqn:Hd; [| intros [= <- <-]; exact Hinv].
  assert (Hdc : id_continue d = true) by (unfold id_continue; now rewrite Hd).
  destruct (span_nonempty id_continue d r'' Hdc) as (a & b & ->).
  destruct b as [|e rest']; [intros [= <- <-]; exact Hinv |].
  destruct (Ascii.eqb e "}"); intros [= <- <-]; [| exact Hinv].
  unfold convert. cbn.
  destruct (mapping !! String d a); eexists; reflexivity.
Qed.

Lemma sub_total (mapping : gmap string string) (fuel : nat) :
  ∀ s, String.length s ≤ fuel → ∃ out, sub mapping fuel s = Ret out.
Proof.
  induction fuel as [|n IH]; intros s Hs.
  - destruct s; [eexists; reflexivity | cbn in Hs; lia].
  - destruct s as [|c r]; [eexists; reflexivity |].
    cbn [sub]. cbn in Hs.
    destruct (Ascii.eqb c delimiter).
    + destruct (match_after_delimiter r) as [mo rest] eqn:E.
      destruct (convert_match_total mapping _ _ _ E) as [x ->].
      apply match_after_delimiter_length in E.
      destruct (IH rest) as [y ->]; [lia |]. eexists; reflexivity.
    + destruct (IH r) as [y ->]; [lia |]. eexists; reflexivity.
Qed.

(** Fuel beyond the length of the text changes nothing. *)
Lemma sub_fuel (mapping : gmap string string) (n1 : nat) :
  ∀ n2 s, String.length s ≤ n1 → String.length s ≤ n2 →
          sub mapping n1 s = sub mapping n2 s.
Proof.
  induction n1 as [|n1 IH]; intros n2 s H1 H2.
  - destruct s; [destruct n2; reflexivity | cbn in H1; lia].
  - destruct s as [|c r]; [destruct n2; reflexivity |].
    destruct n2 as [|n2]; [cbn in H2; lia |].
    cbn [sub]. cbn in H1, H2.
    destruct (Ascii.eqb c delimiter).
    + destruct (match_after_delimiter r) as [mo rest] eqn:E.
      apply match_after_delimiter_length in E.
      rewrite (IH n2 rest) by lia. reflexivity.
    + rewrite (IH n2 r) by lia. reflexivity.
Qed.

Theorem safe_substitute_total (mapping : gmap string string) (template : string) :
  ∃ out, safe_substitute mapping template = Ret out.
Proof. apply sub_total. reflexivity. Qed.

(** The recursion [safe_substitute] stands for. *)
Lemma safe_substitute_literal (mapping : gmap string string) (c : ascii)
    (r : string) :
  Ascii.eqb c delimiter = false →
  safe_substitute mapping (String c r)
  = (y ← safe_substitute mapping r; Ret (String c y)).
Proof.
  intros H. unfold safe_substitute. cbn [String.length sub]. rewrite H.
  reflexivity.
Qed.

Lemma safe_substitute_match (mapping : gmap string string) (r rest : string)
    (mo : match_object) :
  match_after_delimiter r = (mo, rest) →
  safe_substitute mapping (String delimiter r)
  = (x ← convert mapping mo; y ← safe_substitute mapping rest; Ret (x +:+ y)).
Proof.
  intros E. unfold safe_substitute. cbn [String.length sub].
  rewrite Ascii.eqb_refl, E.
  rewrite (sub_fuel mapping (String.length r) (String.length rest) rest);
    [reflexivity | | reflexivity].
  exact (match_after_delimiter_length _ _ _ E).
Qed.

(** Text without a delimiter is copied. *)
Lemma safe_substitute_plain (mapping : gmap string string) (s : string) :
  Spec.has_char delimiter s = false → safe_substitute mapping s = Ret s.
Proof.
  induction s as [|c r IH]; [reflexivity |].
  cbn [Spec.has_char]. intros H. apply orb_false_iff in H as [Hc Hr].
  rewrite safe_substitute_literal by exact Hc. rewrite IH by exact Hr.
  reflexivity.
Qed.

Lemma safe_substitute_prefix (mapping : gmap string string) (pre s : string) :
  Spec.has_char delimiter pre = false →
  safe_substitute mapping (pre +:+ s)
  = (y ← safe_substitute mapping s; Ret (pre +:+ y)).
Proof.
  induction pre as [|c r IH]; intros H.
  - change (EmptyString +:+ s) with s.
    destruct (safe_substitute mapping s); reflexivity.
  - cbn [Spec.has_char] in H. apply orb_false_iff in H as [Hc Hr].
    change (String c r +:+ s) with (String c (r +:+ s)).
    rewrite safe_substitute_literal by exact Hc.
    rewrite IH by exact Hr.
    destruct (safe_substitute mapping s); reflexivity.
Qed.

Lemma span_identifier (id rest : string) :
  Py.all id_continue id = true → continues_identifier rest = false →
  span id_continue (id +:+ rest) = (id, rest).
Proof.
  intros Hid Hrest. induction id as [|c r IH].
  - change (EmptyString +:+ rest) with rest.
    destruct rest as [|x rest']; [reflexivity |].
    cbn [continues_identifier] in Hrest. cbn [span]. now rewrite Hrest.
  - cbn [Py.all] in Hid. apply andb_true_iff in Hid as [Hc Hr].
    change (String c r +:+ rest) with (String c (r +:+ rest)).
    cbn [span]. rewrite Hc, (IH Hr). reflexivity.
Qed.

Lemma id_start_not_delimiter (c : ascii) :
  id_start c = true → Ascii.eqb c delimiter = false.
Proof.
  intros H. destruct (Ascii.eqb_spec c delimiter) as [-> |]; [| reflexivity].
  discriminate.
Qed.

(** A placeholder without braces is matched up to the first character
    that cannot continue its name. *)
Lemma match_named (id rest : string) :
  is_identifier id = true → continues_identifier rest = false →
  match_after_delimiter (id +:+ rest) = (mo_named id, rest).
Proof.
  destruct id as [|d r]; [discriminate |]. cbn [is_identifier].
  intros H Hrest. apply andb_true_iff in H as [Hd Hr].
  assert (Hall : Py.all id_continue (String d r) = true).
  { cbn [Py.all]. unfold id_continue at 1. now rewrite Hd, Hr. }
  change (String d r +:+ rest) with (String d (r +:+ rest)).
  unfold match_after_delimiter.
  rewrite (id_start_not_delimiter d Hd), Hd.
  change (String d (r +:+ rest)) with (String d r +:+ rest).
  now rewrite (span_identifier _ rest Hall Hrest).
Qed.

(** A braced placeholder is matched as such. *)
Lemma match_braced (id rest : string) :
  is_identifier id = true →
  match_after_delimiter (String "{" (id +:+ String "}" rest))
  = (mo_braced id, rest).
Proof.
  destruct id as [|d r]; [discriminate |]. cbn [is_identifier].
  intros H. apply andb_true_iff in H as [Hd Hr].
  assert (Hall : Py.all id_continue (String d r) = true).
  { cbn [Py.all]. unfold id_continue at 1. now rewrite Hd, Hr. }
  unfold match_after_delimiter.
  change (Ascii.eqb "{" delimiter) with false.
  change (id_start "{") with false.
  change (Ascii.eqb "{" "{") with true. cbv iota.
  change (String d r +:+ String "}" rest)
    with (String d (r +:+ String "}" rest)).
  cbv iota. rewrite Hd.
  change (String d (r +:+ String "}" rest))
    with (String d r +:+ String "}" rest).
  rewrite (span_identifier _ (String "}" rest) Hall eq_refl).
  change (Ascii.eqb "}" "}") with true. reflexivity.
Qed.

(** A braced placeholder that the mapping does not know stays as it is. *)
Lemma safe_substitute_unknown (mapping : gmap string string)
    (pre id rest : string) :
  Spec.has_char delimiter pre = false → is_identifier id = true →
  mapping !! id = None →
  safe_substitute mapping (pre +:+ "${" +:+ id +:+ "}" +:+ rest)
  = (out ← safe_substitute mapping rest;
     Ret (pre +:+ "${" +:+ id +:+ "}" +:+ out)).
Proof.
  intros Hpre Hid Hm.
  rewrite safe_substitute_prefix by exact Hpre.
  change ("${" +:+ id +:+ "}" +:+ rest)
    with (String delimiter (String "{" (id +:+ String "}" rest))).
  rewrite (safe_substitute_match mapping _ _ _ (match_braced id rest Hid)).
  unfold convert. cbn [named braced mo_braced py_or].
  destruct id as [|d r]; [discriminate |]. rewrite Hm.
  cbn [group mo_braced].
  destruct (safe_substitute mapping rest) as [a | e]; [| reflexivity].
  unfold mbind, result_bind. now rewrite !append_assoc.
Qed.

(** So does a placeholder without braces. *)
Lemma safe_substitute_unknown_named (mapping : gmap string string)
    (pre id rest : string) :
  Spec.has_char delimiter pre = false → is_identifier id = true →
  continues_identifier rest = false → mapping !! id = None →
  safe_substitute mapping (pre +:+ "$" +:+ id +:+ rest)
  = (out ← safe_substitute mapping rest; Ret (pre +:+ "$" +:+ id +:+ out)).
Proof.
  intros Hpre Hid Hrest Hm.
  rewrite safe_substitute_prefix by exact Hpre.
  change ("$" +:+ id +:+ rest) with (String delimiter (id +:+ rest)).
  rewrite (safe_substitute_match mapping _ _ _ (match_named id rest Hid Hrest)).
  unfold convert. cbn [named braced mo_named py_or].
  destruct id as [|d r]; [discriminate |]. rewrite Hm.
  cbn [group mo_named].
  destruct (safe_substitute mapping rest) as [a | e]; [| reflexivity].
  unfold mbind, result_bind.
  change (String delimiter (String d r) +:+ a)
    with ("$" +:+ String d r +:+ a).
  reflexivity.
Qed.

Lemma substitutions_unknown (name phone date time id : string) :
  id ∉ ["name"; "phone"; "date"; "time"] →
  substitutions name phone date time !! id = None.
Proof.
  intros H. unfold substitutions.
  rewrite !lookup_insert_ne by (intros <-; apply H; set_solver).
  apply lookup_empty.
Qed.

Lemma render_message_template_run (template name phone : string) (w : world) :
  render_message_template template name phone w
  = (Template.safe_substitute
       (substitutions name phone (today w) (now w)) template, w).
Proof. reflexivity. Qed.

(** C5, amended: [render_message_template] never raises; a placeholder
    whose name is not among name, phone, date and time stays in the output
    as it is written, with braces or without; and a rendering that holds no
    dollar sign renders to itself. *)
Theorem render_message_template_total (template name phone : string)
    (w : world) :
  (∃ out, render_message_template template name phone w = (Ret out, w))
  ∧ (∀ pre id rest out,
       Spec.has_char Template.delimiter pre = false →
       is_identifier id = true →
       id ∉ ["name"; "phone"; "date"; "time"] →
       render_message_template rest name phone w = (Ret out, w) →
       render_message_template (pre +:+ "${" +:+ id +:+ "}" +:+ rest)
         name phone w
       = (Ret (pre +:+ "${" +:+ id +:+ "}" +:+ out), w))
  ∧ (∀ pre id rest out,
       Spec.has_char Template.delimiter pre = false →
       is_identifier id = true →
       continues_identifier rest = false →
       id ∉ ["name"; "phone"; "date"; "time"] →
       render_message_template rest name phone w = (Ret out, w) →
       render_message_template (pre +:+ "$" +:+ id +:+ rest) name phone w
       = (Ret (pre +:+ "$" +:+ id +:+ out), w))
  ∧ (∀ out,
       render_message_template template name phone w = (Ret out, w) →
       Spec.has_char Template.delimiter out = false →
       render_message_template out name phone w = (Ret out, w)).
Proof.
  rewrite !render_message_template_run. split; [| split; [| split]].
  - destruct (safe_substitute_total
                (substitutions name phone (today w) (now w)) template)
      as [out ->]. eauto.
  - intros pre id rest out Hpre Hid Hnew.
    rewrite !render_message_template_run. intros [= Hrest].
    rewrite safe_substitute_unknown, Hrest;
      auto using substitutions_unknown.
  - intros pre id rest out Hpre Hid Hcont Hnew.
    rewrite !render_message_template_run. intros [= Hrest].
    rewrite safe_substitute_unknown_named, Hrest;
      auto using substitutions_unknown.
  - intros out _ Hplain. rewrite render_message_template_run.
    now rewrite safe_substitute_plain.
Qed.

(** The theorem at two templates with a placeholder that the program does
    not know, and at a rendering without dollar sign. *)
Lemma render_message_template_total_witness :
  render_message_template ("Today is " +:+ "${" +:+ "day" +:+ "}" +:+ ", ${name}")
    "Ana" "15551234567" Scenario.ready
  = (Ret "Today is ${day}, Ana", Scenario.ready)
  ∧ render_message_template ("Dear " +:+ "$" +:+ "customer" +:+ ", ${name}")
      "Ana" "15551234567" Scenario.ready
    = (Ret "Dear $customer, Ana", Scenario.ready)
  ∧ render_message_template "Hi Ana" "Ana" "15551234567" Scenario.ready
    = (Ret "Hi Ana", Scenario.ready).
Proof.
  split; [| split].
  - apply (proj1 (proj2 (render_message_template_total
                           "" "Ana" "15551234567" Scenario.ready))
             "Today is " "day" ", ${name}" ", Ana");
      [reflexivity | reflexivity | compute_done | reflexivity].
  - apply (proj1 (proj2 (proj2 (render_message_template_total
                                  "" "Ana" "15551234567" Scenario.ready)))
             "Dear " "customer" ", ${name}" ", Ana");
      [reflexivity | reflexivity | reflexivity | compute_done | reflexivity].
  - apply (proj2 (proj2 (proj2 (render_message_template_total
                                  "Hi ${name}" "Ana" "15551234567"
                                  Scenario.ready))));
      reflexivity.
Defined.

(** The example of the specification: with no date among the
    substitutions, its placeholder stays. *)
Example template_of_the_specification :
  Template.safe_substitute (<["name" := "Ana"]> ∅)
    "Hi ${name}, today is ${date}"
  = Ret "Hi Ana, today is ${date}".
Proof. vm_compute. reflexivity. Qed.

(** C5, as stated, fails: the escape is undone by the first rendering, and
    the second one reads a placeholder. *)
Lemma render_twice_differs :
  render_message_template "$$name" "Ana" "15551234567" Scenario.ready
  = (Ret "$name", Scenario.ready)
  ∧ render_message_template "$name" "Ana" "15551234567" Scenario.ready
    = (Ret "Ana", Scenario.ready).
Proof. split; vm_compute; reflexivity. Qed.

End TemplateEngine.

(** ** The monad *)

Lemma bind_run {A B : Type} (m : M A) (f : A → M B) (w : world) :
  (m ≫= f) w
  = match m w with
    | (Ret a, w') => f a w'
    | (Raise e, w') => (Raise e, w')
    end.
Proof. reflexivity. Qed.

Lemma bind_ret_inv {A B : Type} (m : M A) (f : A → M B) (w w' : world) (b : B) :
  (m ≫= f) w = (Ret b, w') →
  ∃ a w1, m w = (Ret a, w1) ∧ f a w1 = (Ret b, w').
Proof.
  rewrite bind_run. destruct (m w) as [[a | e] w1]; [eauto | discriminate].
Qed.

Lemma bind_raise_inv {A B : Type} (m : M A) (f : A → M B) (w w' : world)
    (e : exn) :
  (m ≫= f) w = (Raise e, w') →
  m w = (Raise e, w') ∨ ∃ a w1, m w = (Ret a, w1) ∧ f a w1 = (Raise e, w').
Proof.
  rewrite bind_run. destruct (m w) as [[a | e1] w1]; [eauto |].
  intros [= <- <-]. now left.
Qed.

Lemma try_except_run {A : Type} (body : M A) (cs : list (clause A))
    (w : world) :
  try_except body cs w
  = match body w with
    | (Ret a, w') => (Ret a, w')
    | (Raise e, w') =>
        match select cs e with
        | Some h => h w'
        | None => (Raise e, w')
        end
    end.
Proof. reflexivity. Qed.

(** *** Which exceptions a computation can end in *)

Lemma raises_only_ret {A : Type} (P : exn → Prop) (a : A) :
  raises_only P (mret a).
Proof. intros w e w'. discriminate. Qed.

Lemma raises_only_bind {A B : Type} (P : exn → Prop) (m : M A) (f : A → M B) :
  raises_only P m → (∀ a, raises_only P (f a)) → raises_only P (m ≫= f).
Proof.
  intros Hm Hf w e w' H. apply bind_raise_inv in H as [H | (a & w1 & _ & H)].
  - exact (Hm _ _ _ H).
  - exact (Hf _ _ _ _ H).
Qed.

Lemma raises_only_log (P : exn → Prop) (line : message_line) (style : string) :
  raises_only P (log line style).
Proof. intros w e w'. discriminate. Qed.

Lemma raises_only_sleep (P : exn → Prop) (d : delay) :
  raises_only P (sleep d).
Proof. intros w e w'. discriminate. Qed.

Lemma raises_only_if {A : Type} (P : exn → Prop) (b : bool) (m1 m2 : M A) :
  raises_only P m1 → raises_only P m2 → raises_only P (if b then m1 else m2).
Proof. now destruct b. Qed.

(** An [except Exception] clause lets nothing of class [Exception] out of
    the [try], whatever the body does, as long as the handler does not. *)
Lemma raises_only_except_Exception {A : Type} (P : exn → Prop) (body : M A)
    (h : error → M A) :
  (∀ x, raises_only P (h x)) →
  P KeyboardInterrupt → (∀ code, P (SystemExit code)) →
  raises_only P (try_except body [except_Exception h]).
Proof.
  intros Hh Hk Hs w e w'. rewrite try_except_run.
  destruct (body w) as [[a | [x | | code]] w1]; cbn.
  - discriminate.
  - apply Hh.
  - now intros [= <- _].
  - intros [= <- _]. apply Hs.
Qed.

(** With a user who never interrupts, a body that raises exceptions of
    class [Exception] only, and a handler that raises nothing, the [try]
    raises nothing. *)
Lemma raises_only_caught {A : Type} (body : M A) (h : error → M A) :
  raises_only (λ e, is_Exception e = true) body →
  (∀ x, raises_only (λ _, False) (h x)) →
  raises_only (λ _, False) (try_except body [except_Exception h]).
Proof.
  intros Hb Hh w e w'. rewrite try_except_run.
  destruct (body w) as [[a | e1] w1] eqn:E; [discriminate |].
  specialize (Hb _ _ _ E). destruct e1; try discriminate. cbn. apply Hh.
Qed.

Lemma raises_only_weaken {A : Type} (P Q : exn → Prop) (m : M A) :
  (∀ e, P e → Q e) → raises_only P m → raises_only Q m.
Proof. intros HPQ Hm w e w' H. apply HPQ. exact (Hm _ _ _ H). Qed.

Lemma raises_only_lift {A : Type} (P : exn → Prop) (r : result A) :
  (∀ e, r = Raise e → P e) → raises_only P (lift r).
Proof. intros H w e w' [= -> _]. now apply H. Qed.

Section Calls.
Variable env : op → nat → answer.

Lemma raises_only_syscall {A : Type} (o : op) (act : world → error + (A * world)) :
  uninterrupted env →
  raises_only (λ e, is_Exception e = true) (syscall env o act).
Proof.
  intros Hu w e w'. unfold syscall.
  destruct (env o (calls o (trace w))) eqn:E.
  - destruct (act w) as [x | [a w1]]; [now intros [= <- _] | discriminate].
  - now intros [= <- _].
  - now apply Hu in E.
Qed.

Lemma returns_unless_raises {A : Type} (m : M A) (w : world) :
  raises_only (λ _, False) m → ∃ a w', m w = (Ret a, w').
Proof.
  intros H. destruct (m w) as [[a | e] w'] eqn:E; [eauto |].
  destruct (H _ _ _ E).
Qed.

End Calls.

(** Case analysis on the outcome of the computation under scrutiny. *)
Ltac case_run E :=
  match goal with
  | |- context [match ?m with pair _ _ => _ end] =>
      destruct m as [[? | ?] ?] eqn:E
  end.

(** ** [send_whatsapp_message]: exceptions *)

Section SendExceptions.
Variable env : op → nat → answer.

Lemma cleanup_swallows (main_window : handle) :
  raises_only (λ e, is_Exception e = false) (cleanup env main_window).
Proof.
  apply raises_only_except_Exception; [| reflexivity | reflexivity].
  intros _. apply raises_only_ret.
Qed.

Lemma on_failure_quiet (attempt : Z) (phone : string) (main_window : handle)
    (e : error) :
  raises_only (λ e, is_Exception e = false) (on_failure env attempt phone main_window e).
Proof.
  unfold on_failure.
  apply raises_only_bind; [apply raises_only_log | intros _].
  apply raises_only_bind; [apply cleanup_swallows | intros _].
  apply raises_only_sleep.
Qed.

Lemma attempt_turn_quiet (name phone url : string) (main_window : handle)
    (is_reply : bool) (attempt : Z) :
  raises_only (λ e, is_Exception e = false)
    (attempt_turn env name phone url main_window is_reply attempt).
Proof.
  apply raises_only_except_Exception; [| reflexivity | reflexivity].
  intros x. apply raises_only_bind; [apply on_failure_quiet | intros _].
  apply raises_only_ret.
Qed.

(** A turn that lets the loop go on ends with the pause of line 233. *)
Lemma attempt_turn_pause (name phone url : string) (main_window : handle)
    (is_reply : bool) (attempt : Z) (w w' : world) :
  attempt_turn env name phone url main_window is_reply attempt w
  = (Ret None, w') →
  ∃ tr, trace w' = tr ++ [Sleep (Seconds 5)].
Proof.
  unfold attempt_turn. rewrite try_except_run.
  case_run E.
  - apply bind_ret_inv in E as (b & w2 & _ & [= <- _]). discriminate.
  - destruct e as [x | |]; cbn; try discriminate.
    intros H. apply bind_ret_inv in H as ([] & w2 & H & [= <-]).
    unfold on_failure in H.
    apply bind_ret_inv in H as ([] & w3 & _ & H).
    apply bind_ret_inv in H as ([] & w4 & _ & [= <-]).
    eexists. reflexivity.
Qed.

(** *** Without interrupts *)

Lemma raises_only_try_same {A : Type} (P : exn → Prop) (body : M A)
    (h : error → M A) :
  raises_only P body → (∀ x, raises_only P (h x)) →
  raises_only P (try_except body [except_Exception h]).
Proof.
  intros Hb Hh w e w'. rewrite try_except_run.
  destruct (body w) as [[a | e1] w1] eqn:E; [discriminate |].
  specialize (Hb _ _ _ E).
  destruct e1; cbn; [apply Hh | now intros [= <- _] ..].
Qed.

Lemma call_proceeds (o : op) (w : world) :
  env o (calls o (trace w)) = Proceed →
  call env o w = (Ret tt, record (Call o None) w).
Proof. intros H. unfold call, syscall. now rewrite H. Qed.

Lemma raises_only_call_reliable (o : op) :
  (∀ i, env o i = Proceed) → raises_only (λ _, False) (call env o).
Proof. intros H w e w'. now rewrite call_proceeds. Qed.

Lemma last_item_error {A : Type} (l : list A) (e : exn) :
  last_item l = Raise e → is_Exception e = true.
Proof.
  unfold last_item. destruct (List.last _ _); [discriminate |].
  now intros [= <-].
Qed.

Ltac raises_tac :=
  repeat first
    [ apply raises_only_bind; [| intros ?]
    | apply raises_only_syscall; assumption
    | apply raises_only_lift; apply last_item_error
    | apply raises_only_sleep
    | apply raises_only_log
    | apply raises_only_ret
    | apply raises_only_if
    | apply raises_only_try_same; [| intros ?] ].

Hypothesis no_interrupt : uninterrupted env.

Lemma attempt_body_errors (name phone url : string) (main_window : handle)
    (is_reply : bool) :
  raises_only (λ e, is_Exception e = true)
    (attempt_body env name phone url main_window is_reply).
Proof.
  unfold attempt_body, execute_script, window_handles, switch_to_window,
    until_input_box, send_keys_ENTER, until_send_button, click, beep_success,
    driver_close, call.
  raises_tac.
Qed.

Lemma cleanup_returns (main_window : handle) :
  raises_only (λ _, False) (cleanup env main_window).
Proof.
  apply raises_only_caught; [| intros _; apply raises_only_ret].
  unfold window_handles, driver_close, switch_to_window. raises_tac.
Qed.

Lemma attempt_turn_returns (name phone url : string) (main_window : handle)
    (is_reply : bool) (attempt : Z) :
  raises_only (λ _, False)
    (attempt_turn env name phone url main_window is_reply attempt).
Proof.
  apply raises_only_caught.
  - apply raises_only_bind; [apply attempt_body_errors | intros ?].
    apply raises_only_ret.
  - intros x. unfold on_failure.
    apply raises_only_bind; [| intros _; apply raises_only_ret].
    apply raises_only_bind; [apply raises_only_log | intros _].
    apply raises_only_bind; [apply cleanup_returns | intros _].
    apply raises_only_sleep.
Qed.

Lemma attempts_return (name phone url : string) (main_window : handle)
    (is_reply : bool) (numbers : list Z) :
  (∀ i, env (Beep 400 400) i = Proceed) →
  raises_only (λ _, False)
    (attempts env name phone url main_window is_reply numbers).
Proof.
  intros Hbeep. induction numbers as [| attempt rest IH]; cbn [attempts].
  - apply raises_only_bind; [apply raises_only_log | intros _].
    apply raises_only_bind; [| intros _; apply raises_only_ret].
    now apply raises_only_call_reliable.
  - apply raises_only_bind; [apply attempt_turn_returns | intros [b |]].
    + apply raises_only_ret.
    + exact IH.
Qed.

End SendExceptions.

(** ** Traces *)

Lemma calls_snoc (o : op) (tr : list event) (ev : event) :
  calls o (tr ++ [ev]) = (calls o tr + (if is_call o ev then 1 else 0))%nat.
Proof.
  unfold calls. rewrite List.filter_app, length_app. cbn.
  now destruct (is_call o ev).
Qed.

Lemma calls_record (o : op) (ev : event) (w : world) :
  calls o (trace (record ev w))
  = (calls o (trace w) + (if is_call o ev then 1 else 0))%nat.
Proof. apply calls_snoc. Qed.

Lemma range_empty (lo hi : Z) : (hi ≤ lo)%Z → range lo hi = [].
Proof.
  intros H. unfold range. replace (Z.to_nat (hi - lo)) with 0%nat by lia.
  reflexivity.
Qed.

Section SendEntry.
Variable env : op → nat → answer.

Lemma current_window_handle_proceeds (w : world) :
  env CurrentWindowHandle (calls CurrentWindowHandle (trace w)) = Proceed →
  is_open (focus (chrome w)) (chrome w) = true →
  current_window_handle env w
  = (Ret (focus (chrome w)),
     record (Call CurrentWindowHandle None) (set_chrome (chrome w) w)).
Proof.
  intros He Ho. unfold current_window_handle, syscall, in_window.
  now rewrite He, Ho.
Qed.

(** Once the anchor is read, the function is its loop. *)
Lemma send_enters_loop (name phone raw_message : string) (retry_limit : Z)
    (is_reply : bool) (w : world) :
  env CurrentWindowHandle (calls CurrentWindowHandle (trace w)) = Proceed →
  is_open (focus (chrome w)) (chrome w) = true →
  ∃ url,
    send_whatsapp_message env name phone raw_message retry_limit is_reply w
    = attempts env name phone url (focus (chrome w)) is_reply
        (range 1 (retry_limit + 1))
        (record (Call CurrentWindowHandle None) (set_chrome (chrome w) w)).
Proof.
  intros He Ho. unfold send_whatsapp_message.
  destruct is_reply; cbn [negb].
  - eexists. rewrite bind_run. cbn.
    rewrite bind_run, current_window_handle_proceeds by assumption.
    reflexivity.
  - destruct (safe_substitute_total
                (substitutions name phone (today w) (now w)) raw_message)
      as [out Hout].
    eexists. rewrite bind_run, render_message_template_run, Hout.
    rewrite bind_run, current_window_handle_proceeds by assumption.
    reflexivity.
Qed.

(** C9: with [retry_limit <= 0] the loop body never runs: once the anchor
    is read, the function logs the failure, sounds the failure beep and
    returns false; it issues no other call and leaves the browser as it
    was. *)
Theorem send_without_attempts (name phone raw_message : string)
    (retry_limit : Z) (is_reply : bool) (w : world) :
  (retry_limit ≤ 0)%Z →
  env CurrentWindowHandle (calls CurrentWindowHandle (trace w)) = Proceed →
  is_open (focus (chrome w)) (chrome w) = true →
  env (Beep 400 400) (calls (Beep 400 400) (trace w)) = Proceed →
  ∃ w',
    send_whatsapp_message env name phone raw_message retry_limit is_reply w
    = (Ret false, w')
    ∧ trace w' = trace w ++ [Call CurrentWindowHandle None;
                             Log (FailedToSend phone) "red";
                             Call (Beep 400 400) None]
    ∧ attempts_made (trace w') = attempts_made (trace w)
    ∧ chrome w' = chrome w.
Proof.
  intros HN He Ho Hb.
  destruct (send_enters_loop name phone raw_message retry_limit is_reply w
              He Ho) as [url ->].
  rewrite range_empty by lia. cbn [attempts].
  rewrite bind_run. cbn [log]. rewrite bind_run. unfold beep_fail.
  rewrite call_proceeds.
  - eexists. split; [reflexivity |]. cbn [trace record set_chrome chrome].
    rewrite <- !app_assoc. split; [reflexivity |]. split; [| reflexivity].
    unfold attempts_made. rewrite List.filter_app, length_app. cbn. lia.
  - rewrite !calls_record. cbn [trace set_chrome is_call].
    rewrite Nat.add_0_r.
    replace (bool_decide (CurrentWindowHandle = Beep 400 400)) with false
      by reflexivity.
    now rewrite Nat.add_0_r.
Qed.

End SendEntry.

(** The theorem at [retry_limit = 0]. *)
Lemma send_without_attempts_witness :
  ∃ w', send_whatsapp_message Scenario.all_proceed "Ana" "15551234567" "Hi" 0
          false Scenario.ready = (Ret false, w')
        ∧ trace w' = [Call CurrentWindowHandle None;
                      Log (FailedToSend "15551234567") "red";
                      Call (Beep 400 400) None]
        ∧ attempts_made (trace w') = 0
        ∧ chrome w' = Scenario.one_tab.
Proof.
  apply (send_without_attempts Scenario.all_proceed "Ana" "15551234567" "Hi" 0
           false Scenario.ready); [lia | reflexivity | reflexivity | reflexivity].
Defined.

(** ** Where the focus is left *)

Lemma last_command_snoc (tr : list event) (ev : event) :
  last_command (tr ++ [ev])
  = match ev with
    | Call o r => if is_driver_op o then Some (o, r) else last_command tr
    | _ => last_command tr
    end.
Proof. unfold last_command. rewrite fold_left_app. reflexivity. Qed.

Section Focus.
Variable env : op → nat → answer.

(** What a call that returned has done. *)
Lemma syscall_ret_inv {A : Type} (o : op) (act : world → error + (A * world))
    (w w' : world) (a : A) :
  syscall env o act w = (Ret a, w') →
  ∃ w1, act w = inr (a, w1) ∧ w' = record (Call o None) w1.
Proof.
  unfold syscall. destruct (env o _); [| discriminate | discriminate].
  destruct (act w) as [x | [a1 w1]]; [discriminate |].
  intros [= <- <-]. eauto.
Qed.

Lemma switch_to_window_ret_inv (h : handle) (w w' : world) (u : unit) :
  switch_to_window env h w = (Ret u, w') →
  focus (chrome w') = h ∧ is_open h (chrome w') = true
  ∧ last_command (trace w') = Some (SwitchToWindow h, None).
Proof.
  intros H. apply syscall_ret_inv in H as (w1 & H & ->).
  destruct (is_open h (chrome w)) eqn:Ho; [| discriminate].
  injection H as _ <-. cbn [record chrome trace set_chrome focus].
  rewrite last_command_snoc. cbn. auto.
Qed.

Lemma sleep_run (d : delay) (w : world) :
  sleep d w = (Ret tt, record (Sleep d) w).
Proof. reflexivity. Qed.

Lemma log_run (line : message_line) (style : string) (w : world) :
  log line style w = (Ret tt, record (Log line style) w).
Proof. reflexivity. Qed.

(** The body of the [try] returns only after switching back to the
    anchor. *)
Lemma attempt_body_focus (name phone url : string) (main_window : handle)
    (is_reply : bool) (w w' : world) (b : bool) :
  attempt_body env name phone url main_window is_reply w = (Ret b, w') →
  focus (chrome w') = main_window
  ∧ is_open main_window (chrome w') = true.
Proof.
  unfold attempt_body. intros H.
  do 11 (apply bind_ret_inv in H as (? & ? & _ & H)).
  apply bind_ret_inv in H as ([] & w1 & Hswitch & H).
  apply bind_ret_inv in H as ([] & w2 & Hif & [= _ <-]).
  apply switch_to_window_ret_inv in Hswitch as (Hf & Ho & _).
  destruct is_reply; cbn [negb] in Hif; injection Hif as <-; auto.
Qed.

(** *** The cleanup *)

Lemma fails_in_a_call_syscall {A : Type} (o : op)
    (act : world → error + (A * world)) :
  is_driver_op o = true → fails_in_a_call (syscall env o act).
Proof.
  intros Hd w e w'. unfold syscall.
  destruct (env o _).
  - destruct (act w) as [x | [a w1]]; [| discriminate].
    intros [= <- <-]. eauto.
  - intros [= <- <-]. eauto.
  - intros [= <- <-]. eauto.
Qed.

Lemma fails_in_a_call_bind {A B : Type} (m : M A) (f : A → M B) :
  fails_in_a_call m → (∀ a, fails_in_a_call (f a)) →
  fails_in_a_call (m ≫= f).
Proof.
  intros Hm Hf w e w' H. apply bind_raise_inv in H as [H | (a & w1 & _ & H)].
  - exact (Hm _ _ _ H).
  - exact (Hf _ _ _ _ H).
Qed.

Lemma fails_in_a_call_ret {A : Type} (a : A) : fails_in_a_call (mret a).
Proof. intros w e w'. discriminate. Qed.

(** After the cleanup: either its last command was the switch to the
    anchor and it worked, or its last command failed. *)
Lemma cleanup_focus (main_window : handle) (w w' : world) :
  cleanup env main_window w = (Ret tt, w') →
  (focus (chrome w') = main_window
   ∧ is_open main_window (chrome w') = true)
  ∨ (∃ o e, last_command (trace w') = Some (o, Some e)).
Proof.
  unfold cleanup. rewrite try_except_run. case_run E.
  - intros [= _ <-].
    apply bind_ret_inv in E as (hs & w1 & _ & E).
    apply bind_ret_inv in E as ([] & w2 & _ & E).
    apply switch_to_window_ret_inv in E as (Hf & Ho & _). now left.
  - assert (Hfail : fails_in_a_call
              (hs ← window_handles env;
               (if (1 <? length hs)%nat then driver_close env else mret tt);;
               switch_to_window env main_window)).
    { apply fails_in_a_call_bind;
        [now apply fails_in_a_call_syscall | intros hs].
      apply fails_in_a_call_bind;
        [| intros _; now apply fails_in_a_call_syscall].
      destruct (1 <? length hs)%nat;
        [now apply fails_in_a_call_syscall | apply fails_in_a_call_ret]. }
    apply Hfail in E as (o & tr & Hd & Htr).
    destruct e as [x | |]; cbn; try discriminate.
    intros [= <-]. right. exists o, (Err x).
    rewrite Htr, last_command_snoc. now rewrite Hd.
Qed.

(** A turn after which the loop goes on. *)
Lemma attempt_turn_focus (name phone url : string) (main_window : handle)
    (is_reply : bool) (attempt : Z) (w w' : world) :
  attempt_turn env name phone url main_window is_reply attempt w
  = (Ret None, w') →
  last_command (trace w') = Some (SwitchToWindow main_window, None) →
  focus (chrome w') = main_window ∧ is_open main_window (chrome w') = true.
Proof.
  unfold attempt_turn. rewrite try_except_run. case_run E.
  - apply bind_ret_inv in E as (b & w2 & _ & [= <- _]). discriminate.
  - destruct e as [x | |]; cbn; try discriminate.
    intros H. apply bind_ret_inv in H as ([] & w2 & H & [= <-]).
    unfold on_failure in H.
    apply bind_ret_inv in H as ([] & w3 & _ & H).
    apply bind_ret_inv in H as ([] & w4 & H & [= <-]).
    cbn [record trace chrome]. rewrite last_command_snoc.
    apply cleanup_focus in H as [H | (o & e & H)]; [auto |].
    rewrite H. discriminate.
Qed.

(** A turn that returns from the function. *)
Lemma attempt_turn_done (name phone url : string) (main_window : handle)
    (is_reply : bool) (attempt : Z) (w w' : world) (b : bool) :
  attempt_turn env name phone url main_window is_reply attempt w
  = (Ret (Some b), w') →
  b = true
  ∧ focus (chrome w') = main_window ∧ is_open main_window (chrome w') = true.
Proof.
  unfold attempt_turn. rewrite try_except_run. case_run E.
  - intros [= -> <-].
    apply bind_ret_inv in E as (b' & w2 & E & [= <- <-]).
    split; [| exact (attempt_body_focus _ _ _ _ _ _ _ _ E)].
    unfold attempt_body in E.
    do 13 (apply bind_ret_inv in E as (? & ? & _ & E)).
    now injection E.
  - destruct e as [x | |]; cbn; try discriminate.
    intros H. apply bind_ret_inv in H as ([] & w2 & _ & [=]).
Qed.

(** The loop: with no number left it only logs and beeps; otherwise it
    returns true after a switch back to the anchor, and false after a
    cleanup. *)
Lemma attempts_focus (name phone url : string) (main_window : handle)
    (is_reply : bool) (numbers : list Z) :
  ∀ (w w' : world) (b : bool),
    attempts env name phone url main_window is_reply numbers w = (Ret b, w') →
    (numbers = [] →
     b = false ∧ chrome w' = chrome w
     ∧ last_command (trace w') = last_command (trace w))
    ∧ (numbers ≠ [] →
       b = true
       ∨ last_command (trace w') = Some (SwitchToWindow main_window, None) →
       focus (chrome w') = main_window
       ∧ is_open main_window (chrome w') = true).
Proof.
  induction numbers as [| attempt rest IH]; intros w w' b; cbn [attempts].
  - intros H. split; [intros _ | done].
    apply bind_ret_inv in H as ([] & w1 & [= <-] & H).
    apply bind_ret_inv in H as ([] & w2 & H & [= <- <-]).
    apply syscall_ret_inv in H as (w3 & [= <-] & ->).
    cbn [record chrome trace]. rewrite !last_command_snoc. auto.
  - intros H. split; [done | intros _ Hlast].
    apply bind_ret_inv in H as ([b1 |] & w1 & Hturn & H).
    + injection H as <- <-.
      now apply attempt_turn_done in Hturn as (_ & ? & ?).
    + destruct (IH _ _ _ H) as [Hnil Hcons].
      destruct rest as [| n rest'].
      * destruct Hnil as (-> & Hc & Hl); [done |].
        destruct Hlast as [? | Hlast]; [done |].
        rewrite Hc. rewrite Hl in Hlast.
        exact (attempt_turn_focus _ _ _ _ _ _ _ _ Hturn Hlast).
      * now apply Hcons.
Qed.

End Focus.

Section SingleTab.
Variable env : op → nat → answer.
Hypothesis no_interrupt : uninterrupted env.
Hypothesis reliable : tabs_reliable env.

Lemma env_window_handles (i : nat) : env WindowHandles i = Proceed.
Proof. apply reliable. Qed.
Lemma env_close (i : nat) : env Close i = Proceed.
Proof. apply reliable. Qed.
Lemma env_switch (h : handle) (i : nat) : env (SwitchToWindow h) i = Proceed.
Proof. apply reliable. Qed.
Lemma env_current (i : nat) : env CurrentWindowHandle i = Proceed.
Proof. apply reliable. Qed.

Ltac run :=
  repeat first
    [ progress cbn
    | rewrite env_window_handles
    | rewrite env_close
    | rewrite env_switch
    | rewrite Nat.eqb_refl
    | match goal with
      | H : (?a =? ?b)%nat = false |- context [(?a =? ?b)%nat] => rewrite H
      end
    | match goal with
      | |- context [match env ?o ?n with _ => _ end] =>
          let E := fresh "E" in
          destruct (env o n) eqn:E; [| | exfalso; exact (no_interrupt _ _ E)]
      end ].

Lemma attempt_turn_single_tab (a : handle) (name phone url : string)
    (is_reply : bool) (attempt : Z) (w : world) :
  only_window a (chrome w) → (a < fresh (chrome w))%nat →
  ∃ r w', attempt_turn env name phone url a is_reply attempt w = (Ret r, w')
          ∧ only_window a (chrome w') ∧ (a < fresh (chrome w'))%nat.
Proof.
  destruct w as [[hs fo fr] tr date time files]. unfold only_window. cbn.
  intros [-> ->] Hfr.
  assert (Hne : (fr =? a)%nat = false) by (apply Nat.eqb_neq; lia).
  assert (Hne' : (a =? fr)%nat = false) by (apply Nat.eqb_neq; lia).
  unfold attempt_turn, attempt_body, on_failure, cleanup, try_except,
    execute_script, window_handles, switch_to_window, until_input_box,
    send_keys_ENTER, until_send_button, click, beep_success, driver_close,
    call, syscall, in_window, is_open, log, sleep, lift, last_item,
    mbind, M_bind, mret, M_ret, select, except_Exception.
  run.
  all: try (eexists _, _; split; [reflexivity | cbn; split; [done | lia]]).
  all: destruct is_reply; cbn.
  all: try (eexists _, _; split; [reflexivity | cbn; split; [done | lia]]).
Qed.

End SingleTab.

Section Batch.
Variable env : op → nat → answer.
Hypothesis no_interrupt : uninterrupted env.
Hypothesis reliable : tabs_reliable env.
Hypothesis beeps : ∀ i, env (Beep 400 400) i = Proceed.

Lemma attempts_single_tab (a : handle) (name phone url : string)
    (is_reply : bool) (numbers : list Z) :
  ∀ w, only_window a (chrome w) → (a < fresh (chrome w))%nat →
       ∃ b w', attempts env name phone url a is_reply numbers w = (Ret b, w')
               ∧ only_window a (chrome w') ∧ (a < fresh (chrome w'))%nat.
Proof.
  induction numbers as [| attempt rest IH]; intros w Ha Hf; cbn [attempts].
  - rewrite bind_run, log_run, bind_run. unfold beep_fail.
    rewrite call_proceeds by apply beeps. eauto.
  - destruct (attempt_turn_single_tab env no_interrupt reliable a name phone
                url is_reply attempt w Ha Hf) as (r & w1 & E & Ha1 & Hf1).
    rewrite bind_run, E. destruct r as [b |]; [eauto | now apply IH].
Qed.

(** The window-count and focus invariant: entered with the anchor as the
    only window, [send_whatsapp_message] returns, and the anchor is again
    the only window and has the focus. *)
Lemma send_single_tab (a : handle) (name phone raw_message : string)
    (retry_limit : Z) (is_reply : bool) (w : world) :
  only_window a (chrome w) → (a < fresh (chrome w))%nat →
  ∃ b w',
    send_whatsapp_message env name phone raw_message retry_limit is_reply w
    = (Ret b, w')
    ∧ only_window a (chrome w') ∧ (a < fresh (chrome w'))%nat.
Proof.
  intros Ha Hf. pose proof Ha as [Hh Hfo].
  destruct (send_enters_loop env name phone raw_message retry_limit is_reply w)
    as [url ->].
  - apply reliable.
  - unfold is_open. rewrite Hh, Hfo. cbn. now rewrite Nat.eqb_refl.
  - rewrite Hfo. now apply attempts_single_tab.
Qed.

Lemma send_all_single_tab (a : handle) (contacts : list contact) :
  ∀ (count : Z) (w : world),
    only_window a (chrome w) → (a < fresh (chrome w))%nat →
    ∃ count' w',
      send_all env contacts count w = (Ret count', w')
      ∧ (count ≤ count' ≤ count + Z.of_nat (length contacts))%Z
      ∧ only_window a (chrome w').
Proof.
  induction contacts as [| c rest IH]; intros count w Ha Hf; cbn [send_all].
  - exists count, w. cbn. split; [reflexivity | split; [lia | done]].
  - destruct (send_single_tab a (name c) (phone c) (message c) RETRY_LIMIT
                false w Ha Hf) as (b & w1 & E & Ha1 & Hf1).
    rewrite bind_run, E.
    destruct (IH (if b then (count + 1)%Z else count) w1 Ha1 Hf1)
      as (count' & w' & E' & Hc & Ha').
    exists count', w'. split; [exact E' | split; [| exact Ha']].
    cbn [length]. destruct b; lia.
Qed.

End Batch.

(** ** Loading the contacts *)

Section Loading.
Variable env : op → nat → answer.

Lemma accepted_contact_strings (r : row) (pv nv mv : string) :
  row_get r "Phone" = Some pv → row_get r "Name" = Some nv →
  row_get r "Message" = Some mv →
  accepted_contact r
  = if Spec.phone_accepted (Py.strip pv)
    then Some {| name := Py.strip nv;
                 phone := Spec.cleaned (Py.strip pv);
                 message := Py.strip mv |}
    else None.
Proof. intros HP HN HM. unfold accepted_contact. now rewrite HP, HN, HM. Qed.

(** Rows of strings never stop the loop: each is appended or skipped. *)
Lemma read_rows_strings (rows : list row) :
  Forall string_cells rows → (∀ i, env NextRow i = Proceed) →
  ∀ contacts w,
    ∃ w', read_rows env rows contacts w
          = (Ret (contacts ++ accepted_contacts rows), w')
          ∧ chrome w' = chrome w.
Proof.
  intros Hrows Hnext. induction Hrows as [| r rows Hr _ IH];
    intros contacts w; cbn [read_rows].
  - exists w. unfold accepted_contacts. cbn. now rewrite app_nil_r.
  - destruct Hr as (pv & nv & mv & HP & HN & HM).
    rewrite bind_run, call_proceeds by apply Hnext.
    rewrite bind_run, (read_row_strings r pv nv mv _ _ HP HN HM).
    unfold accepted_contacts. cbn [omap list_omap].
    rewrite (accepted_contact_strings r pv nv mv HP HN HM).
    destruct (Spec.phone_accepted (Py.strip pv)).
    + destruct (IH (contacts ++ [{| name := Py.strip nv;
                                    phone := Spec.cleaned (Py.strip pv);
                                    message := Py.strip mv |}])
                   (record (Call NextRow None) w)) as (w' & -> & Hc).
      exists w'. rewrite <- app_assoc. auto.
    + destruct (IH contacts
                   (record (Log (InvalidPhone (Py.strip pv)) "yellow")
                      (record (Call NextRow None) w))) as (w' & -> & Hc).
      exists w'. auto.
Qed.

Lemma open_csv_proceeds (path : string) (rows : list row) (w : world) :
  env (OpenCsv path) (calls (OpenCsv path) (trace w)) = Proceed →
  disk w !! path = Some rows →
  open_csv env path w = (Ret rows, record (Call (OpenCsv path) None) w).
Proof. intros He Hd. unfold open_csv, syscall. now rewrite He, Hd. Qed.

Lemma load_contacts_strings (path : string) (rows : list row) (w : world) :
  env (OpenCsv path) (calls (OpenCsv path) (trace w)) = Proceed →
  disk w !! path = Some rows →
  Forall string_cells rows → (∀ i, env NextRow i = Proceed) →
  ∃ w', load_contacts_from_csv env path w = (Ret (accepted_contacts rows), w')
        ∧ chrome w' = chrome w.
Proof.
  intros He Hd Hrows Hnext. unfold load_contacts_from_csv.
  rewrite bind_run, try_except_run, bind_run, (open_csv_proceeds _ _ _ He Hd).
  destruct (read_rows_strings rows Hrows Hnext []
              (record (Call (OpenCsv path) None) w)) as (w' & -> & Hc).
  cbn [app]. destruct (accepted_contacts rows); eexists; split;
    try reflexivity; exact Hc.
Qed.

(** A file that cannot be opened: the error is logged and raised again. *)
Lemma load_contacts_unopened (path : string) (w : world) (e : error) :
  env (OpenCsv path) (calls (OpenCsv path) (trace w)) = Fault e
  ∨ (env (OpenCsv path) (calls (OpenCsv path) (trace w)) = Proceed
     ∧ disk w !! path = None ∧ e = OSError) →
  load_contacts_from_csv env path w
  = (Raise (Err e),
     record (Log (CsvError path e) "red")
       (record (Call (OpenCsv path) (Some (Err e))) w)).
Proof.
  intros H. unfold load_contacts_from_csv.
  rewrite bind_run, try_except_run, bind_run.
  unfold open_csv, syscall.
  destruct H as [-> | (-> & -> & ->)]; reflexivity.
Qed.

(** An error while a row is read: the same. *)
Lemma load_contacts_unread (path : string) (rows : list row) (w : world)
    (e : error) :
  env (OpenCsv path) (calls (OpenCsv path) (trace w)) = Proceed →
  disk w !! path = Some rows → rows ≠ [] →
  env NextRow (calls NextRow (trace w)) = Fault e →
  load_contacts_from_csv env path w
  = (Raise (Err e),
     record (Log (CsvError path e) "red")
       (record (Call NextRow (Some (Err e)))
          (record (Call (OpenCsv path) None) w))).
Proof.
  intros He Hd Hrows Hn. unfold load_contacts_from_csv.
  rewrite bind_run, try_except_run, bind_run, (open_csv_proceeds _ _ _ He Hd).
  destruct rows as [| r rest]; [done |]. cbn [read_rows].
  rewrite bind_run. unfold call, syscall.
  rewrite calls_record. cbn [is_call].
  replace (bool_decide (OpenCsv path = NextRow)) with false by reflexivity.
  rewrite Nat.add_0_r, Hn. reflexivity.
Qed.

End Loading.

(** ** The main workflow *)

Lemma configure_chrome_options_returns (dir : string) :
  ∃ o, configure_chrome_options dir = Ret o.
Proof. eexists. vm_compute. reflexivity. Qed.

Section Main.
Variable env : op → nat → answer.
Variables dir date time : string.
Variable files : gmap string (list row).

Lemma main_offline (e : error) :
  env UrlOpen 0 = Fault e →
  main_bulk_send env dir (initial_world date time files)
  = (Raise (SystemExit 1),
     record (Log (NetworkError e) "red")
       (record (Call UrlOpen (Some (Err e)))
          (initial_world date time files))).
Proof.
  intros H. unfold main_bulk_send, check_internet_connection.
  rewrite bind_run, try_except_run, bind_run. unfold call, syscall.
  change (calls UrlOpen (trace (initial_world date time files))) with 0.
  rewrite H. reflexivity.
Qed.

Lemma main_started :
  env UrlOpen 0 = Proceed → launches env →
  main_bulk_send env dir (initial_world date time files)
  = guarded (workflow env) (started date time files).
Proof.
  intros H (H1 & H2 & H3 & H4 & _).
  unfold main_bulk_send, check_internet_connection.
  rewrite bind_run, try_except_run, bind_run, call_proceeds by exact H.
  cbn [mret M_ret negb]. rewrite bind_run.
  unfold initialize_driver.
  destruct (configure_chrome_options_returns dir) as [o ->].
  rewrite bind_run. unfold lift. rewrite bind_run.
  unfold webdriver_Chrome, syscall.
  change (env ChromeNew _) with (env ChromeNew 0). rewrite H1.
  rewrite bind_run, call_proceeds by exact H2.
  rewrite bind_run, call_proceeds by exact H3.
  rewrite call_proceeds by exact H4.
  reflexivity.
Qed.

Lemma syscall_proceeds {A : Type} (o : op) (act : world → error + (A * world))
    (w w1 : world) (a : A) :
  env o (calls o (trace w)) = Proceed → act w = inr (a, w1) →
  syscall env o act w = (Ret a, record (Call o None) w1).
Proof. intros He Ha. unfold syscall. now rewrite He, Ha. Qed.

Lemma syscall_faults {A : Type} (o : op) (act : world → error + (A * world))
    (w : world) (e : error) :
  env o (calls o (trace w)) = Fault e →
  syscall env o act w = (Raise (Err e), record (Call o (Some (Err e))) w).
Proof. intros He. unfold syscall. now rewrite He. Qed.

(** The world in which the contacts are loaded, when the login is
    achieved. *)
Lemma workflow_logged_in :
  launches env → login_achieved env →
  ∃ w1,
    workflow env (started date time files)
    = (contacts ← load_contacts_from_csv env CSV_FILE;
       match contacts with
       | [] => mret tt
       | _ :: _ =>
           let total := Z.of_nat (length contacts) in
           log (Starting total) "magenta";;
           success_count ← send_all env contacts 0%Z;
           log (Summary success_count total)
             (if (success_count =? total)%Z then "bold green"
              else "bold yellow")
       end) w1
    ∧ chrome w1 = {| handles := [0]; focus := 0; fresh := 1 |}
    ∧ disk w1 = files
    ∧ calls (OpenCsv CSV_FILE) (trace w1) = 0.
Proof.
  intros (_ & _ & _ & _ & HGet) Hlogin. unfold workflow.
  rewrite bind_run. unfold driver_get.
  rewrite (syscall_proceeds Get _ _ (started date time files) tt)
    by (exact HGet || reflexivity).
  rewrite bind_run. unfold wait_for_whatsapp_login, until_chat_list.
  rewrite try_except_run, bind_run.
  destruct Hlogin as [H0 | (H0 & HI & H1)].
  - rewrite (syscall_proceeds (UntilChatList 30) _ _
               (record (Call Get None) (started date time files)) tt)
      by (exact H0 || reflexivity).
    cbn [mret M_ret negb]. rewrite bind_run.
    eexists. split; [reflexivity |]. repeat split.
  - rewrite syscall_faults with (e := TimeoutException) by exact H0.
    cbn [select except_TimeoutException mret M_ret negb].
    rewrite bind_run. unfold prompt_qr_scan.
    rewrite bind_run, log_run, bind_run, call_proceeds by exact HI.
    rewrite bind_run. unfold wait_for_whatsapp_login, until_chat_list.
    rewrite try_except_run, bind_run.
    match goal with
    | |- context [syscall env (UntilChatList 30) ?act ?w] =>
        rewrite (syscall_proceeds (UntilChatList 30) act w w tt)
          by (exact H1 || reflexivity)
    end.
    cbn [mret M_ret negb]. rewrite bind_run.
    eexists. split; [reflexivity |]. repeat split.
Qed.

(** Both probes time out: the workflow ends in [SystemExit], after a
    first [quit]. *)
Lemma workflow_login_failure :
  launches env → login_never env →
  ∃ w1,
    workflow env (started date time files) = (Raise (SystemExit 1), w1)
    ∧ trace w1
      = trace (started date time files)
        ++ [Call Get None;
            Call (UntilChatList 30) (Some (Err TimeoutException));
            Log ScanQR "cyan"; Call Input None;
            Call (UntilChatList 30) (Some (Err TimeoutException));
            Log LoginFailed "red"; Call Quit None].
Proof.
  intros (_ & _ & _ & _ & HGet) (H0 & HI & H1). unfold workflow.
  rewrite bind_run. unfold driver_get.
  rewrite (syscall_proceeds Get _ _ (started date time files) tt)
    by (exact HGet || reflexivity).
  rewrite bind_run. unfold wait_for_whatsapp_login, until_chat_list.
  rewrite try_except_run, bind_run.
  rewrite syscall_faults with (e := TimeoutException) by exact H0.
  cbn [select except_TimeoutException mret M_ret negb].
  rewrite bind_run. unfold prompt_qr_scan.
  rewrite bind_run, log_run, bind_run, call_proceeds by exact HI.
  rewrite bind_run. unfold wait_for_whatsapp_login, until_chat_list.
  rewrite try_except_run, bind_run.
  rewrite syscall_faults with (e := TimeoutException) by exact H1.
  cbn [select except_TimeoutException mret M_ret negb].
  eexists. split; reflexivity.
Qed.

(** What the [try] statement of [main_bulk_send] makes of its body. *)
Lemma guarded_ret (body : M unit) (w w' : world) :
  body w = (Ret tt, w') →
  ∃ w'', guarded body w = (Ret tt, w'')
         ∧ trace w'' = trace w' ++ [Log Quitting "blue"; Call Quit None].
Proof.
  intros H. unfold guarded, try_finally. rewrite try_except_run, H.
  eexists. split; [reflexivity |]. cbn. now rewrite <- app_assoc.
Qed.

Lemma guarded_exit (body : M unit) (w w' : world) (code : Z) :
  body w = (Raise (SystemExit code), w') →
  ∃ w'', guarded body w = (Raise (SystemExit code), w'')
         ∧ trace w'' = trace w' ++ [Log Quitting "blue"; Call Quit None].
Proof.
  intros H. unfold guarded, try_finally. rewrite try_except_run, H.
  eexists. split; [reflexivity |]. cbn. now rewrite <- app_assoc.
Qed.

Lemma guarded_error (body : M unit) (w w' : world) (e : error) :
  body w = (Raise (Err e), w') →
  ∃ w'', guarded body w = (Raise (Err e), w'')
         ∧ trace w'' = trace w' ++ [Log (Unexpected e) "red";
                                    Log Quitting "blue"; Call Quit None].
Proof.
  intros H. unfold guarded, try_finally. rewrite try_except_run, H.
  eexists. split; [reflexivity |]. cbn. now rewrite <- !app_assoc.
Qed.

Lemma guarded_interrupt (body : M unit) (w w' : world) :
  body w = (Raise KeyboardInterrupt, w') →
  ∃ w'', guarded body w = (Ret tt, w'')
         ∧ trace w'' = trace w' ++ [Log Interrupted "yellow";
                                    Log Quitting "blue"; Call Quit None].
Proof.
  intros H. unfold guarded, try_finally. rewrite try_except_run, H.
  eexists. split; [reflexivity |]. cbn. now rewrite <- !app_assoc.
Qed.

End Main.

(** ** The exit status of the process *)


Lemma all_proceed_uninterrupted : uninterrupted Scenario.all_proceed.
Proof. intros o i. discriminate. Qed.

Lemma third_contact_fails_uninterrupted :
  uninterrupted Scenario.third_contact_fails.
Proof.
  intros o i. unfold Scenario.third_contact_fails.
  destruct o; try discriminate. destruct (2 <=? i)%nat; discriminate.
Qed.

Lemma no_input_box_uninterrupted : uninterrupted Scenario.no_input_box.
Proof. intros o i. unfold Scenario.no_input_box. destruct o; discriminate. Qed.

Lemma four_rows_of_strings :
  Forall string_cells
    [Scenario.ana; Scenario.bob; Scenario.bad; Scenario.cyd].
Proof.
  repeat constructor; eexists _, _, _; repeat split; reflexivity.
Qed.



(** The scenario of the specification: three valid contacts and one
    invalid row; the first two are sent at the first attempt, the third
    fails both attempts.  The summary is 2 of 3 and the exit status 0. *)
Example two_of_three :
  let run := main_bulk_send Scenario.third_contact_fails Scenario.session_dir
               (Scenario.at_start
                  [Scenario.ana; Scenario.bob; Scenario.bad; Scenario.cyd]) in
  exit_status (fst run) = 0%Z
  ∧ Log (Summary 2 3) "bold yellow" ∈ trace (snd run)
  ∧ attempts_made (trace (snd run)) = 4
  ∧ calls Quit (trace (snd run)) = 1.
Proof.
  cbv zeta. split; [vm_compute; reflexivity |].
  split; [| split; vm_compute; reflexivity].
  compute_done.
Qed.

(** ** [send_whatsapp_message]: failures become a boolean *)



(** ** [send_whatsapp_message]: the focus on return *)




(** ** Counting events *)

Section Counting.
Variable p : event → bool.

Lemma tally_snoc (tr : list event) (ev : event) :
  tally p (tr ++ [ev]) = (tally p tr + (if p ev then 1 else 0))%nat.
Proof.
  unfold tally. rewrite List.filter_app, length_app. cbn.
  now destruct (p ev).
Qed.

Lemma adds_ret {A : Type} (a : A) : adds p 0 (mret a).
Proof. intros w r w' [= _ <-]. lia. Qed.

Lemma adds_raise {A : Type} (e : exn) : adds p 0 (raise e : M A).
Proof. intros w r w' [= _ <-]. lia. Qed.

Lemma adds_lift {A : Type} (x : result A) : adds p 0 (lift x).
Proof. intros w r w' [= _ <-]. lia. Qed.

Lemma adds_log (line : message_line) (style : string) :
  adds p (if p (Log line style) then 1 else 0) (log line style).
Proof. intros w r w' [= _ <-]. apply tally_snoc. Qed.

Lemma adds_sleep (d : delay) :
  adds p (if p (Sleep d) then 1 else 0) (sleep d).
Proof. intros w r w' [= _ <-]. apply tally_snoc. Qed.

Lemma adds_bind {A B : Type} (n : nat) (m : M A) (f : A → M B) :
  adds p n m → (∀ a, adds p 0 (f a)) → adds p n (m ≫= f).
Proof.
  intros Hm Hf w r w'. rewrite bind_run.
  destruct (m w) as [[a | e] w1] eqn:E; specialize (Hm _ _ _ E).
  - intros H. apply Hf in H. lia.
  - now intros [= _ <-].
Qed.

Lemma adds_if {A : Type} (n : nat) (b : bool) (m1 m2 : M A) :
  adds p n m1 → adds p n m2 → adds p n (if b then m1 else m2).
Proof. now destruct b. Qed.

Lemma adds_try_except {A : Type} (n : nat) (body : M A) (cs : list (clause A)) :
  adds p n body → (∀ e h, select cs e = Some h → adds p 0 h) →
  adds p n (try_except body cs).
Proof.
  intros Hb Hh w r w'. rewrite try_except_run.
  destruct (body w) as [[a | e] w1] eqn:E; specialize (Hb _ _ _ E).
  - now intros [= _ <-].
  - destruct (select cs e) as [h |] eqn:Es.
    + intros H. apply (Hh _ _ Es) in H. lia.
    + now intros [= _ <-].
Qed.

Lemma select_Exception {A : Type} (handler : error → M A) (e : exn) (h : M A) :
  select [except_Exception handler] e = Some h → ∃ x, h = handler x.
Proof. destruct e; cbn; [intros [= <-]; eauto | discriminate ..]. Qed.

Lemma adds_try_Exception {A : Type} (n : nat) (body : M A)
    (handler : error → M A) :
  adds p n body → (∀ x, adds p 0 (handler x)) →
  adds p n (try_except body [except_Exception handler]).
Proof.
  intros Hb Hh. apply adds_try_except; [exact Hb |].
  intros e h Hs. apply select_Exception in Hs as [x ->]. apply Hh.
Qed.

Variable env : op → nat → answer.

(** A call adds its own event, whatever its outcome. *)
Lemma adds_syscall {A : Type} (o : op) (act : world → error + (A * world))
    (c : bool) :
  (∀ r, p (Call o r) = c) →
  (∀ w a w1, act w = inr (a, w1) → trace w1 = trace w) →
  adds p (if c then 1 else 0) (syscall env o act).
Proof.
  intros Hp Hact w r w'. unfold syscall.
  destruct (env o _).
  - destruct (act w) as [x | [a w1]] eqn:E; intros [= _ <-]; cbn [record trace];
      rewrite tally_snoc, Hp; [reflexivity |].
    now rewrite (Hact _ _ _ E).
  - intros [= _ <-]. cbn [record trace]. now rewrite tally_snoc, Hp.
  - intros [= _ <-]. cbn [record trace]. now rewrite tally_snoc, Hp.
Qed.

Lemma in_window_trace {A : Type} (f : browser → A * browser) (w : world)
    (a : A) (w1 : world) :
  in_window f w = inr (a, w1) → trace w1 = trace w.
Proof.
  unfold in_window. destruct (is_open _ _); [| discriminate].
  destruct (f (chrome w)) as [a' b]. now intros [= _ <-].
Qed.

End Counting.

Ltac count_tac :=
  repeat first
    [ apply adds_ret | apply adds_raise | apply adds_lift
    | exact (adds_log _ _ _) | exact (adds_sleep _ _)
    | apply adds_if
    | apply adds_try_Exception; [| intros ?]
    | apply (adds_syscall _ _ _ _ false);
      [ reflexivity
      | first [ apply in_window_trace
              | intros ? ? ? [= _ <-]; reflexivity
              | intros ? ? ? ] ]
    | apply adds_bind; [| intros ?] ].

(** ** Counting attempts *)

Section Attempts.
Variable env : op → nat → answer.

Lemma attempt_body_attempts (name phone url : string) (main_window : handle)
    (is_reply : bool) :
  adds is_attempt 1 (attempt_body env name phone url main_window is_reply).
Proof.
  unfold attempt_body, execute_script, window_handles, switch_to_window,
    until_input_box, send_keys_ENTER, until_send_button, click, beep_success,
    driver_close, call.
  apply adds_bind.
  - apply (adds_syscall _ _ _ _ true); [reflexivity | apply in_window_trace].
  - intros _. count_tac.
    all: destruct (is_open _ _); [intros [= _ <-] | discriminate]; reflexivity.
Qed.

Lemma attempt_turn_attempts (name phone url : string) (main_window : handle)
    (is_reply : bool) (attempt : Z) :
  adds is_attempt 1
    (attempt_turn env name phone url main_window is_reply attempt).
Proof.
  unfold attempt_turn.
  apply adds_try_Exception.
  - apply adds_bind; [apply attempt_body_attempts | intros b; apply adds_ret].
  - intros x. unfold on_failure, cleanup, window_handles, driver_close,
      switch_to_window.
    count_tac.
    all: destruct (is_open _ _); [intros [= _ <-] | discriminate]; reflexivity.
Qed.

Lemma attempts_attempts (name phone url : string) (main_window : handle)
    (is_reply : bool) (numbers : list Z) :
  ∀ w r w',
    attempts env name phone url main_window is_reply numbers w = (r, w') →
    (attempts_made (trace w') ≤ attempts_made (trace w) + length numbers)%nat
    ∧ (r = Ret false →
       attempts_made (trace w')
       = (attempts_made (trace w) + length numbers)%nat)
    ∧ (r = Ret true →
       (attempts_made (trace w) < attempts_made (trace w'))%nat).
Proof.
  induction numbers as [| attempt rest IH]; intros w r w'; cbn [attempts].
  - intros H.
    assert (Hadd : adds is_attempt 0
              (log (FailedToSend phone) "red";; beep_fail env;; mret false)).
    { unfold beep_fail, call. count_tac. }
    pose proof (Hadd _ _ _ H) as Hc. unfold tally in Hc.
    fold (attempts_made (trace w')) in Hc. fold (attempts_made (trace w)) in Hc.
    cbn [length]. split; [lia | split; [lia |]].
    intros ->.
    apply bind_ret_inv in H as (? & ? & _ & H).
    apply bind_ret_inv in H as (? & ? & _ & H). discriminate.
  - rewrite bind_run.
    destruct (attempt_turn env name phone url main_window is_reply attempt w)
      as [[[b |] | e] w1] eqn:E;
      pose proof (attempt_turn_attempts _ _ _ _ _ _ _ _ _ E) as Hc;
      unfold tally in Hc;
      fold (attempts_made (trace w1)) in Hc;
      fold (attempts_made (trace w)) in Hc; cbn [length].
    + intros [= <- <-].
      apply attempt_turn_done in E as (-> & _).
      split; [lia | split; [discriminate | lia]].
    + intros H. destruct (IH _ _ _ H) as (Hle & Hfalse & Htrue).
      split; [lia | split].
      * intros Hr. specialize (Hfalse Hr). lia.
      * intros Hr. specialize (Htrue Hr). lia.
    + intros [= <- <-]. split; [lia | split; discriminate].
Qed.

Lemma range_length (lo hi : Z) : length (range lo hi) = Z.to_nat (hi - lo).
Proof. unfold range. now rewrite length_map, length_seq. Qed.

(** X1: [send_whatsapp_message] makes at most [retry_limit] attempts; it
    returns false only after making them all, and true only after making
    one at least. *)
Theorem send_attempts_bounded (name phone raw_message : string)
    (retry_limit : Z) (is_reply : bool) (w : world) :
  let run := send_whatsapp_message env name phone raw_message retry_limit
               is_reply w in
  (attempts_made (trace (snd run))
   ≤ attempts_made (trace w) + Z.to_nat retry_limit)%nat
  ∧ (fst run = Ret false →
     attempts_made (trace (snd run))
     = (attempts_made (trace w) + Z.to_nat retry_limit)%nat)
  ∧ (fst run = Ret true →
     (attempts_made (trace w) < attempts_made (trace (snd run)))%nat).
Proof.
  cbv zeta. unfold send_whatsapp_message. rewrite bind_run.
  set (rendered := (if negb is_reply
                    then render_message_template raw_message name phone
                    else mret raw_message) w).
  assert (Hw : snd rendered = w).
  { unfold rendered. now destruct is_reply. }
  destruct rendered as [[msg | e] w0]; cbn [snd] in Hw; subst w0;
    [| cbn [fst snd]; split; [lia | split; discriminate]].
  rewrite bind_run.
  destruct (current_window_handle env w) as [[mw | e] w1] eqn:Ec.
  - assert (Hc : attempts_made (trace w1) = attempts_made (trace w)).
    { assert (Hadd : adds is_attempt 0 (current_window_handle env))
        by (apply (adds_syscall _ _ _ _ false);
            [reflexivity | apply in_window_trace]).
      pose proof (Hadd _ _ _ Ec) as Hc. unfold tally in Hc.
      unfold attempts_made. lia. }
    destruct (attempts env name phone _ mw is_reply
                (range 1 (retry_limit + 1)) w1) as [r w'] eqn:E.
    apply attempts_attempts in E. rewrite range_length in E.
    replace (Z.to_nat (retry_limit + 1 - 1)) with (Z.to_nat retry_limit) in E
      by lia.
    cbn [fst snd]. rewrite <- Hc. exact E.
  - assert (Hc : attempts_made (trace w1) = attempts_made (trace w)).
    { assert (Hadd : adds is_attempt 0 (current_window_handle env))
        by (apply (adds_syscall _ _ _ _ false);
            [reflexivity | apply in_window_trace]).
      pose proof (Hadd _ _ _ Ec) as Hc. unfold tally in Hc.
      unfold attempts_made. lia. }
    cbn [fst snd]. split; [lia | split; discriminate].
Qed.

End Attempts.

(** ** Counting the calls of [quit] *)

Section Quits.
Variable env : op → nat → answer.

Lemma select_Timeout {A : Type} (handler : M A) (e : exn) (h : M A) :
  select [except_TimeoutException handler] e = Some h → h = handler.
Proof.
  destruct e as [[] | |]; cbn; try discriminate. now intros [= <-].
Qed.

Lemma wait_for_whatsapp_login_keeps (timeout : Z) :
  adds (is_call Quit) 0 (wait_for_whatsapp_login env timeout).
Proof.
  unfold wait_for_whatsapp_login, until_chat_list.
  apply adds_try_except.
  - count_tac.
  - intros e h Hs. apply select_Timeout in Hs as ->. apply adds_ret.
Qed.

Lemma read_rows_keeps (rows : list row) :
  ∀ contacts, adds (is_call Quit) 0 (read_rows env rows contacts).
Proof.
  induction rows as [| r rest IH]; intros contacts; cbn [read_rows].
  - apply adds_ret.
  - unfold call, read_row, strip_value.
    apply adds_bind; [count_tac | intros _].
    apply adds_bind; [| intros ?; apply IH].
    destruct (row_get r "Phone"), (row_get r "Name"), (row_get r "Message");
      count_tac.
Qed.

Lemma load_contacts_from_csv_keeps (path : string) :
  adds (is_call Quit) 0 (load_contacts_from_csv env path).
Proof.
  unfold load_contacts_from_csv, open_csv.
  apply adds_bind.
  - apply adds_try_Exception; [| intros x; count_tac].
    apply adds_bind; [count_tac | intros rows; apply read_rows_keeps].
    destruct (disk _ !! path); [intros [= _ <-] | discriminate]; reflexivity.
  - intros [| c cs]; count_tac.
Qed.

Lemma attempts_keeps (name phone url : string) (main_window : handle)
    (is_reply : bool) (numbers : list Z) :
  adds (is_call Quit) 0 (attempts env name phone url main_window is_reply numbers).
Proof.
  induction numbers as [| attempt rest IH]; cbn [attempts].
  - unfold beep_fail, call. count_tac.
  - apply adds_bind; [| intros [b |]; [apply adds_ret | exact IH]].
    unfold attempt_turn, attempt_body, on_failure, cleanup, execute_script,
      window_handles, switch_to_window, until_input_box, send_keys_ENTER,
      until_send_button, click, beep_success, driver_close, call.
    count_tac.
    all: destruct (is_open _ _); [intros [= _ <-] | discriminate]; reflexivity.
Qed.

Lemma send_whatsapp_message_keeps (name phone raw_message : string)
    (retry_limit : Z) (is_reply : bool) :
  adds (is_call Quit) 0 (send_whatsapp_message env name phone raw_message retry_limit is_reply).
Proof.
  unfold send_whatsapp_message.
  apply adds_bind.
  - destruct is_reply; cbn [negb]; [apply adds_ret |].
    intros w r w' [= _ <-]. lia.
  - intros msg. apply adds_bind; [| intros mw; apply attempts_keeps].
    unfold current_window_handle. count_tac.
Qed.

Lemma send_all_keeps (contacts : list contact) :
  ∀ count, adds (is_call Quit) 0 (send_all env contacts count).
Proof.
  induction contacts as [| c rest IH]; intros count; cbn [send_all].
  - apply adds_ret.
  - apply adds_bind; [apply send_whatsapp_message_keeps | intros b; apply IH].
Qed.

Lemma keeps_quits_to_exit {A : Type} (m : M A) :
  adds (is_call Quit) 0 m → quits_to_exit m.
Proof.
  intros H w r w' E. left. specialize (H _ _ _ E). unfold tally in H.
  unfold calls. lia.
Qed.

Lemma quits_to_exit_bind {A B : Type} (m : M A) (f : A → M B) :
  quits_to_exit m → (∀ a, quits_to_exit (f a)) → quits_to_exit (m ≫= f).
Proof.
  intros Hm Hf w r w'. rewrite bind_run.
  destruct (m w) as [[a | e] w1] eqn:E; specialize (Hm _ _ _ E).
  - destruct Hm as [Hm | [_ ?]]; [| discriminate].
    intros H. apply Hf in H. now rewrite Hm in H.
  - intros [= <- <-]. destruct Hm as [Hm | [Hm [= ->]]]; auto.
Qed.

Lemma calls_Quit_finally (tr : list event) (pre : list event) :
  Forall (λ ev, is_call Quit ev = false) pre →
  calls Quit (tr ++ pre ++ [Call Quit None]) = S (calls Quit tr).
Proof.
  intros Hpre. unfold calls. rewrite !List.filter_app, !length_app.
  change (List.filter (is_call Quit) [Call Quit None])
    with [Call Quit None].
  replace (List.filter (is_call Quit) pre) with (@nil event); [cbn; lia |].
  induction Hpre as [| ev pre Hev _ IH]; [reflexivity |].
  cbn. now rewrite Hev.
Qed.

Lemma prompt_qr_scan_quits : quits_to_exit (prompt_qr_scan env).
Proof.
  unfold prompt_qr_scan.
  apply quits_to_exit_bind; [apply keeps_quits_to_exit; count_tac | intros _].
  apply quits_to_exit_bind;
    [apply keeps_quits_to_exit; unfold call; count_tac | intros _].
  apply quits_to_exit_bind;
    [apply keeps_quits_to_exit, wait_for_whatsapp_login_keeps |].
  intros [|]; cbn [negb]; [apply keeps_quits_to_exit, adds_ret |].
  intros w r w' [= <- <-]. right. cbn [record trace set_chrome].
  rewrite <- app_assoc.
  rewrite (calls_Quit_finally _ [Log LoginFailed "red"])
    by now repeat constructor.
  split; reflexivity.
Qed.

Lemma workflow_quits : quits_to_exit (workflow env).
Proof.
  unfold workflow.
  apply quits_to_exit_bind;
    [apply keeps_quits_to_exit; unfold driver_get; count_tac | intros _].
  apply quits_to_exit_bind;
    [apply keeps_quits_to_exit, wait_for_whatsapp_login_keeps |].
  intros logged_in.
  apply quits_to_exit_bind; [| intros _].
  { destruct logged_in; cbn [negb];
      [apply keeps_quits_to_exit, adds_ret | apply prompt_qr_scan_quits]. }
  apply quits_to_exit_bind;
    [apply keeps_quits_to_exit, load_contacts_from_csv_keeps |].
  intros [| c cs]; apply keeps_quits_to_exit; [apply adds_ret |].
  cbv zeta. apply adds_bind; [count_tac | intros _].
  apply adds_bind; [apply send_all_keeps | intros count].
  destruct (count =? _)%Z; count_tac.
Qed.

(** X4: once the browser runs, every way out of [main_bulk_send] calls
    [driver.quit()]: once, or twice when the process ends in the
    [SystemExit] of a failed login. *)
Theorem quit_once_or_twice (dir date time : string)
    (files : gmap string (list row)) :
  env UrlOpen 0 = Proceed → launches env →
  let run := main_bulk_send env dir (initial_world date time files) in
  calls Quit (trace (snd run)) = 1
  ∨ (calls Quit (trace (snd run)) = 2 ∧ fst run = Raise (SystemExit 1)).
Proof.
  intros H Hl. cbv zeta.
  rewrite (main_started env dir date time files H Hl).
  destruct (workflow env (started date time files)) as [r1 w1] eqn:E.
  pose proof (workflow_quits _ _ _ E) as Hq.
  change (calls Quit (trace (started date time files))) with 0 in Hq.
  destruct r1 as [[] | [e | | code]].
  - destruct (guarded_ret _ _ _ E) as (w2 & -> & Htr).
    destruct Hq as [Hq | [_ ?]]; [| discriminate]. left. cbn [snd].
    rewrite Htr.
    rewrite (calls_Quit_finally _ [Log Quitting "blue"]), Hq;
      [reflexivity | now repeat constructor].
  - destruct (guarded_error _ _ _ _ E) as (w2 & -> & Htr).
    destruct Hq as [Hq | [_ ?]]; [| discriminate]. left. cbn [snd].
    rewrite Htr.
    rewrite (calls_Quit_finally _ [Log (Unexpected e) "red";
                                   Log Quitting "blue"]), Hq;
      [reflexivity | now repeat constructor].
  - destruct (guarded_interrupt _ _ _ E) as (w2 & -> & Htr).
    destruct Hq as [Hq | [_ ?]]; [| discriminate]. left. cbn [snd].
    rewrite Htr.
    rewrite (calls_Quit_finally _ [Log Interrupted "yellow";
                                   Log Quitting "blue"]), Hq;
      [reflexivity | now repeat constructor].
  - destruct (guarded_exit _ _ _ _ E) as (w2 & -> & Htr). cbn [fst snd].
    rewrite Htr.
    rewrite (calls_Quit_finally _ [Log Quitting "blue"])
      by now repeat constructor.
    destruct Hq as [-> | [-> [= ->]]]; auto.
Qed.

End Quits.

(** The theorem at a run in which the QR code is scanned in time. *)
Lemma quit_once_or_twice_witness :
  calls Quit
    (trace (snd (main_bulk_send Scenario.logged_in_after_scan
                   Scenario.session_dir (Scenario.at_start [Scenario.ana]))))
  = 1
  ∨ (calls Quit
       (trace (snd (main_bulk_send Scenario.logged_in_after_scan
                      Scenario.session_dir
                      (Scenario.at_start [Scenario.ana]))))
     = 2
     ∧ fst (main_bulk_send Scenario.logged_in_after_scan Scenario.session_dir
              (Scenario.at_start [Scenario.ana]))
       = Raise (SystemExit 1)).
Proof.
  apply (quit_once_or_twice Scenario.logged_in_after_scan Scenario.session_dir
           "2026-11-04" "12:30" _); [reflexivity | repeat split].
Defined.

(** ** The window invariant and the file errors *)

Lemma no_input_box_reliable : tabs_reliable Scenario.no_input_box.
Proof. intros i. repeat split. Qed.



(** X3: a contacts file that cannot be opened, or whose first row cannot
    be read: [load_contacts_from_csv] returns no list; it logs the error
    and raises it again. *)
Theorem load_contacts_file_error (env : op → nat → answer) (path : string)
    (w : world) (e : error) :
  env (OpenCsv path) (calls (OpenCsv path) (trace w)) = Fault e
  ∨ (env (OpenCsv path) (calls (OpenCsv path) (trace w)) = Proceed
     ∧ disk w !! path = None ∧ e = OSError)
  ∨ (env (OpenCsv path) (calls (OpenCsv path) (trace w)) = Proceed
     ∧ (∃ rows, disk w !! path = Some rows ∧ rows ≠ [])
     ∧ env NextRow (calls NextRow (trace w)) = Fault e) →
  ∃ w',
    load_contacts_from_csv env path w = (Raise (Err e), w')
    ∧ ∃ tr, trace w' = tr ++ [Log (CsvError path e) "red"].
Proof.
  intros [H | [H | (Ho & (rows & Hd & Hne) & Hn)]].
  - rewrite (load_contacts_unopened env path w e) by now left.
    eexists. split; [reflexivity |]. eexists. reflexivity.
  - rewrite (load_contacts_unopened env path w e) by now right.
    eexists. split; [reflexivity |]. eexists. reflexivity.
  - rewrite (load_contacts_unread env path rows w e Ho Hd Hne Hn).
    eexists. split; [reflexivity |]. eexists. reflexivity.
Qed.

(** The theorem where there is no contacts file. *)
Lemma load_contacts_file_error_witness :
  ∃ w',
    load_contacts_from_csv Scenario.all_proceed CSV_FILE Scenario.no_file
    = (Raise (Err OSError), w')
    ∧ ∃ tr, trace w' = tr ++ [Log (CsvError CSV_FILE OSError) "red"].
Proof.
  apply (load_contacts_file_error Scenario.all_proceed CSV_FILE
           Scenario.no_file OSError).
  right. left. repeat split; reflexivity.
Defined.

(** * Further properties *)

(** ** More on strings *)

Lemma rstrip_idempotent (s : string) : Py.rstrip (Py.rstrip s) = Py.rstrip s.
Proof.
  induction s as [|c r IH]; [reflexivity |].
  cbn [Py.rstrip]. destruct (Py.rstrip r) as [|d r'] eqn:E.
  - destruct (Py.char_isspace c) eqn:Ec; [reflexivity |].
    cbn [Py.rstrip]. now rewrite Ec.
  - cbn [Py.rstrip]. cbn [Py.rstrip] in IH. rewrite IH. reflexivity.
Qed.

Lemma rstrip_head (c : ascii) (r : string) :
  Py.char_isspace c = false → ∃ r', Py.rstrip (String c r) = String c r'.
Proof.
  intros Hc. cbn [Py.rstrip]. rewrite Hc.
  destruct (Py.rstrip r); eauto.
Qed.

Lemma lstrip_head (s : string) :
  Py.lstrip s = EmptyString
  ∨ ∃ c r, Py.lstrip s = String c r ∧ Py.char_isspace c = false.
Proof.
  induction s as [|c r IH]; [now left |].
  cbn [Py.lstrip]. destruct (Py.char_isspace c) eqn:E; [exact IH |].
  right. eauto.
Qed.

(** Stripping a stripped text changes nothing. *)
Lemma strip_idempotent (s : string) : Py.strip (Py.strip s) = Py.strip s.
Proof.
  unfold Py.strip.
  destruct (lstrip_head s) as [-> | (c & r & -> & Hc)]; [reflexivity |].
  destruct (rstrip_head c r Hc) as (r' & E).
  rewrite E at 1. cbn [Py.lstrip]. rewrite Hc, <- E.
  apply rstrip_idempotent.
Qed.

Lemma digit_not_space (c : ascii) :
  Py.char_isdigit c = true → Py.char_isspace c = false.
Proof. destruct c as [[] [] [] [] [] [] [] []]; cbv; congruence. Qed.

Lemma rstrip_no_space (s : string) :
  Py.all (λ c, negb (Py.char_isspace c)) s = true → Py.rstrip s = s.
Proof.
  induction s as [|c r IH]; [reflexivity |].
  cbn [Py.all Py.rstrip]. intros [Hc Hr]%andb_true_iff.
  rewrite (IH Hr). apply negb_true_iff in Hc. rewrite Hc.
  now destruct r.
Qed.

Lemma all_impl (p q : ascii → bool) (s : string) :
  (∀ c, p c = true → q c = true) → Py.all p s = true → Py.all q s = true.
Proof.
  intros Hpq. induction s as [|c r IH]; [reflexivity |].
  cbn [Py.all]. intros [Hc Hr]%andb_true_iff.
  now rewrite (Hpq c Hc), (IH Hr).
Qed.

(** A text of digits has no whitespace around it, no plus sign and no
    space in it. *)
Lemma strip_digits (s : string) :
  Py.all Py.char_isdigit s = true → Py.strip s = s.
Proof.
  intros H. unfold Py.strip.
  assert (Py.lstrip s = s) as ->.
  { destruct s as [|c r]; [reflexivity |]. cbn [Py.all] in H.
    apply andb_true_iff in H as [Hc _]. cbn [Py.lstrip].
    now rewrite (digit_not_space c Hc). }
  apply rstrip_no_space. revert H. apply all_impl.
  intros c Hc. now rewrite (digit_not_space c Hc).
Qed.

Lemma cleaned_digits (s : string) :
  Py.all Py.char_isdigit s = true → Spec.cleaned s = s.
Proof.
  unfold Spec.cleaned. induction s as [|c r IH]; [reflexivity |].
  cbn [Py.all Spec.remove_chars]. intros [Hc Hr]%andb_true_iff.
  rewrite (IH Hr).
  replace (Ascii.eqb c "+" || Ascii.eqb c " ") with false; [reflexivity |].
  revert Hc. clear. destruct c as [[] [] [] [] [] [] [] []]; cbv; congruence.
Qed.

(** ** Every row is accounted for *)

Section LoadingMore.
Variable env : op → nat → answer.

Lemma strip_value_ret_inv (v : option string) (w w' : world) (s : string) :
  strip_value v w = (Ret s, w') → ∃ x, v = Some x ∧ s = Py.strip x ∧ w' = w.
Proof. destruct v as [x |]; [intros [= <- <-]; eauto | discriminate]. Qed.

(** A row that [read_row] gets through has a string in each cell. *)
Lemma read_row_ret_inv (r : row) (contacts out : list contact) (w w' : world) :
  read_row r contacts w = (Ret out, w') → string_cells r.
Proof.
  unfold read_row. intros H.
  apply bind_ret_inv in H as (s1 & w1 & H1 & H).
  apply strip_value_ret_inv in H1 as (pv & HP & _ & _).
  apply bind_ret_inv in H as (s2 & w2 & H2 & H).
  apply strip_value_ret_inv in H2 as (nv & HN & _ & _).
  apply bind_ret_inv in H as (s3 & w3 & H3 & H).
  apply strip_value_ret_inv in H3 as (mv & HM & _ & _).
  now exists pv, nv, mv.
Qed.

Lemma call_ret_inv (o : op) (w w' : world) (u : unit) :
  call env o w = (Ret u, w') → w' = record (Call o None) w.
Proof.
  unfold call, syscall. destruct (env o _); [| discriminate | discriminate].
  now intros [= _ <-].
Qed.

Lemma read_rows_ret_inv (rows : list row) :
  ∀ contacts out w w',
    read_rows env rows contacts w = (Ret out, w') →
    Forall string_cells rows
    ∧ out = contacts ++ accepted_contacts rows
    ∧ (tally is_invalid_phone_log (trace w') + length (accepted_contacts rows)
       = tally is_invalid_phone_log (trace w) + length rows)%nat
    ∧ calls NextRow (trace w') = (calls NextRow (trace w) + length rows)%nat
    ∧ chrome w' = chrome w.
Proof.
  induction rows as [| r rows IH]; intros contacts out w w'; cbn [read_rows].
  - intros [= <- <-]. unfold accepted_contacts. cbn.
    rewrite app_nil_r. split; [constructor |]. repeat split; lia.
  - intros H.
    apply bind_ret_inv in H as (u & w1 & H1 & H).
    apply call_ret_inv in H1 as ->.
    apply bind_ret_inv in H as (mid & w2 & H2 & H).
    pose proof (read_row_ret_inv _ _ _ _ _ H2) as Hr.
    destruct Hr as (pv & nv & mv & HP & HN & HM).
    rewrite (read_row_strings r pv nv mv _ _ HP HN HM) in H2.
    apply IH in H as (Hrows & -> & Htally & Hcalls & Hchrome).
    unfold accepted_contacts in *. cbn [omap list_omap].
    rewrite (accepted_contact_strings r pv nv mv HP HN HM).
    split; [constructor; [now exists pv, nv, mv | exact Hrows] |].
    destruct (Spec.phone_accepted (Py.strip pv)).
    + injection H2 as <- <-.
      rewrite <- app_assoc. split; [reflexivity |].
      unfold tally in *. rewrite calls_record in Hcalls.
      cbn [trace record is_call length] in *.
      rewrite bool_decide_eq_true_2 in Hcalls by reflexivity.
      rewrite List.filter_app, length_app in Htally.
      cbn in Htally. repeat split; [lia | lia | exact Hchrome].
    + injection H2 as <- <-.
      split; [reflexivity |].
      unfold tally in *. rewrite !calls_record in Hcalls.
      cbn [trace record is_call length] in *.
      rewrite bool_decide_eq_true_2 in Hcalls by reflexivity.
      rewrite !List.filter_app, !length_app in Htally.
      cbn in Htally. repeat split; [lia | lia | exact Hchrome].
Qed.

End LoadingMore.

Section LoadingReturns.
Variable env : op → nat → answer.

(** When [load_contacts_from_csv] returns, the file was there and every
    row was read. *)
Lemma load_contacts_ret_inv (path : string) (w w' : world)
    (contacts : list contact) :
  load_contacts_from_csv env path w = (Ret contacts, w') →
  ∃ rows w1 w2,
    disk w !! path = Some rows
    ∧ w1 = record (Call (OpenCsv path) None) w
    ∧ read_rows env rows [] w1 = (Ret contacts, w2)
    ∧ w' = match contacts with
           | [] => record (Log NoValidContacts "red") w2
           | _ :: _ => w2
           end.
Proof.
  unfold load_contacts_from_csv. intros H.
  apply bind_ret_inv in H as (cs & w2 & Htry & Hlast).
  rewrite try_except_run, bind_run in Htry.
  destruct (open_csv env path w) as [[rows | e] w1] eqn:Hopen.
  - apply syscall_ret_inv in Hopen as (w0 & Hact & ->).
    destruct (disk w !! path) as [rows' |] eqn:Hdisk; [| discriminate].
    injection Hact as <- <-.
    destruct (read_rows env rows' [] (record (Call (OpenCsv path) None) w))
      as [[out | e] w3] eqn:Hrows.
    + injection Htry as <- <-.
      exists rows', (record (Call (OpenCsv path) None) w), w3.
      destruct out; cbn in Hlast; injection Hlast as <- <-;
        repeat split; try assumption; reflexivity.
    + destruct e as [x | |]; cbn in Htry; discriminate.
  - destruct e as [x | |]; cbn in Htry; discriminate.
Qed.

End LoadingReturns.

Lemma accepted_contact_normalised (r : row) (c : contact) :
  accepted_contact r = Some c →
  Py.all Py.char_isdigit (phone c) = true
  ∧ (10 ≤ String.length (phone c))%nat
  ∧ Py.strip (name c) = name c ∧ Py.strip (message c) = message c.
Proof.
  unfold accepted_contact.
  destruct (row_get r "Phone") as [pv |]; [| discriminate].
  destruct (row_get r "Name") as [nv |]; [| discriminate].
  destruct (row_get r "Message") as [mv |]; [| discriminate].
  destruct (Spec.phone_accepted (Py.strip pv)) eqn:E; [| discriminate].
  intros [= <-]. cbn [name phone message].
  unfold Spec.phone_accepted in E. apply andb_true_iff in E as [Hd Hl].
  apply Nat.leb_le in Hl.
  repeat split; try assumption; apply strip_idempotent.
Qed.

Lemma row_get_row_of_contact (c : contact) :
  row_get (row_of_contact c) "Phone" = Some (phone c)
  ∧ row_get (row_of_contact c) "Name" = Some (name c)
  ∧ row_get (row_of_contact c) "Message" = Some (message c).
Proof. repeat split. Qed.

(** A normalised contact, written back, is accepted as it is. *)
Lemma accepted_contact_row_of (c : contact) :
  Py.all Py.char_isdigit (phone c) = true →
  (10 ≤ String.length (phone c))%nat →
  Py.strip (name c) = name c → Py.strip (message c) = message c →
  accepted_contact (row_of_contact c) = Some c.
Proof.
  intros Hd Hl Hn Hm.
  destruct (row_get_row_of_contact c) as (HP & HN & HM).
  rewrite (accepted_contact_strings _ _ _ _ HP HN HM).
  rewrite Hn, Hm, (strip_digits _ Hd). unfold Spec.phone_accepted.
  rewrite (cleaned_digits _ Hd), Hd.
  apply Nat.leb_le in Hl. rewrite Hl. now destruct c.
Qed.

Lemma accepted_contacts_row_of (rows : list row) :
  accepted_contacts (List.map row_of_contact (accepted_contacts rows))
  = accepted_contacts rows.
Proof.
  unfold accepted_contacts. induction rows as [| r rows IH]; [reflexivity |].
  cbn [omap list_omap]. destruct (accepted_contact r) as [c |] eqn:E;
    cbn [option_map]; [| exact IH].
  cbn [List.map omap list_omap].
  destruct (accepted_contact_normalised r c E) as (Hd & Hl & Hn & Hm).
  rewrite (accepted_contact_row_of c Hd Hl Hn Hm). now rewrite IH.
Qed.

Lemma string_cells_row_of (cs : list contact) :
  Forall string_cells (List.map row_of_contact cs).
Proof.
  induction cs as [| c cs IH]; constructor; [| exact IH].
  exists (phone c), (name c), (message c). apply row_get_row_of_contact.
Qed.

(** What a load that returns has done. *)
Lemma load_contacts_returns (env : op → nat → answer) (path : string)
    (w w' : world) (contacts : list contact) :
  load_contacts_from_csv env path w = (Ret contacts, w') →
  ∃ rows,
    disk w !! path = Some rows
    ∧ Forall string_cells rows
    ∧ contacts = accepted_contacts rows
    ∧ (tally is_invalid_phone_log (trace w') + length contacts
       = tally is_invalid_phone_log (trace w) + length rows)%nat
    ∧ calls NextRow (trace w') = (calls NextRow (trace w) + length rows)%nat
    ∧ chrome w' = chrome w.
Proof.
  intros H.
  apply load_contacts_ret_inv in H as (rows & w1 & w2 & Hdisk & -> & Hrows & ->).
  apply read_rows_ret_inv in Hrows as (Hcells & Hout & Htally & Hcalls & Hchrome).
  cbn [app] in Hout. subst contacts. exists rows.
  rewrite calls_record in Hcalls. cbn [is_call] in Hcalls.
  rewrite bool_decide_eq_false_2 in Hcalls by discriminate.
  unfold tally in *. cbn [trace record] in Htally.
  rewrite List.filter_app, length_app in Htally. cbn in Htally.
  split; [exact Hdisk |]. split; [exact Hcells |]. split; [reflexivity |].
  destruct (accepted_contacts rows) as [| c cs].
  - rewrite calls_record. cbn [trace record is_call chrome].
    rewrite List.filter_app, length_app. cbn.
    cbn in Htally. repeat split; [lia | lia | exact Hchrome].
  - repeat split; [lia | lia | exact Hchrome].
Qed.

(** X5: when [load_contacts_from_csv] returns, the file was on disk, every
    row of it had a string (or no column at all) for each of the three
    fields, the list returned is made of the accepted rows in the order of
    the file, and every other row was reported by one warning: the
    warnings and the contacts add up to the rows.  The reader was asked
    for each row once, and the browser was not touched. *)
Theorem load_accounts_for_every_row (env : op → nat → answer) (path : string)
    (w w' : world) (contacts : list contact) :
  load_contacts_from_csv env path w = (Ret contacts, w') →
  ∃ rows,
    disk w !! path = Some rows
    ∧ Forall string_cells rows
    ∧ contacts = accepted_contacts rows
    ∧ (tally is_invalid_phone_log (trace w') + length contacts
       = tally is_invalid_phone_log (trace w) + length rows)%nat
    ∧ calls NextRow (trace w') = (calls NextRow (trace w) + length rows)%nat
    ∧ chrome w' = chrome w.
Proof. apply load_contacts_returns. Qed.

(** The theorem at a file of three rows, the second of them invalid. *)
Lemma load_accounts_for_every_row_witness :
  ∃ rows,
    disk (Scenario.at_start [Scenario.ana; Scenario.bad; Scenario.bob])
      !! CSV_FILE = Some rows
    ∧ Forall string_cells rows
    ∧ [{| name := "Ana"; phone := "15551234567"; message := "Hi ${name}" |};
       {| name := "Bob"; phone := "442079460958"; message := "Hi $name" |}]
      = accepted_contacts rows
    ∧ (tally is_invalid_phone_log
         (trace (snd (load_contacts_from_csv Scenario.all_proceed CSV_FILE
                        (Scenario.at_start
                           [Scenario.ana; Scenario.bad; Scenario.bob])))) + 2
       = tally is_invalid_phone_log
           (trace (Scenario.at_start
                     [Scenario.ana; Scenario.bad; Scenario.bob])) + length rows)%nat
    ∧ calls NextRow
        (trace (snd (load_contacts_from_csv Scenario.all_proceed CSV_FILE
                       (Scenario.at_start
                          [Scenario.ana; Scenario.bad; Scenario.bob]))))
      = (calls NextRow
           (trace (Scenario.at_start
                     [Scenario.ana; Scenario.bad; Scenario.bob]))
         + length rows)%nat
    ∧ chrome (snd (load_contacts_from_csv Scenario.all_proceed CSV_FILE
                     (Scenario.at_start
                        [Scenario.ana; Scenario.bad; Scenario.bob])))
      = chrome (Scenario.at_start [Scenario.ana; Scenario.bad; Scenario.bob]).
Proof.
  apply (load_accounts_for_every_row Scenario.all_proceed CSV_FILE
           (Scenario.at_start [Scenario.ana; Scenario.bad; Scenario.bob])).
  vm_compute. reflexivity.
Defined.

(** X6: every contact that [load_contacts_from_csv] returns has a phone
    made of digits only, at least 10 of them, and a name and a message
    without whitespace around them. *)
Theorem loaded_contacts_are_normalised (env : op → nat → answer)
    (path : string) (w w' : world) (contacts : list contact) :
  load_contacts_from_csv env path w = (Ret contacts, w') →
  Forall (λ c, Py.isdigit (phone c) = true ∧ (10 ≤ Py.len (phone c))%Z
               ∧ Py.strip (name c) = name c
               ∧ Py.strip (message c) = message c) contacts.
Proof.
  intros H.
  apply load_contacts_ret_inv in H as (rows & w1 & w2 & _ & _ & Hrows & _).
  apply read_rows_ret_inv in Hrows as (_ & -> & _).
  cbn [app]. unfold accepted_contacts.
  apply Forall_forall. intros c Hc.
  apply list_elem_of_omap in Hc as (r & _ & Hr).
  destruct (accepted_contact_normalised r c Hr) as (Hd & Hl & Hn & Hm).
  pose proof (phone_test (phone c)) as Ht.
  rewrite Hd in Ht. apply Nat.leb_le in Hl. rewrite Hl in Ht.
  apply andb_true_iff in Ht as [H1 H2]. apply Z.leb_le in H2. auto.
Qed.

(** The theorem at the same file. *)
Lemma loaded_contacts_are_normalised_witness :
  Forall (λ c, Py.isdigit (phone c) = true ∧ (10 ≤ Py.len (phone c))%Z
               ∧ Py.strip (name c) = name c
               ∧ Py.strip (message c) = message c) Scenario.ana_and_bob.
Proof.
  apply (loaded_contacts_are_normalised Scenario.all_proceed CSV_FILE
           (Scenario.at_start [Scenario.ana; Scenario.bad; Scenario.bob])
           (snd (load_contacts_from_csv Scenario.all_proceed CSV_FILE
                   (Scenario.at_start
                      [Scenario.ana; Scenario.bad; Scenario.bob])))).
  vm_compute. reflexivity.
Defined.

(** X7: loading is idempotent: a file that holds the contacts which a load
    has returned, one row per contact, loads to the same contacts, and no
    row of it is reported as invalid. *)
Theorem reload_gives_the_same_contacts (env : op → nat → answer)
    (path path' : string) (w w' v : world) (contacts : list contact) :
  load_contacts_from_csv env path w = (Ret contacts, w') →
  disk v !! path' = Some (List.map row_of_contact contacts) →
  env (OpenCsv path') (calls (OpenCsv path') (trace v)) = Proceed →
  (∀ i, env NextRow i = Proceed) →
  ∃ v',
    load_contacts_from_csv env path' v = (Ret contacts, v')
    ∧ tally is_invalid_phone_log (trace v')
      = tally is_invalid_phone_log (trace v).
Proof.
  intros H Hdisk Hopen Hnext.
  apply load_contacts_returns in H as (rows & _ & _ & -> & _).
  destruct (load_contacts_strings env path' _ v Hopen Hdisk
              (string_cells_row_of _) Hnext) as (v' & Hload & _).
  rewrite accepted_contacts_row_of in Hload.
  exists v'. split; [exact Hload |].
  apply load_contacts_returns in Hload as (rows' & Hdisk' & _ & _ & Ht & _).
  rewrite Hdisk in Hdisk'. injection Hdisk' as <-.
  rewrite length_map in Ht. lia.
Qed.

(** The theorem at the two contacts of that file, written to a copy. *)
Lemma reload_gives_the_same_contacts_witness :
  ∃ v',
    load_contacts_from_csv Scenario.all_proceed "copy.csv"
      (initial_world "2026-11-04" "12:30"
         (<["copy.csv" := List.map row_of_contact Scenario.ana_and_bob]> ∅))
    = (Ret Scenario.ana_and_bob, v')
    ∧ tally is_invalid_phone_log (trace v')
      = tally is_invalid_phone_log
          (trace (initial_world "2026-11-04" "12:30"
                    (<["copy.csv" := List.map row_of_contact
                                       Scenario.ana_and_bob]> ∅))).
Proof.
  apply (reload_gives_the_same_contacts Scenario.all_proceed CSV_FILE
           "copy.csv"
           (Scenario.at_start [Scenario.ana; Scenario.bad; Scenario.bob])
           (snd (load_contacts_from_csv Scenario.all_proceed CSV_FILE
                   (Scenario.at_start
                      [Scenario.ana; Scenario.bad; Scenario.bob]))));
    [vm_compute; reflexivity | reflexivity | reflexivity | reflexivity].
Defined.

(** ** A file without a phone column *)

Section NoPhoneColumn.
Variable env : op → nat → answer.
Hypothesis next_row : ∀ i, env NextRow i = Proceed.

Lemma read_row_no_phone (r : row) (contacts : list contact) (w : world) :
  string_cells r → r !! "Phone" = None →
  read_row r contacts w
  = (Ret contacts, record (Log (InvalidPhone "") "yellow") w).
Proof.
  intros (pv & nv & mv & HP & HN & HM) Hno.
  assert (pv = EmptyString) as ->.
  { unfold row_get in HP. rewrite Hno in HP. congruence. }
  now rewrite (read_row_strings r _ _ _ _ _ HP HN HM).
Qed.

Lemma read_rows_no_phone (rows : list row) :
  Forall (λ r, string_cells r ∧ r !! "Phone" = None) rows →
  ∀ contacts w,
    ∃ w', read_rows env rows contacts w = (Ret contacts, w')
          ∧ trace w' = trace w ++ skipped_rows rows.
Proof.
  induction 1 as [| r rows [Hr Hno] _ IH]; intros contacts w; cbn [read_rows].
  - exists w. split; [reflexivity |]. cbn. now rewrite app_nil_r.
  - rewrite bind_run, call_proceeds by apply next_row.
    rewrite bind_run, (read_row_no_phone r _ _ Hr Hno).
    destruct (IH contacts
                (record (Log (InvalidPhone "") "yellow")
                   (record (Call NextRow None) w))) as (w' & -> & Ht).
    exists w'. split; [reflexivity |]. rewrite Ht. cbn [trace record].
    unfold skipped_rows. cbn [flat_map]. now rewrite <- !app_assoc.
Qed.

End NoPhoneColumn.

(** X8: the names of the columns are matched as they are written.  When no
    row has a column named [Phone] (the header spells it otherwise, say),
    the default of [row.get] stands in for every phone: each row is skipped
    with the warning for the empty number, the list is empty and the last
    line says that no valid contact was found.  Nothing is raised. *)
Theorem no_phone_column_no_contacts (env : op → nat → answer) (path : string)
    (rows : list row) (w : world) :
  env (OpenCsv path) (calls (OpenCsv path) (trace w)) = Proceed →
  disk w !! path = Some rows →
  (∀ i, env NextRow i = Proceed) →
  Forall (λ r, string_cells r ∧ r !! "Phone" = None) rows →
  ∃ w',
    load_contacts_from_csv env path w = (Ret [], w')
    ∧ trace w'
      = trace w ++ [Call (OpenCsv path) None] ++ skipped_rows rows
        ++ [Log NoValidContacts "red"].
Proof.
  intros Hopen Hdisk Hnext Hrows. unfold load_contacts_from_csv.
  rewrite bind_run, try_except_run, bind_run,
    (open_csv_proceeds _ _ _ _ Hopen Hdisk).
  destruct (read_rows_no_phone env Hnext rows Hrows []
              (record (Call (OpenCsv path) None) w)) as (w' & -> & Ht).
  eexists. split; [reflexivity |].
  cbn [trace record]. rewrite Ht. cbn [trace record].
  now rewrite <- !app_assoc.
Qed.

(** The theorem at a file whose header spells the column in lower case. *)
Lemma no_phone_column_no_contacts_witness :
  ∃ w',
    load_contacts_from_csv Scenario.all_proceed CSV_FILE
      (Scenario.at_start [Scenario.lower_case_header]) = (Ret [], w')
    ∧ trace w'
      = trace (Scenario.at_start [Scenario.lower_case_header])
        ++ [Call (OpenCsv CSV_FILE) None]
        ++ skipped_rows [Scenario.lower_case_header]
        ++ [Log NoValidContacts "red"].
Proof.
  apply (no_phone_column_no_contacts Scenario.all_proceed CSV_FILE
           [Scenario.lower_case_header]
           (Scenario.at_start [Scenario.lower_case_header]));
    [reflexivity | reflexivity | reflexivity |].
  constructor; [| constructor].
  split; [| reflexivity].
  exists EmptyString, "Ana", "Hi". repeat split.
Defined.

(** ** Placeholders the program knows, escapes and stray delimiters *)

Section Placeholders.
Import Template.

Lemma safe_substitute_known (mapping : gmap string string)
    (pre id v rest : string) :
  Spec.has_char delimiter pre = false → is_identifier id = true →
  mapping !! id = Some v →
  safe_substitute mapping (pre +:+ "${" +:+ id +:+ "}" +:+ rest)
  = (out ← safe_substitute mapping rest; Ret (pre +:+ v +:+ out)).
Proof.
  intros Hpre Hid Hm.
  rewrite safe_substitute_prefix by exact Hpre.
  change ("${" +:+ id +:+ "}" +:+ rest)
    with (String delimiter (String "{" (id +:+ String "}" rest))).
  rewrite (safe_substitute_match mapping _ _ _ (match_braced id rest Hid)).
  unfold convert. cbn [named braced mo_braced py_or].
  destruct id as [|d r]; [discriminate |]. rewrite Hm.
  destruct (safe_substitute mapping rest) as [a | e]; reflexivity.
Qed.

Lemma safe_substitute_known_named (mapping : gmap string string)
    (pre id v rest : string) :
  Spec.has_char delimiter pre = false → is_identifier id = true →
  continues_identifier rest = false → mapping !! id = Some v →
  safe_substitute mapping (pre +:+ "$" +:+ id +:+ rest)
  = (out ← safe_substitute mapping rest; Ret (pre +:+ v +:+ out)).
Proof.
  intros Hpre Hid Hrest Hm.
  rewrite safe_substitute_prefix by exact Hpre.
  change ("$" +:+ id +:+ rest) with (String delimiter (id +:+ rest)).
  rewrite (safe_substitute_match mapping _ _ _ (match_named id rest Hid Hrest)).
  unfold convert. cbn [named braced mo_named py_or].
  destruct id as [|d r]; [discriminate |]. rewrite Hm.
  destruct (safe_substitute mapping rest) as [a | e]; reflexivity.
Qed.

(** The substitutions of the program. *)
Lemma substitutions_known (name phone date time id v : string) :
  (id, v) ∈ [("name", name); ("phone", phone); ("date", date); ("time", time)] →
  is_identifier id = true ∧ substitutions name phone date time !! id = Some v.
Proof.
  intros H. repeat (apply elem_of_cons in H as [[= -> ->] | H]);
    [split; reflexivity .. |].
  now apply elem_of_nil in H.
Qed.

(** A delimiter that opens nothing is a match of its own, and the text
    after it is read on. *)
Lemma match_stray (r : string) :
  opens_placeholder r = false → match_after_delimiter r = (mo_invalid, r).
Proof.
  destruct r as [|c r]; [reflexivity |]. cbn [opens_placeholder].
  intros H. apply orb_false_iff in H as [H Hb].
  apply orb_false_iff in H as [Hd Hi].
  unfold match_after_delimiter. rewrite Hd, Hi.
  destruct (Ascii.eqb c "{"); [| reflexivity].
  destruct r as [|d r]; [reflexivity |]. cbn in Hb. now rewrite Hb.
Qed.

Lemma safe_substitute_escape (mapping : gmap string string) (pre rest : string) :
  Spec.has_char delimiter pre = false →
  safe_substitute mapping (pre +:+ "$$" +:+ rest)
  = (out ← safe_substitute mapping rest; Ret (pre +:+ "$" +:+ out)).
Proof.
  intros Hpre. rewrite safe_substitute_prefix by exact Hpre.
  change ("$$" +:+ rest) with (String delimiter (String delimiter rest)).
  rewrite (safe_substitute_match mapping (String delimiter rest) rest mo_escaped)
    by reflexivity.
  destruct (safe_substitute mapping rest) as [a | e]; reflexivity.
Qed.

Lemma safe_substitute_stray (mapping : gmap string string) (pre rest : string) :
  Spec.has_char delimiter pre = false → opens_placeholder rest = false →
  safe_substitute mapping (pre +:+ "$" +:+ rest)
  = (out ← safe_substitute mapping rest; Ret (pre +:+ "$" +:+ out)).
Proof.
  intros Hpre Hrest. rewrite safe_substitute_prefix by exact Hpre.
  change ("$" +:+ rest) with (String delimiter rest).
  rewrite (safe_substitute_match mapping _ _ _ (match_stray rest Hrest)).
  destruct (safe_substitute mapping rest) as [a | e]; reflexivity.
Qed.

End Placeholders.

(** X9: the four placeholders of the program.  After a text without
    dollar sign, [${name}], [${phone}], [${date}] and [${time}] are
    replaced by the name, the phone, the date and the time, and so are
    [$name], [$phone], [$date] and [$time] when what follows cannot
    continue the identifier; the rest of the template is rendered on.  The
    value is put in as it is: a dollar sign in it is not read again. *)
Theorem render_substitutes_known (name phone : string) (w : world)
    (pre id v rest out : string) :
  Spec.has_char Template.delimiter pre = false →
  (id, v) ∈ [("name", name); ("phone", phone); ("date", today w);
             ("time", now w)] →
  render_message_template rest name phone w = (Ret out, w) →
  render_message_template (pre +:+ "${" +:+ id +:+ "}" +:+ rest) name phone w
  = (Ret (pre +:+ v +:+ out), w)
  ∧ (continues_identifier rest = false →
     render_message_template (pre +:+ "$" +:+ id +:+ rest) name phone w
     = (Ret (pre +:+ v +:+ out), w)).
Proof.
  intros Hpre Hin. rewrite !render_message_template_run. intros [= Hrest].
  destruct (substitutions_known _ _ _ _ _ _ Hin) as [Hid Hm].
  split.
  - now rewrite (safe_substitute_known _ _ _ _ _ Hpre Hid Hm), Hrest.
  - intros Hcont.
    now rewrite (safe_substitute_known_named _ _ _ _ _ Hpre Hid Hcont Hm), Hrest.
Qed.

(** The theorem at the name, with braces and without; the name holds a
    dollar sign. *)
Lemma render_substitutes_known_witness :
  render_message_template ("Hi " +:+ "${" +:+ "name" +:+ "}" +:+ ", bye")
    "Ana $phone" "15551234567" Scenario.ready
  = (Ret "Hi Ana $phone, bye", Scenario.ready)
  ∧ render_message_template ("Hi " +:+ "$" +:+ "name" +:+ ", bye")
      "Ana $phone" "15551234567" Scenario.ready
    = (Ret "Hi Ana $phone, bye", Scenario.ready).
Proof.
  destruct (render_substitutes_known "Ana $phone" "15551234567"
              Scenario.ready "Hi " "name" "Ana $phone" ", bye" ", bye")
    as [H1 H2]; [reflexivity | apply list_elem_of_here | reflexivity |].
  split; [exact H1 | exact (H2 eq_refl)].
Defined.

(** X10: [$$] renders to a single dollar sign, and a dollar sign that is
    followed by neither a second one, nor the first character of an
    identifier, nor a brace and such a character, stays as it is (a price
    such as [$5], a dollar sign at the end); the text after it is rendered
    on. *)
Theorem render_keeps_stray_delimiter (name phone : string) (w : world)
    (pre rest out : string) :
  Spec.has_char Template.delimiter pre = false →
  render_message_template rest name phone w = (Ret out, w) →
  render_message_template (pre +:+ "$$" +:+ rest) name phone w
  = (Ret (pre +:+ "$" +:+ out), w)
  ∧ (opens_placeholder rest = false →
     render_message_template (pre +:+ "$" +:+ rest) name phone w
     = (Ret (pre +:+ "$" +:+ out), w)).
Proof.
  intros Hpre. rewrite !render_message_template_run. intros [= Hrest].
  split.
  - now rewrite (safe_substitute_escape _ _ _ Hpre), Hrest.
  - intros Hstray.
    now rewrite (safe_substitute_stray _ _ _ Hpre Hstray), Hrest.
Qed.

(** The theorem at a price, escaped and not. *)
Lemma render_keeps_stray_delimiter_witness :
  render_message_template ("Only " +:+ "$$" +:+ "5 for ${name}")
    "Ana" "15551234567" Scenario.ready
  = (Ret "Only $5 for Ana", Scenario.ready)
  ∧ render_message_template ("Only " +:+ "$" +:+ "5 for ${name}")
      "Ana" "15551234567" Scenario.ready
    = (Ret "Only $5 for Ana", Scenario.ready).
Proof.
  destruct (render_keeps_stray_delimiter "Ana" "15551234567" Scenario.ready
              "Only " "5 for ${name}" "5 for Ana") as [H1 H2];
    [reflexivity | reflexivity |].
  split; [exact H1 | exact (H2 eq_refl)].
Defined.

(** ** The encoded message *)

Lemma all_app (p : ascii → bool) (a b : string) :
  Py.all p (a +:+ b) = Py.all p a && Py.all p b.
Proof.
  induction a as [|c a IH]; [reflexivity |].
  change (String c a +:+ b) with (String c (a +:+ b)).
  cbn [Py.all]. now rewrite IH, andb_assoc.
Qed.

Lemma has_char_app (c : ascii) (a b : string) :
  Spec.has_char c (a +:+ b) = Spec.has_char c a || Spec.has_char c b.
Proof.
  induction a as [|x a IH]; [reflexivity |].
  change (String x a +:+ b) with (String x (a +:+ b)).
  cbn [Spec.has_char]. now rewrite IH, orb_assoc.
Qed.

Lemma quote_char_encoded (c : ascii) :
  Py.all encoded_char (Urllib.quote_char c) = true.
Proof. destruct c as [[] [] [] [] [] [] [] []]; reflexivity. Qed.

Lemma quote_encoded (s : string) : Py.all encoded_char (Urllib.quote s) = true.
Proof.
  induction s as [|c s IH]; [reflexivity |].
  cbn [Urllib.quote]. now rewrite all_app, quote_char_encoded, IH.
Qed.

(** A text made of the characters [p] allows has none that [p]
    refuses. *)
Lemma all_has_char (p : ascii → bool) (c : ascii) (s : string) :
  p c = false → Py.all p s = true → Spec.has_char c s = false.
Proof.
  intros Hc. induction s as [|x s IH]; [reflexivity |].
  cbn [Py.all Spec.has_char]. intros [Hx Hs]%andb_true_iff.
  rewrite (IH Hs), orb_false_r.
  destruct (Ascii.eqb_spec x c) as [-> |]; [congruence | reflexivity].
Qed.

Lemma first_encoded_quote_char (c : ascii) (r : string) :
  first_encoded (Urllib.quote_char c +:+ r) = Some (c, r).
Proof. destruct c as [[] [] [] [] [] [] [] []]; reflexivity. Qed.

(** X11: the encoding of the message loses nothing: two messages have the
    same encoded text only if they are the same message. *)
Theorem quote_is_injective (a b : string) :
  Urllib.quote a = Urllib.quote b ↔ a = b.
Proof.
  split; [| now intros ->].
  revert b. induction a as [|c a IH]; intros [|d b]; cbn [Urllib.quote];
    intros H; try reflexivity.
  - apply (f_equal first_encoded) in H.
    rewrite first_encoded_quote_char in H. discriminate.
  - apply (f_equal first_encoded) in H.
    rewrite first_encoded_quote_char in H. discriminate.
  - apply (f_equal first_encoded) in H.
    rewrite !first_encoded_quote_char in H.
    injection H as -> H. now rewrite (IH _ H).
Qed.

Lemma isdigit_all (s : string) :
  Py.isdigit s = true → Py.all Py.char_isdigit s = true.
Proof. now destruct s. Qed.

Lemma contact_url_chars (phone message : string) :
  Py.isdigit phone = true →
  Py.all address_char (contact_url phone message) = true.
Proof.
  intros Hd%isdigit_all. unfold contact_url.
  rewrite !all_app. repeat (apply andb_true_iff; split); try reflexivity.
  - revert Hd. apply all_impl. intros c Hc. unfold address_char.
    now rewrite Hc, orb_true_r.
  - generalize (quote_encoded message). apply all_impl.
    intros c Hc. unfold address_char. now rewrite Hc.
Qed.

(** X12: for a phone that passes the check of the loader, the address
    that line 182 builds is made of URL characters only: those of the
    fixed part, digits, and the unreserved characters and percent signs of
    the encoded message.  It holds no apostrophe, no backslash and no line
    break, so it cannot end the string literal that line 188 puts it
    in. *)
Theorem contact_url_stays_in_its_literal (phone message : string) :
  Py.isdigit phone = true →
  Py.all address_char (contact_url phone message) = true
  ∧ Spec.has_char "'" (contact_url phone message) = false
  ∧ Spec.has_char "\" (contact_url phone message) = false
  ∧ Spec.has_char "010" (contact_url phone message) = false
  ∧ Spec.has_char "013" (contact_url phone message) = false.
Proof.
  intros Hd. pose proof (contact_url_chars phone message Hd) as H.
  split; [exact H |].
  repeat split; now apply (all_has_char address_char).
Qed.

(** The theorem at a message with an apostrophe and a backslash. *)
Lemma contact_url_stays_in_its_literal_witness :
  Py.all address_char (contact_url "15551234567" "it's 5\6") = true
  ∧ Spec.has_char "'" (contact_url "15551234567" "it's 5\6") = false
  ∧ Spec.has_char "\" (contact_url "15551234567" "it's 5\6") = false
  ∧ Spec.has_char "010" (contact_url "15551234567" "it's 5\6") = false
  ∧ Spec.has_char "013" (contact_url "15551234567" "it's 5\6") = false.
Proof.
  apply (contact_url_stays_in_its_literal "15551234567" "it's 5\6").
  reflexivity.
Defined.

(** ** What a computation appends to the trace *)

Section Emits.
Variable P : event → Prop.

Lemma emits_ret {A : Type} (a : A) : emits P (mret a).
Proof. intros w r w' [= _ <-]. exists []. now rewrite app_nil_r. Qed.

Lemma emits_raise {A : Type} (e : exn) : emits P (raise e : M A).
Proof. intros w r w' [= _ <-]. exists []. now rewrite app_nil_r. Qed.

Lemma emits_lift {A : Type} (x : result A) : emits P (lift x).
Proof. intros w r w' [= _ <-]. exists []. now rewrite app_nil_r. Qed.

Lemma emits_log (line : message_line) (style : string) :
  P (Log line style) → emits P (log line style).
Proof. intros H w r w' [= _ <-]. exists [Log line style]. auto. Qed.

Lemma emits_sleep (d : delay) : P (Sleep d) → emits P (sleep d).
Proof. intros H w r w' [= _ <-]. exists [Sleep d]. auto. Qed.

Lemma emits_bind {A B : Type} (m : M A) (f : A → M B) :
  emits P m → (∀ a, emits P (f a)) → emits P (m ≫= f).
Proof.
  intros Hm Hf w r w'. rewrite bind_run.
  destruct (m w) as [[a | e] w1] eqn:E;
    destruct (Hm _ _ _ E) as (add1 & Ht1 & HP1).
  - intros H. destruct (Hf _ _ _ _ H) as (add2 & Ht2 & HP2).
    exists (add1 ++ add2). rewrite Ht2, Ht1, <- app_assoc.
    split; [reflexivity | now apply Forall_app].
  - intros [= <- <-]. eauto.
Qed.

Lemma emits_if {A : Type} (b : bool) (m1 m2 : M A) :
  emits P m1 → emits P m2 → emits P (if b then m1 else m2).
Proof. now destruct b. Qed.

Lemma emits_try_except {A : Type} (body : M A) (cs : list (clause A)) :
  emits P body → (∀ e h, select cs e = Some h → emits P h) →
  emits P (try_except body cs).
Proof.
  intros Hb Hh w r w'. rewrite try_except_run.
  destruct (body w) as [[a | e] w1] eqn:E;
    destruct (Hb _ _ _ E) as (add1 & Ht1 & HP1).
  - intros [= <- <-]. eauto.
  - destruct (select cs e) as [h |] eqn:Es.
    + intros H. destruct (Hh _ _ Es _ _ _ H) as (add2 & Ht2 & HP2).
      exists (add1 ++ add2). rewrite Ht2, Ht1, <- app_assoc.
      split; [reflexivity | now apply Forall_app].
    + intros [= <- <-]. eauto.
Qed.

Lemma emits_try_Exception {A : Type} (body : M A) (handler : error → M A) :
  emits P body → (∀ x, emits P (handler x)) →
  emits P (try_except body [except_Exception handler]).
Proof.
  intros Hb Hh. apply emits_try_except; [exact Hb |].
  intros e h Hs. apply select_Exception in Hs as [x ->]. apply Hh.
Qed.

Lemma emits_try_finally {A : Type} (body : M A) (final : M unit) :
  emits P body → emits P final → emits P (try_finally body final).
Proof.
  intros Hb Hf w r w'. unfold try_finally.
  destruct (body w) as [rb w1] eqn:E.
  destruct (Hb _ _ _ E) as (add1 & Ht1 & HP1).
  destruct (final w1) as [[u | e] w2] eqn:E2;
    destruct (Hf _ _ _ E2) as (add2 & Ht2 & HP2);
    intros [= <- <-]; exists (add1 ++ add2);
    rewrite Ht2, Ht1, <- app_assoc; (split; [reflexivity | now apply Forall_app]).
Qed.

Variable env : op → nat → answer.

Lemma emits_syscall {A : Type} (o : op) (act : world → error + (A * world)) :
  (∀ r, P (Call o r)) →
  (∀ w a w1, act w = inr (a, w1) → trace w1 = trace w) →
  emits P (syscall env o act).
Proof.
  intros Hp Hact w r w'. unfold syscall.
  destruct (env o _).
  - destruct (act w) as [x | [a w1]] eqn:E; intros [= _ <-]; cbn [record trace];
      eexists [_]; (split; [| auto]); [reflexivity |].
    now rewrite (Hact _ _ _ E).
  - intros [= _ <-]. eexists [_]. split; [reflexivity | auto].
  - intros [= _ <-]. eexists [_]. split; [reflexivity | auto].
Qed.

End Emits.

Lemma emits_weaken {A : Type} (P Q : event → Prop) (m : M A) :
  (∀ ev, P ev → Q ev) → emits P m → emits Q m.
Proof.
  intros HPQ Hm w r w' H. destruct (Hm _ _ _ H) as (added & Ht & HP).
  exists added. split; [exact Ht |]. exact (Forall_impl _ _ _ HP HPQ).
Qed.

(** The effect of each command on the trace is its own event. *)
Lemma switch_to_window_trace (h : handle) (w : world) (a : unit) (w1 : world) :
  (if is_open h (chrome w)
   then inr (tt, set_chrome {| handles := handles (chrome w); focus := h;
                               fresh := fresh (chrome w) |} w)
   else inl NoSuchWindowException) = inr (a, w1) →
  trace w1 = trace w.
Proof. destruct (is_open _ _); [intros [= _ <-] | discriminate]; reflexivity. Qed.

Ltac emits_tac :=
  repeat first
    [ apply emits_ret | apply emits_raise | apply emits_lift
    | apply emits_log | apply emits_sleep
    | apply emits_if
    | apply emits_try_Exception; [| intros ?]
    | apply emits_syscall;
      [ intros ?
      | first [ apply in_window_trace
              | apply switch_to_window_trace
              | intros ? ? ? [= _ <-]; reflexivity ] ]
    | apply emits_bind; [| intros ?] ].

Ltac unfold_driver :=
  unfold execute_script, window_handles, switch_to_window,
    until_input_box, send_keys_ENTER, until_send_button, click, beep_success,
    beep_fail, driver_close, current_window_handle, driver_get,
    until_chat_list, call.

Section Scripts.
Variable env : op → nat → answer.

Lemma attempts_emit (script : string) (name phone url : string)
    (main_window : handle) (is_reply : bool) (numbers : list Z) :
  script = "window.open('" +:+ url +:+ "', '_blank');" →
  emits (runs_only script)
    (attempts env name phone url main_window is_reply numbers).
Proof.
  intros ->. induction numbers as [| attempt rest IH]; cbn [attempts].
  - unfold_driver. emits_tac; intros ? ? ?; discriminate.
  - apply emits_bind; [| intros [b |]; [apply emits_ret | exact IH]].
    unfold attempt_turn, attempt_body, on_failure, cleanup. unfold_driver.
    emits_tac; intros ? ? Heq; try discriminate.
    now injection Heq as <- _.
Qed.

End Scripts.

(** X13: whatever its outcome, [send_whatsapp_message] only appends to the
    trace, and every script it runs is the one that opens the address of
    this phone with this message, encoded: the rendering of the template,
    or the raw message for a reply. *)
Theorem send_opens_only_the_contact_url (env : op → nat → answer)
    (name phone raw_message : string) (retry_limit : Z) (is_reply : bool)
    (w : world) :
  ∃ message added,
    (if is_reply then message = raw_message
     else render_message_template raw_message name phone w = (Ret message, w))
    ∧ trace (snd (send_whatsapp_message env name phone raw_message
                    retry_limit is_reply w))
      = trace w ++ added
    ∧ ∀ script r,
        Call (ExecuteScript script) r ∈ added →
        script = open_tab_script (contact_url phone message).
Proof.
  assert (Hr : ∃ message,
             (if negb is_reply
              then render_message_template raw_message name phone
              else mret raw_message) w = (Ret message, w)
             ∧ if is_reply then message = raw_message
               else render_message_template raw_message name phone w
                    = (Ret message, w)).
  { destruct is_reply; cbn [negb].
    - now exists raw_message.
    - rewrite render_message_template_run.
      destruct (safe_substitute_total
                  (substitutions name phone (today w) (now w)) raw_message)
        as [out ->]. eauto. }
  destruct Hr as (message & Hrun & Hmsg). exists message.
  unfold send_whatsapp_message. rewrite bind_run, Hrun.
  assert (He : emits (runs_only (open_tab_script (contact_url phone message)))
            (main_window ← current_window_handle env;
             attempts env name phone (contact_url phone message) main_window
               is_reply (range 1 (retry_limit + 1)))).
  { apply emits_bind.
    - unfold_driver. emits_tac. intros ? ? ?. discriminate.
    - intros mw. now apply attempts_emit. }
  fold (contact_url phone message).
  destruct ((main_window ← current_window_handle env;
             attempts env name phone (contact_url phone message) main_window
               is_reply (range 1 (retry_limit + 1))) w) as [r w'] eqn:E.
  destruct (He _ _ _ E) as (added & Ht & HP).
  exists added. split; [exact Hmsg |]. split; [exact Ht |].
  intros script r' Hin. rewrite Forall_forall in HP.
  exact (HP _ Hin script r' eq_refl).
Qed.

(** ** Counting by outcome *)

Section CountingByOutcome.
Variable p : event → bool.

Lemma tally_app (tr1 tr2 : list event) :
  tally p (tr1 ++ tr2) = (tally p tr1 + tally p tr2)%nat.
Proof. unfold tally. now rewrite List.filter_app, length_app. Qed.

Lemma tally_none (tr : list event) :
  Forall (λ ev, p ev = false) tr → tally p tr = 0.
Proof.
  induction 1 as [| ev tr Hev _ IH]; [reflexivity |].
  unfold tally in *. cbn [List.filter]. now rewrite Hev.
Qed.

(** A computation that emits no event satisfying [p] adds none. *)
Lemma emits_adds {A : Type} (m : M A) :
  emits (λ ev, p ev = false) m → adds p 0 m.
Proof.
  intros Hm w r w' H. destruct (Hm _ _ _ H) as (added & -> & Hnone).
  now rewrite tally_app, (tally_none _ Hnone).
Qed.

Lemma adds_on_return_bind {A B : Type} (n : nat) (m : M A) (f : A → M B) :
  adds p 0 m → (∀ a, adds_on_return p n (f a)) →
  adds_on_return p n (m ≫= f).
Proof.
  intros Hm Hf w r w'. rewrite bind_run.
  destruct (m w) as [[a | e] w1] eqn:E; specialize (Hm _ _ _ E).
  - intros H. apply Hf in H. lia.
  - intros [= <- <-]. lia.
Qed.

Lemma adds_on_return_last {A B : Type} (n : nat) (m : M A) (b : B) :
  adds_on_return p n m → adds_on_return p n (m ≫= λ _, mret b).
Proof.
  intros Hm w r w'. rewrite bind_run.
  destruct (m w) as [[a | e] w1] eqn:E; specialize (Hm _ _ _ E);
    intros [= <- <-]; exact Hm.
Qed.

Lemma adds_returning {A : Type} (n : nat) (m : M A) :
  adds p n m → raises_only (λ _, False) m → adds_on_return p n m.
Proof.
  intros Hm Hr w r w' H. rewrite (Hm _ _ _ H).
  destruct r as [a | e]; [reflexivity |]. destruct (Hr _ _ _ H).
Qed.

Lemma adds_on_return_try {A : Type} (n : nat) (body : M A)
    (handler : error → M A) :
  adds_on_return p n body → (∀ x, adds_on_return p n (handler x)) →
  adds_on_return p n (try_except body [except_Exception handler]).
Proof.
  intros Hb Hh w r w'. rewrite try_except_run.
  destruct (body w) as [[a | e] w1] eqn:E; specialize (Hb _ _ _ E).
  - now intros [= <- <-].
  - destruct e as [x | |]; cbn [select except_Exception].
    + intros H. apply Hh in H. lia.
    + now intros [= <- <-].
    + now intros [= <- <-].
Qed.

Lemma adds_upto_bind {A B : Type} (n : nat) (m : M A) (f : A → M B) :
  adds p 0 m → (∀ a, adds_upto p n (f a)) → adds_upto p n (m ≫= f).
Proof.
  intros Hm Hf w r w'. rewrite bind_run.
  destruct (m w) as [[a | e] w1] eqn:E; specialize (Hm _ _ _ E).
  - intros H. apply Hf in H as [Hle Heq]. split; [lia |].
    intros b Hb. rewrite (Heq b Hb). lia.
  - intros [= <- <-]. split; [lia | discriminate].
Qed.

Lemma adds_upto_then {A B : Type} (n : nat) (m : M A) (f : A → M B) :
  adds_on_return p n m → (∀ a, adds p 0 (f a)) → adds_upto p n (m ≫= f).
Proof.
  intros Hm Hf w r w'. rewrite bind_run.
  destruct (m w) as [[a | e] w1] eqn:E; specialize (Hm _ _ _ E);
    cbn beta iota in Hm.
  - intros H. apply Hf in H. split; [lia |]. intros; lia.
  - intros [= <- <-]. split; [lia | discriminate].
Qed.

Variable env : op → nat → answer.

(** A call of which only the success satisfies [p]. *)
Lemma adds_on_return_syscall {A : Type} (o : op)
    (act : world → error + (A * world)) :
  p (Call o None) = true → (∀ e, p (Call o (Some e)) = false) →
  (∀ w a w1, act w = inr (a, w1) → trace w1 = trace w) →
  adds_on_return p 1 (syscall env o act).
Proof.
  intros Hok Hko Hact w r w'. unfold syscall.
  destruct (env o _).
  - destruct (act w) as [x | [a w1]] eqn:E; intros [= <- <-];
      cbn [record trace]; rewrite tally_snoc.
    + now rewrite Hko.
    + now rewrite Hok, (Hact _ _ _ E).
  - intros [= <- <-]. cbn [record trace]. now rewrite tally_snoc, Hko.
  - intros [= <- <-]. cbn [record trace]. now rewrite tally_snoc, Hko.
Qed.

End CountingByOutcome.

Section Balance.
Variables p q : event → bool.

Lemma balanced_bind {A B : Type} (m : M A) (f : A → M B) :
  balanced p q m → (∀ a, balanced p q (f a)) → balanced p q (m ≫= f).
Proof.
  intros Hm Hf w r w'. rewrite bind_run.
  destruct (m w) as [[a | e] w1] eqn:E; specialize (Hm _ _ _ E).
  - intros H. apply Hf in H. lia.
  - now intros [= <- <-].
Qed.

Lemma balanced_neither {A : Type} (m : M A) :
  adds p 0 m → adds q 0 m → balanced p q m.
Proof. intros Hp Hq w r w' H. rewrite (Hp _ _ _ H), (Hq _ _ _ H). lia. Qed.

Lemma balanced_try {A : Type} (body : M A) (handler : error → M A) :
  balanced p q body → (∀ x, balanced p q (handler x)) →
  balanced p q (try_except body [except_Exception handler]).
Proof.
  intros Hb Hh w r w'. rewrite try_except_run.
  destruct (body w) as [[a | e] w1] eqn:E; specialize (Hb _ _ _ E).
  - now intros [= <- <-].
  - destruct e as [x | |]; cbn [select except_Exception].
    + intros H. apply Hh in H. lia.
    + now intros [= <- <-].
    + now intros [= <- <-].
Qed.

(** An event of the first kind when [m] returns, then the line of the
    second kind. *)
Lemma balanced_then_log {A B : Type} (m : M A) (line : message_line)
    (style : string) (rest : M B) :
  adds_on_return p 1 m → adds q 0 m →
  p (Log line style) = false → q (Log line style) = true →
  balanced p q rest →
  balanced p q (m;; log line style;; rest).
Proof.
  intros Hp Hq Hpl Hql Hrest w r w'. rewrite bind_run.
  destruct (m w) as [[a | e] w1] eqn:E;
    pose proof (Hp _ _ _ E) as Hp1; pose proof (Hq _ _ _ E) as Hq1;
    cbn beta iota in Hp1.
  - rewrite bind_run, log_run. intros H. apply Hrest in H.
    cbn [record trace] in H. rewrite !tally_snoc, Hpl, Hql in H. lia.
  - intros [= <- <-]. lia.
Qed.

End Balance.

(** ** Submits and what is logged about them *)

Ltac closed_window :=
  try (destruct (is_open _ _); [intros [= _ <-] | discriminate]; reflexivity).

Section Submits.
Variable env : op → nat → answer.

(** The key press and its fallback (lines 201-207): one submit when the
    step returns, none when it raises. *)
Lemma submit_step_submits :
  adds_on_return is_submit 1
    (try_except (send_keys_ENTER env)
       [except_Exception (λ _, until_send_button env;; click env)]).
Proof.
  apply adds_on_return_try.
  - apply adds_on_return_syscall;
      [reflexivity | reflexivity | apply in_window_trace].
  - intros _. apply adds_on_return_bind.
    + unfold until_send_button. count_tac.
    + intros _. apply adds_on_return_syscall;
        [reflexivity | reflexivity | apply in_window_trace].
Qed.

Lemma submit_step_keeps (p : event → bool) :
  (∀ o r, p (Call o r) = false) →
  adds p 0
    (try_except (send_keys_ENTER env)
       [except_Exception (λ _, until_send_button env;; click env)]).
Proof.
  intros Hp. unfold send_keys_ENTER, until_send_button, click.
  apply adds_try_Exception; [| intros _; apply adds_bind; [| intros _]];
    apply (adds_syscall _ _ _ _ false);
    solve [intros r; apply Hp | apply in_window_trace].
Qed.

Lemma attempt_body_submits (name phone url : string) (main_window : handle)
    (is_reply : bool) :
  adds_upto is_submit 1
    (attempt_body env name phone url main_window is_reply).
Proof.
  unfold attempt_body.
  do 6 (apply adds_upto_bind;
        [unfold_driver; count_tac; closed_window | intros ?]).
  apply adds_upto_then; [apply submit_step_submits | intros _].
  unfold_driver. count_tac; closed_window.
Qed.

(** The handler of a failed attempt logs, looks at the windows, closes
    one, switches and sleeps: it adds no event of another kind. *)
Lemma on_failure_keeps (p : event → bool) (attempt : Z) (phone : string)
    (main_window : handle) (e : error) :
  p (Log (AttemptFailed attempt phone e) "yellow") = false →
  (∀ r, p (Call WindowHandles r) = false) →
  (∀ r, p (Call Close r) = false) →
  (∀ r, p (Call (SwitchToWindow main_window) r) = false) →
  p (Sleep (Seconds 5)) = false →
  adds p 0 (on_failure env attempt phone main_window e).
Proof.
  intros Hl Hw Hc Hs Hp. apply emits_adds.
  unfold on_failure, cleanup. unfold_driver. emits_tac; auto.
Qed.

Lemma attempt_turn_submits (name phone url : string) (main_window : handle)
    (is_reply : bool) (attempt : Z) (w w' : world) (r : result (option bool)) :
  attempt_turn env name phone url main_window is_reply attempt w = (r, w') →
  (submits (trace w) ≤ submits (trace w') ≤ submits (trace w) + 1)%nat
  ∧ ∀ b, r = Ret (Some b) → submits (trace w') = (submits (trace w) + 1)%nat.
Proof.
  unfold attempt_turn. rewrite try_except_run, bind_run.
  destruct (attempt_body env name phone url main_window is_reply w)
    as [[b | e] w1] eqn:E;
    destruct (attempt_body_submits _ _ _ _ _ _ _ _ E) as [Hle Heq];
    unfold tally in Hle, Heq; fold (submits (trace w1)) in Hle, Heq;
    fold (submits (trace w)) in Hle, Heq.
  - intros [= <- <-]. split; [exact Hle |]. intros _ _. exact (Heq b eq_refl).
  - destruct e as [x | |]; cbn [select except_Exception].
    + rewrite bind_run.
      destruct (on_failure env attempt phone main_window x w1)
        as [[u | e] w2] eqn:E2;
        pose proof (on_failure_keeps is_submit _ _ _ _ eq_refl
                      ltac:(now intros []) ltac:(now intros [])
                      ltac:(now intros []) eq_refl _ _ _ E2) as Hk;
        unfold tally in Hk; fold (submits (trace w2)) in Hk;
        fold (submits (trace w1)) in Hk;
        intros [= <- <-]; (split; [lia | discriminate]).
    + intros [= <- <-]. split; [exact Hle | discriminate].
    + intros [= <- <-]. split; [exact Hle | discriminate].
Qed.

Lemma attempts_tail_keeps (p : event → bool) (phone : string) :
  p (Log (FailedToSend phone) "red") = false →
  (∀ r, p (Call (Beep 400 400) r) = false) →
  adds p 0 (log (FailedToSend phone) "red";; beep_fail env;; mret false).
Proof.
  intros Hl Hb. apply emits_adds. unfold_driver. emits_tac; auto.
Qed.

Lemma attempts_submits (name phone url : string) (main_window : handle)
    (is_reply : bool) (numbers : list Z) :
  ∀ w r w',
    attempts env name phone url main_window is_reply numbers w = (r, w') →
    (submits (trace w') + attempts_made (trace w)
     ≤ submits (trace w) + attempts_made (trace w'))%nat
    ∧ (r = Ret true → (submits (trace w) < submits (trace w'))%nat).
Proof.
  induction numbers as [| attempt rest IH]; intros w r w'; cbn [attempts].
  - intros H.
    pose proof (attempts_tail_keeps is_submit phone eq_refl
                  ltac:(now intros []) _ _ _ H) as Hs.
    pose proof (attempts_tail_keeps is_attempt phone eq_refl
                  ltac:(now intros []) _ _ _ H) as Ha.
    unfold tally in Hs, Ha. unfold submits, attempts_made.
    split; [lia |]. intros ->.
    apply bind_ret_inv in H as (? & ? & _ & H).
    apply bind_ret_inv in H as (? & ? & _ & H). discriminate.
  - rewrite bind_run.
    destruct (attempt_turn env name phone url main_window is_reply attempt w)
      as [t w1] eqn:E.
    pose proof (attempt_turn_attempts _ _ _ _ _ _ _ _ _ _ E) as Ha.
    destruct (attempt_turn_submits _ _ _ _ _ _ _ _ _ E) as [Hle Heq].
    destruct t as [[b |] | e].
    + intros [= <- <-]. specialize (Heq b eq_refl).
      unfold submits, attempts_made, tally in *. split; lia.
    + intros H. destruct (IH _ _ _ H) as [Hs Htrue].
      unfold submits, attempts_made, tally in *.
      split; [lia |]. intros Hr. specialize (Htrue Hr). lia.
    + intros [= <- <-]. unfold submits, attempts_made, tally in *.
      split; [lia | discriminate].
Qed.

(** Every submit is logged as sent, and nothing else is. *)
Lemma attempt_body_balanced (name phone url : string) (main_window : handle)
    (is_reply : bool) :
  balanced is_submit is_sent_log
    (attempt_body env name phone url main_window is_reply).
Proof.
  unfold attempt_body.
  do 6 (apply balanced_bind;
        [apply balanced_neither; unfold_driver; count_tac; closed_window
        | intros ?]).
  apply balanced_then_log;
    [apply submit_step_submits
    | apply submit_step_keeps; reflexivity
    | reflexivity | reflexivity |].
  apply balanced_neither; unfold_driver; count_tac; closed_window.
Qed.

Lemma attempt_turn_balanced (name phone url : string) (main_window : handle)
    (is_reply : bool) (attempt : Z) :
  balanced is_submit is_sent_log
    (attempt_turn env name phone url main_window is_reply attempt).
Proof.
  unfold attempt_turn. apply balanced_try.
  - apply balanced_bind; [apply attempt_body_balanced |].
    intros b. apply balanced_neither; apply adds_ret.
  - intros x. apply balanced_bind; [| intros _; apply balanced_neither;
                                              apply adds_ret].
    apply balanced_neither; apply on_failure_keeps;
      solve [reflexivity | now intros []].
Qed.

Lemma attempts_balanced (name phone url : string) (main_window : handle)
    (is_reply : bool) (numbers : list Z) :
  balanced is_submit is_sent_log
    (attempts env name phone url main_window is_reply numbers).
Proof.
  induction numbers as [| attempt rest IH]; cbn [attempts].
  - apply balanced_neither; apply attempts_tail_keeps;
      solve [reflexivity | now intros []].
  - apply balanced_bind; [apply attempt_turn_balanced |].
    intros [b |]; [apply balanced_neither; apply adds_ret | exact IH].
Qed.

(** The steps of [send_whatsapp_message] before its loop add nothing but
    the call that reads the window handle. *)
Lemma send_unfolds (name phone raw_message : string) (retry_limit : Z)
    (is_reply : bool) (w : world) :
  ∃ message,
    (if is_reply then message = raw_message
     else render_message_template raw_message name phone w = (Ret message, w))
    ∧ send_whatsapp_message env name phone raw_message retry_limit is_reply w
      = (main_window ← current_window_handle env;
         attempts env name phone (contact_url phone message) main_window
           is_reply (range 1 (retry_limit + 1))) w.
Proof.
  unfold send_whatsapp_message. rewrite bind_run.
  destruct is_reply; cbn [negb].
  - exists raw_message. split; reflexivity.
  - rewrite render_message_template_run.
    destruct (safe_substitute_total
                (substitutions name phone (today w) (now w)) raw_message)
      as [out ->]. exists out. split; reflexivity.
Qed.

Lemma current_window_handle_keeps (p : event → bool) :
  (∀ r, p (Call CurrentWindowHandle r) = false) →
  adds p 0 (current_window_handle env).
Proof.
  intros Hp. apply (adds_syscall _ _ _ _ false);
    [exact Hp | apply in_window_trace].
Qed.

End Submits.


(** ** Pauses and delays *)

Section Pacing.
Variable env : op → nat → answer.

(** The events of the body of an attempt. *)
Lemma attempt_body_emits (P : event → Prop) (name phone url : string)
    (main_window : handle) (is_reply : bool) :
  (∀ o r, P (Call o r)) → P (Log (Sent name phone) "green") →
  P (Sleep (Uniform 1 3)) → P (Sleep (Seconds 2)) →
  (is_reply = false → P (Sleep (Uniform MIN_DELAY_SEC MAX_DELAY_SEC))) →
  emits P (attempt_body env name phone url main_window is_reply).
Proof.
  intros Hc Hl H1 H2 H3. unfold attempt_body. unfold_driver.
  destruct is_reply; cbn [negb]; emits_tac; auto.
Qed.

Lemma on_failure_emits (P : event → Prop) (attempt : Z) (phone : string)
    (main_window : handle) (e : error) :
  (∀ o r, P (Call o r)) → P (Log (AttemptFailed attempt phone e) "yellow") →
  P (Sleep (Seconds 5)) →
  emits P (on_failure env attempt phone main_window e).
Proof.
  intros Hc Hl Hs. unfold on_failure, cleanup. unfold_driver.
  emits_tac; auto.
Qed.

Lemma attempt_body_keeps (p : event → bool) (name phone url : string)
    (main_window : handle) (is_reply : bool) :
  (∀ o r, p (Call o r) = false) → p (Log (Sent name phone) "green") = false →
  p (Sleep (Uniform 1 3)) = false → p (Sleep (Seconds 2)) = false →
  (is_reply = false → p (Sleep (Uniform MIN_DELAY_SEC MAX_DELAY_SEC)) = false) →
  adds p 0 (attempt_body env name phone url main_window is_reply).
Proof. intros. now apply emits_adds, attempt_body_emits. Qed.

Lemma on_failure_keeps_calls (p : event → bool) (attempt : Z) (phone : string)
    (main_window : handle) (e : error) :
  (∀ o r, p (Call o r) = false) →
  p (Log (AttemptFailed attempt phone e) "yellow") = false →
  p (Sleep (Seconds 5)) = false →
  adds p 0 (on_failure env attempt phone main_window e).
Proof. intros. now apply emits_adds, on_failure_emits. Qed.

Lemma attempt_body_rate (name phone url : string) (main_window : handle)
    (is_reply : bool) :
  adds_on_return is_rate_delay (if is_reply then 0 else 1)
    (attempt_body env name phone url main_window is_reply).
Proof.
  unfold attempt_body.
  do 6 (apply adds_on_return_bind;
        [unfold_driver; count_tac; closed_window | intros ?]).
  apply adds_on_return_bind;
    [apply submit_step_keeps; reflexivity | intros _].
  do 5 (apply adds_on_return_bind;
        [unfold_driver; count_tac; closed_window | intros ?]).
  apply adds_on_return_last.
  destruct is_reply; cbn [negb]; apply adds_returning;
    solve [apply adds_ret | exact (adds_sleep _ _)
          | apply raises_only_ret | apply raises_only_sleep].
Qed.

Lemma on_failure_pause (attempt : Z) (phone : string) (main_window : handle)
    (e : error) :
  adds_on_return is_retry_pause 1
    (on_failure env attempt phone main_window e).
Proof.
  unfold on_failure.
  apply adds_on_return_bind; [exact (adds_log _ _ _) | intros _].
  apply adds_on_return_bind; [| intros _].
  - apply emits_adds. unfold cleanup. unfold_driver. emits_tac; auto.
  - apply adds_returning; [exact (adds_sleep _ _) | apply raises_only_sleep].
Qed.

Lemma on_failure_logs (attempt : Z) (phone : string) (main_window : handle)
    (e : error) :
  adds is_attempt_failed_log 1 (on_failure env attempt phone main_window e).
Proof.
  unfold on_failure. apply adds_bind; [exact (adds_log _ _ _) | intros _].
  apply emits_adds. unfold cleanup. unfold_driver. emits_tac; auto.
Qed.

(** One turn of the loop, by its outcome: a turn that returns from the
    function pauses for no retry and logs no failure; a turn that lets the
    loop go on has logged one failure and paused once, and has not reached
    the delay that follows a message. *)
Lemma attempt_turn_pacing (name phone url : string) (main_window : handle)
    (is_reply : bool) (attempt : Z) (w w' : world) (r : option bool) :
  attempt_turn env name phone url main_window is_reply attempt w
  = (Ret r, w') →
  tally is_retry_pause (trace w')
  = (tally is_retry_pause (trace w)
     + match r with Some _ => 0 | None => 1 end)%nat
  ∧ tally is_attempt_failed_log (trace w')
    = (tally is_attempt_failed_log (trace w)
       + match r with Some _ => 0 | None => 1 end)%nat
  ∧ tally is_rate_delay (trace w')
    = (tally is_rate_delay (trace w)
       + match r with
         | Some _ => if is_reply then 0 else 1
         | None => 0
         end)%nat.
Proof.
  unfold attempt_turn. rewrite try_except_run, bind_run.
  destruct (attempt_body env name phone url main_window is_reply w)
    as [[b | e] w1] eqn:E.
  - intros [= <- <-].
    pose proof (attempt_body_keeps is_retry_pause name phone url
                  main_window is_reply ltac:(reflexivity) eq_refl eq_refl
                  eq_refl ltac:(reflexivity) _ _ _ E) as H1.
    pose proof (attempt_body_keeps is_attempt_failed_log name phone url
                  main_window is_reply ltac:(reflexivity) eq_refl eq_refl
                  eq_refl ltac:(reflexivity) _ _ _ E) as H2.
    pose proof (attempt_body_rate _ _ _ _ _ _ _ _ E) as H3.
    cbn beta iota in H3. repeat split; lia.
  - pose proof (attempt_body_keeps is_retry_pause name phone url
                  main_window is_reply ltac:(reflexivity) eq_refl eq_refl
                  eq_refl ltac:(reflexivity) _ _ _ E) as H1.
    pose proof (attempt_body_keeps is_attempt_failed_log name phone url
                  main_window is_reply ltac:(reflexivity) eq_refl eq_refl
                  eq_refl ltac:(reflexivity) _ _ _ E) as H2.
    pose proof (attempt_body_rate _ _ _ _ _ _ _ _ E) as H3.
    cbn beta iota in H3.
    destruct e as [x | |]; cbn [select except_Exception];
      [| discriminate | discriminate].
    rewrite bind_run.
    destruct (on_failure env attempt phone main_window x w1)
      as [[u | e] w2] eqn:E2; [| discriminate].
    intros [= <- <-].
    pose proof (on_failure_pause _ _ _ _ _ _ _ E2) as H4.
    pose proof (on_failure_logs _ _ _ _ _ _ _ E2) as H5.
    pose proof (on_failure_keeps_calls is_rate_delay attempt phone
                  main_window x ltac:(reflexivity) eq_refl eq_refl
                  _ _ _ E2) as H6.
    cbn beta iota in H4. repeat split; lia.
Qed.

Lemma attempts_pacing (name phone url : string) (main_window : handle)
    (is_reply : bool) (numbers : list Z) :
  ∀ w b w',
    attempts env name phone url main_window is_reply numbers w = (Ret b, w') →
    (tally is_retry_pause (trace w') + attempts_made (trace w)
     + (if b then 1 else 0)
     = tally is_retry_pause (trace w) + attempts_made (trace w'))%nat
    ∧ (tally is_attempt_failed_log (trace w') + attempts_made (trace w)
       + (if b then 1 else 0)
       = tally is_attempt_failed_log (trace w) + attempts_made (trace w'))%nat
    ∧ tally is_rate_delay (trace w')
      = (tally is_rate_delay (trace w)
         + if b && negb is_reply then 1 else 0)%nat.
Proof.
  induction numbers as [| attempt rest IH]; intros w b w'; cbn [attempts].
  - intros H.
    pose proof (attempts_tail_keeps env is_retry_pause phone eq_refl
                  ltac:(reflexivity) _ _ _ H) as H1.
    pose proof (attempts_tail_keeps env is_attempt_failed_log phone eq_refl
                  ltac:(reflexivity) _ _ _ H) as H2.
    pose proof (attempts_tail_keeps env is_rate_delay phone eq_refl
                  ltac:(reflexivity) _ _ _ H) as H3.
    pose proof (attempts_tail_keeps env is_attempt phone eq_refl
                  ltac:(reflexivity) _ _ _ H) as H4.
    apply bind_ret_inv in H as (? & ? & _ & H).
    apply bind_ret_inv in H as (? & ? & _ & H). injection H as <- _.
    unfold attempts_made, tally in *. cbn [andb]. repeat split; lia.
  - rewrite bind_run.
    destruct (attempt_turn env name phone url main_window is_reply attempt w)
      as [[t | e] w1] eqn:E; [| discriminate].
    pose proof (attempt_turn_attempts _ _ _ _ _ _ _ _ _ _ E) as Ha.
    destruct (attempt_turn_pacing _ _ _ _ _ _ _ _ _ E) as (H1 & H2 & H3).
    destruct t as [b' |].
    + intros [= <- <-]. apply attempt_turn_done in E as (-> & _).
      unfold attempts_made, tally in *.
      destruct is_reply; cbn [andb negb]; repeat split; lia.
    + intros H. destruct (IH _ _ _ H) as (I1 & I2 & I3).
      unfold attempts_made, tally in *. repeat split; lia.
Qed.

End Pacing.

(** X15: when [send_whatsapp_message] returns, it has slept 5 seconds and
    logged one failure line for each attempt but the successful one, and it
    has slept the delay between messages once if it returns [true] for a
    message that is no reply, and not at all otherwise. *)
Theorem send_pauses_and_delays (env : op → nat → answer)
    (name phone raw_message : string) (retry_limit : Z) (is_reply : bool)
    (w w' : world) (b : bool) :
  send_whatsapp_message env name phone raw_message retry_limit is_reply w
  = (Ret b, w') →
  (tally is_retry_pause (trace w') + attempts_made (trace w)
   + (if b then 1 else 0)
   = tally is_retry_pause (trace w) + attempts_made (trace w'))%nat
  ∧ (tally is_attempt_failed_log (trace w') + attempts_made (trace w)
     + (if b then 1 else 0)
     = tally is_attempt_failed_log (trace w) + attempts_made (trace w'))%nat
  ∧ tally is_rate_delay (trace w')
    = (tally is_rate_delay (trace w)
       + if b && negb is_reply then 1 else 0)%nat.
Proof.
  destruct (send_unfolds env name phone raw_message retry_limit is_reply w)
    as (message & _ & ->).
  intros H. apply bind_ret_inv in H as (mw & w1 & Ec & H).
  pose proof (current_window_handle_keeps env is_retry_pause
                ltac:(reflexivity) _ _ _ Ec) as H1.
  pose proof (current_window_handle_keeps env is_attempt_failed_log
                ltac:(reflexivity) _ _ _ Ec) as H2.
  pose proof (current_window_handle_keeps env is_rate_delay
                ltac:(reflexivity) _ _ _ Ec) as H3.
  pose proof (current_window_handle_keeps env is_attempt
                ltac:(reflexivity) _ _ _ Ec) as H4.
  destruct (attempts_pacing _ _ _ _ _ _ _ _ _ _ H) as (I1 & I2 & I3).
  unfold attempts_made, tally in *. repeat split; lia.
Qed.

(** The theorem at a send whose first attempt fails after the submit and
    whose second attempt succeeds. *)
Lemma send_pauses_and_delays_witness :
  (tally is_retry_pause
     (trace (snd (send_whatsapp_message Scenario.first_close_fails
                    "Ana" "15551234567" "Hi" 2 false Scenario.ready)))
   + attempts_made (trace Scenario.ready) + 1
   = tally is_retry_pause (trace Scenario.ready)
     + attempts_made
         (trace (snd (send_whatsapp_message Scenario.first_close_fails
                        "Ana" "15551234567" "Hi" 2 false Scenario.ready))))%nat
  ∧ (tally is_attempt_failed_log
       (trace (snd (send_whatsapp_message Scenario.first_close_fails
                      "Ana" "15551234567" "Hi" 2 false Scenario.ready)))
     + attempts_made (trace Scenario.ready) + 1
     = tally is_attempt_failed_log (trace Scenario.ready)
       + attempts_made
           (trace (snd (send_whatsapp_message Scenario.first_close_fails
                          "Ana" "15551234567" "Hi" 2 false Scenario.ready))))%nat
  ∧ tally is_rate_delay
      (trace (snd (send_whatsapp_message Scenario.first_close_fails
                     "Ana" "15551234567" "Hi" 2 false Scenario.ready)))
    = (tally is_rate_delay (trace Scenario.ready) + 1)%nat.
Proof.
  apply (send_pauses_and_delays Scenario.first_close_fails "Ana" "15551234567"
           "Hi" 2 false Scenario.ready
           (snd (send_whatsapp_message Scenario.first_close_fails
                   "Ana" "15551234567" "Hi" 2 false Scenario.ready)) true).
  vm_compute. reflexivity.
Defined.

(** ** The exceptions that leave [send_whatsapp_message] *)

Section Escapes.
Variable env : op → nat → answer.

(** A call that raises leaves its own event last in the trace; what it
    raises is an error or the interrupt. *)
Lemma syscall_raise_inv {A : Type} (o : op) (act : world → error + (A * world))
    (w w' : world) (e : exn) :
  syscall env o act w = (Raise e, w') →
  (e = KeyboardInterrupt ∨ ∃ x, e = Err x)
  ∧ w' = record (Call o (Some e)) w.
Proof.
  unfold syscall. destruct (env o _).
  - destruct (act w) as [x | [a w1]]; intros [= <- <-]; eauto.
  - intros [= <- <-]. eauto.
  - intros [= <- <-]. eauto.
Qed.

Lemma raises_only_syscall_no_exit {A : Type} (o : op)
    (act : world → error + (A * world)) :
  raises_only (λ e, ∀ code, e ≠ SystemExit code) (syscall env o act).
Proof.
  intros w e w' H. apply syscall_raise_inv in H as [[-> | [x ->]] _];
    discriminate.
Qed.

Lemma attempt_turn_no_exit (name phone url : string) (main_window : handle)
    (is_reply : bool) (attempt : Z) :
  raises_only (λ e, ∀ code, e ≠ SystemExit code)
    (attempt_turn env name phone url main_window is_reply attempt).
Proof.
  unfold attempt_turn, attempt_body, on_failure, cleanup. unfold_driver.
  repeat first
    [ apply raises_only_bind; [| intros ?]
    | apply raises_only_syscall_no_exit
    | apply raises_only_lift; intros ? ?%last_item_error ? ->; discriminate
    | apply raises_only_sleep
    | apply raises_only_log
    | apply raises_only_ret
    | apply raises_only_if
    | apply raises_only_try_same; [| intros ?] ].
Qed.

(** A turn of the loop lets nothing but the interrupt out. *)
Lemma attempt_turn_interrupt_only (name phone url : string)
    (main_window : handle) (is_reply : bool) (attempt : Z) (w w' : world)
    (e : exn) :
  attempt_turn env name phone url main_window is_reply attempt w
  = (Raise e, w') →
  e = KeyboardInterrupt.
Proof.
  intros H.
  pose proof (attempt_turn_quiet env _ _ _ _ _ _ _ _ _ H) as Hq.
  pose proof (attempt_turn_no_exit _ _ _ _ _ _ _ _ _ H) as Hx.
  destruct e as [x | | code]; [discriminate | reflexivity |].
  now destruct (Hx code).
Qed.

Lemma attempts_raise_inv (name phone url : string) (main_window : handle)
    (is_reply : bool) (numbers : list Z) :
  ∀ w e w',
    attempts env name phone url main_window is_reply numbers w
    = (Raise e, w') →
    e = KeyboardInterrupt
    ∨ ∃ x tr, e = Err x
              ∧ trace w' = tr ++ [Log (FailedToSend phone) "red";
                                  Call (Beep 400 400) (Some (Err x))].
Proof.
  induction numbers as [| attempt rest IH]; intros w e w'; cbn [attempts].
  - rewrite bind_run, log_run, bind_run. unfold beep_fail, call.
    destruct (syscall env (Beep 400 400) _ _) as [[u | e'] w1] eqn:E;
      [discriminate |].
    intros [= <- <-].
    apply syscall_raise_inv in E as [[-> | [x ->]] ->]; [now left | right].
    exists x, (trace w). cbn [record trace]. now rewrite <- app_assoc.
  - rewrite bind_run.
    destruct (attempt_turn env name phone url main_window is_reply attempt w)
      as [[[b |] | e'] w1] eqn:E.
    + discriminate.
    + apply IH.
    + intros [= <- <-]. left. exact (attempt_turn_interrupt_only _ _ _ _ _ _ _ _ _ E).
Qed.

End Escapes.



(** ** The two halves of the workflow *)

Section Workflow.
Variable env : op → nat → answer.

Lemma workflow_split (w : world) :
  workflow env w
  = (contacts ← sign_in_and_load env; send_and_report env contacts) w.
Proof.
  unfold workflow, sign_in_and_load, send_and_report.
  rewrite !bind_run.
  destruct (driver_get env w) as [[u | e] w1]; [| reflexivity].
  rewrite !bind_run.
  destruct (wait_for_whatsapp_login env 30 w1) as [[li | e] w2];
    [| reflexivity].
  rewrite !bind_run.
  destruct ((if negb li then prompt_qr_scan env else mret tt) w2)
    as [[u' | e] w3]; [| reflexivity].
  rewrite !bind_run.
  destruct (load_contacts_from_csv env CSV_FILE w3) as [[cs | e] w4];
    reflexivity.
Qed.

Lemma emits_driver_quit (P : event → Prop) :
  P (Call Quit None) → emits P (driver_quit).
Proof. intros H w r w' [= _ <-]. exists [Call Quit None]. auto. Qed.

Lemma read_rows_emits (P : event → Prop) (rows : list row) :
  (∀ r, P (Call NextRow r)) → (∀ raw, P (Log (InvalidPhone raw) "yellow")) →
  ∀ contacts, emits P (read_rows env rows contacts).
Proof.
  intros Hc Hl. induction rows as [| r rest IH]; intros contacts;
    cbn [read_rows].
  - apply emits_ret.
  - unfold call, read_row, strip_value.
    apply emits_bind; [emits_tac; auto | intros _].
    apply emits_bind; [| intros ?; apply IH].
    destruct (row_get r "Phone"), (row_get r "Name"), (row_get r "Message");
      emits_tac; auto.
Qed.

Lemma load_contacts_emits (P : event → Prop) (path : string) :
  (∀ r, P (Call (OpenCsv path) r)) → (∀ r, P (Call NextRow r)) →
  (∀ raw, P (Log (InvalidPhone raw) "yellow")) →
  (∀ e, P (Log (CsvError path e) "red")) → P (Log NoValidContacts "red") →
  emits P (load_contacts_from_csv env path).
Proof.
  intros Ho Hn Hi He Hv. unfold load_contacts_from_csv, open_csv.
  apply emits_bind.
  - apply emits_try_Exception; [| intros x; emits_tac; auto].
    apply emits_bind; [| intros rows; now apply read_rows_emits].
    apply emits_syscall; [exact Ho |].
    intros w a w1. destruct (disk _ !! path); [intros [= _ <-] | discriminate].
    reflexivity.
  - intros [| c cs]; emits_tac; auto.
Qed.

Lemma wait_for_whatsapp_login_emits (P : event → Prop) (timeout : Z) :
  (∀ r, P (Call (UntilChatList timeout) r)) →
  emits P (wait_for_whatsapp_login env timeout).
Proof.
  intros Hc. unfold wait_for_whatsapp_login, until_chat_list.
  apply emits_try_except.
  - emits_tac. auto.
  - intros e h Hs. apply select_Timeout in Hs as ->. apply emits_ret.
Qed.

Lemma prompt_qr_scan_emits (P : event → Prop) :
  P (Log ScanQR "cyan") → (∀ r, P (Call Input r)) →
  (∀ r, P (Call (UntilChatList 30) r)) → P (Log LoginFailed "red") →
  P (Call Quit None) →
  emits P (prompt_qr_scan env).
Proof.
  intros H1 H2 H3 H4 H5. unfold prompt_qr_scan, call.
  apply emits_bind; [now apply emits_log | intros _].
  apply emits_bind; [emits_tac; auto | intros _].
  apply emits_bind; [now apply wait_for_whatsapp_login_emits | intros li].
  destruct li; cbn [negb]; [apply emits_ret |].
  apply emits_bind; [now apply emits_log | intros _].
  apply emits_bind; [now apply emits_driver_quit | intros _].
  apply emits_raise.
Qed.

(** Signing in and loading the contacts touches the page, the keyboard
    and the file, and nothing else. *)
Lemma sign_in_and_load_emits :
  emits (λ ev, is_setup_event ev = true) (sign_in_and_load env).
Proof.
  unfold sign_in_and_load, driver_get.
  apply emits_bind; [emits_tac; reflexivity | intros _].
  apply emits_bind;
    [apply wait_for_whatsapp_login_emits; reflexivity | intros li].
  apply emits_bind; [| intros _; now apply load_contacts_emits].
  destruct li; cbn [negb]; [apply emits_ret |].
  now apply prompt_qr_scan_emits.
Qed.

Lemma sign_in_and_load_keeps (p : event → bool) :
  (∀ ev, is_setup_event ev = true → p ev = false) →
  adds p 0 (sign_in_and_load env).
Proof.
  intros Hp. apply emits_adds.
  exact (emits_weaken _ _ _ Hp sign_in_and_load_emits).
Qed.

End Workflow.

(** ** What a completed workflow reports *)

Section Report.
Variable env : op → nat → answer.

Lemma attempt_turn_emits (P : event → Prop) (name phone url : string)
    (main_window : handle) (is_reply : bool) (attempt : Z) :
  (∀ o r, P (Call o r)) → P (Log (Sent name phone) "green") →
  (∀ e, P (Log (AttemptFailed attempt phone e) "yellow")) →
  (∀ d, P (Sleep d)) →
  emits P (attempt_turn env name phone url main_window is_reply attempt).
Proof.
  intros Hc Hs Hf Hd. unfold attempt_turn.
  apply emits_try_Exception.
  - apply emits_bind; [| intros b; apply emits_ret].
    apply attempt_body_emits; auto.
  - intros x. apply emits_bind; [| intros _; apply emits_ret].
    apply on_failure_emits; auto.
Qed.

Lemma attempts_emit_their_events (name phone url : string)
    (main_window : handle) (is_reply : bool) (numbers : list Z) :
  emits (λ ev, is_attempt_event ev = true)
    (attempts env name phone url main_window is_reply numbers).
Proof.
  induction numbers as [| attempt rest IH]; cbn [attempts].
  - unfold_driver. emits_tac; reflexivity.
  - apply emits_bind; [| intros [b |]; [apply emits_ret | exact IH]].
    unfold attempt_turn, attempt_body, on_failure, cleanup. unfold_driver.
    emits_tac; reflexivity.
Qed.

(** A send reads the window handle once, whatever comes of it. *)
Lemma send_reads_the_handle_once (name phone raw_message : string)
    (retry_limit : Z) (is_reply : bool) :
  adds (is_call CurrentWindowHandle) 1
    (send_whatsapp_message env name phone raw_message retry_limit is_reply).
Proof.
  intros w r w'.
  destruct (send_unfolds env name phone raw_message retry_limit is_reply w)
    as (message & _ & ->).
  revert r w'. apply adds_bind.
  - apply (adds_syscall _ _ _ _ true); [reflexivity | apply in_window_trace].
  - intros mw. apply emits_adds.
    refine (emits_weaken _ _ _ _ (attempts_emit_their_events _ _ _ _ _ _)).
    intros [[] r | l s | d] H; first [discriminate H | reflexivity].
Qed.

(** The line that gives a message up is logged when the loop ends without
    a success, and then only. *)
Lemma attempts_report_failure (name phone url : string) (main_window : handle)
    (is_reply : bool) (numbers : list Z) :
  ∀ w b w',
    attempts env name phone url main_window is_reply numbers w = (Ret b, w') →
    tally is_failed_to_send_log (trace w')
    = (tally is_failed_to_send_log (trace w) + if b then 0 else 1)%nat.
Proof.
  induction numbers as [| attempt rest IH]; intros w b w'; cbn [attempts].
  - rewrite bind_run, log_run, bind_run. unfold beep_fail, call.
    destruct (syscall env (Beep 400 400) _ _) as [[u | e] w1] eqn:E;
      [| discriminate].
    intros [= <- <-]. apply syscall_ret_inv in E as (w0 & Hw0 & ->).
    injection Hw0 as _ <-. cbn [record trace]. rewrite !tally_snoc.
    cbn [is_failed_to_send_log]. lia.
  - rewrite bind_run.
    destruct (attempt_turn env name phone url main_window is_reply attempt w)
      as [[t | e] w1] eqn:E; [| discriminate].
    pose proof (emits_adds is_failed_to_send_log _
                  (attempt_turn_emits (λ ev, is_failed_to_send_log ev = false)
                     name phone url main_window is_reply attempt
                     ltac:(reflexivity) eq_refl ltac:(reflexivity)
                     ltac:(reflexivity)) _ _ _ E) as Hk.
    destruct t as [b' |].
    + intros [= <- <-]. apply attempt_turn_done in E as (-> & _). lia.
    + intros H. apply IH in H. lia.
Qed.

Lemma send_reports_failure (name phone raw_message : string)
    (retry_limit : Z) (is_reply : bool) (w w' : world) (b : bool) :
  send_whatsapp_message env name phone raw_message retry_limit is_reply w
  = (Ret b, w') →
  tally is_failed_to_send_log (trace w')
  = (tally is_failed_to_send_log (trace w) + if b then 0 else 1)%nat.
Proof.
  destruct (send_unfolds env name phone raw_message retry_limit is_reply w)
    as (message & _ & ->).
  intros H. apply bind_ret_inv in H as (mw & w1 & Ec & H).
  pose proof (current_window_handle_keeps env is_failed_to_send_log
                ltac:(reflexivity) _ _ _ Ec) as Hk.
  apply attempts_report_failure in H. lia.
Qed.

(** The loop over the contacts: every contact is counted as sent or
    reported as failed, and each gets one send. *)
Lemma send_all_counts (contacts : list contact) :
  ∀ count w count' w',
    send_all env contacts count w = (Ret count', w') →
    (count' + Z.of_nat (tally is_failed_to_send_log (trace w'))
     = count + Z.of_nat (length contacts)
       + Z.of_nat (tally is_failed_to_send_log (trace w)))%Z
    ∧ (count ≤ count' ≤ count + Z.of_nat (length contacts))%Z
    ∧ calls CurrentWindowHandle (trace w')
      = (calls CurrentWindowHandle (trace w) + length contacts)%nat.
Proof.
  induction contacts as [| c rest IH]; intros count w count' w';
    cbn [send_all].
  - intros [= <- <-]. cbn [length]. repeat split; lia.
  - intros H. apply bind_ret_inv in H as (b & w1 & Es & H).
    pose proof (send_reports_failure _ _ _ _ _ _ _ _ Es) as Hf.
    pose proof (send_reads_the_handle_once _ _ _ _ _ _ _ _ Es) as Hc.
    unfold tally in Hc. fold (calls CurrentWindowHandle (trace w1)) in Hc.
    fold (calls CurrentWindowHandle (trace w)) in Hc.
    apply IH in H as (H1 & H2 & H3). cbn [length].
    destruct b; repeat split; lia.
Qed.

(** No send opens more tabs than its retry limit allows. *)
Lemma send_attempts_le (name phone raw_message : string) (retry_limit : Z)
    (is_reply : bool) (w w' : world) (r : result bool) :
  send_whatsapp_message env name phone raw_message retry_limit is_reply w
  = (r, w') →
  (attempts_made (trace w')
   ≤ attempts_made (trace w) + Z.to_nat retry_limit)%nat.
Proof.
  destruct (send_unfolds env name phone raw_message retry_limit is_reply w)
    as (message & _ & ->).
  rewrite bind_run.
  destruct (current_window_handle env w) as [[mw | e] w1] eqn:Ec;
    pose proof (current_window_handle_keeps env is_attempt
                  ltac:(reflexivity) _ _ _ Ec) as Hk;
    unfold tally in Hk; fold (attempts_made (trace w1)) in Hk;
    fold (attempts_made (trace w)) in Hk.
  - intros H. apply attempts_attempts in H as (Hle & _).
    rewrite range_length in Hle. lia.
  - intros [= _ <-]. lia.
Qed.

Lemma send_all_attempts_le (contacts : list contact) :
  ∀ count w r w',
    send_all env contacts count w = (r, w') →
    (attempts_made (trace w')
     ≤ attempts_made (trace w) + 2 * length contacts)%nat.
Proof.
  induction contacts as [| c rest IH]; intros count w r w'; cbn [send_all].
  - intros [= _ <-]. lia.
  - rewrite bind_run.
    destruct (send_whatsapp_message env (name c) (phone c) (message c)
                RETRY_LIMIT false w) as [[b | e] w1] eqn:Es;
      apply send_attempts_le in Es;
      change (Z.to_nat RETRY_LIMIT) with 2 in Es.
    + intros H. apply IH in H. cbn [length]. lia.
    + intros [= _ <-]. cbn [length]. lia.
Qed.

End Report.

(** X17: what a workflow that returns has done.  Either no valid contact
    was found: the last line says so, and no send was started.  Or the last
    line is the summary: its total is the number of sends that were
    started, one per contact; its count and the messages given up as
    failed add up to the total; it is green exactly when the count is the
    total; and at most two tabs were opened per contact. *)
Theorem completed_workflow_reports_every_contact (env : op → nat → answer)
    (w w' : world) :
  workflow env w = (Ret tt, w') →
  ((∃ tr, trace w' = tr ++ [Log NoValidContacts "red"])
   ∧ attempts_made (trace w') = attempts_made (trace w)
   ∧ calls CurrentWindowHandle (trace w')
     = calls CurrentWindowHandle (trace w))
  ∨ ∃ tr count total,
      trace w'
      = tr ++ [Log (Summary count total)
                 (if (count =? total)%Z then "bold green" else "bold yellow")]
      ∧ (0 ≤ count ≤ total)%Z
      ∧ (count + Z.of_nat (tally is_failed_to_send_log (trace w'))
         = total + Z.of_nat (tally is_failed_to_send_log (trace w)))%Z
      ∧ (Z.of_nat (calls CurrentWindowHandle (trace w'))
         = Z.of_nat (calls CurrentWindowHandle (trace w)) + total)%Z
      ∧ (Z.of_nat (attempts_made (trace w'))
         ≤ Z.of_nat (attempts_made (trace w)) + 2 * total)%Z.
Proof.
  rewrite workflow_split. intros H.
  apply bind_ret_inv in H as (contacts & w1 & Hload & Hsend).
  pose proof (sign_in_and_load_keeps env is_failed_to_send_log
                ltac:(intros [[] r | [] s | d] H;
                      first [discriminate H | reflexivity]) _ _ _ Hload)
    as Hf.
  pose proof (sign_in_and_load_keeps env is_attempt
                ltac:(intros [[] r | [] s | d] H;
                      first [discriminate H | reflexivity]) _ _ _ Hload)
    as Ha.
  pose proof (sign_in_and_load_keeps env (is_call CurrentWindowHandle)
                ltac:(intros [[] r | [] s | d] H;
                      first [discriminate H | reflexivity]) _ _ _ Hload)
    as Hc.
  unfold tally in Ha, Hc.
  fold (attempts_made (trace w1)) in Ha. fold (attempts_made (trace w)) in Ha.
  fold (calls CurrentWindowHandle (trace w1)) in Hc.
  fold (calls CurrentWindowHandle (trace w)) in Hc.
  unfold sign_in_and_load in Hload.
  apply bind_ret_inv in Hload as (u & v1 & _ & Hload).
  apply bind_ret_inv in Hload as (li & v2 & _ & Hload).
  apply bind_ret_inv in Hload as (u' & v3 & _ & Hload).
  apply load_contacts_ret_inv in Hload as (rows & x1 & x2 & _ & _ & _ & Hw1).
  destruct contacts as [| c cs]; cbn [send_and_report] in Hsend.
  - injection Hsend as <-. left. split; [| split; lia].
    exists (trace x2). now rewrite Hw1.
  - right. cbv zeta in Hsend.
    apply bind_ret_inv in Hsend as (u1 & y1 & Hlog & Hsend).
    rewrite log_run in Hlog. injection Hlog as _ <-.
    apply bind_ret_inv in Hsend as (count & y2 & Hall & Hsum).
    rewrite log_run in Hsum. injection Hsum as <-.
    pose proof (send_all_attempts_le _ _ _ _ _ _ Hall) as H4.
    apply send_all_counts in Hall as (H1 & H2 & H3).
    change attempts_made with (tally is_attempt) in *.
    cbn [record trace] in H1, H3, H4. rewrite tally_snoc in H1, H4.
    rewrite calls_snoc in H3. cbn in H1, H3, H4.
    exists (trace y2), count, (Z.of_nat (length (c :: cs))).
    cbn [record trace]. split; [reflexivity |].
    rewrite tally_snoc, calls_snoc. cbn [is_failed_to_send_log is_call].
    rewrite (tally_snoc is_attempt). cbn [is_attempt].
    cbn [length] in *. repeat split; lia.
Qed.

(** The theorem at the run of three contacts of which the third fails. *)
Lemma completed_workflow_reports_every_contact_witness :
  let w := started "2026-11-04" "12:30" (<[CSV_FILE := Scenario.four_rows]> ∅)
  in
  let w' := snd (workflow Scenario.third_contact_fails w) in
  ∃ tr count total,
    trace w'
    = tr ++ [Log (Summary count total)
               (if (count =? total)%Z then "bold green" else "bold yellow")]
    ∧ (0 ≤ count ≤ total)%Z
    ∧ (count + Z.of_nat (tally is_failed_to_send_log (trace w'))
       = total + Z.of_nat (tally is_failed_to_send_log (trace w)))%Z
    ∧ (Z.of_nat (calls CurrentWindowHandle (trace w'))
       = Z.of_nat (calls CurrentWindowHandle (trace w)) + total)%Z
    ∧ (Z.of_nat (attempts_made (trace w'))
       ≤ Z.of_nat (attempts_made (trace w)) + 2 * total)%Z.
Proof.
  cbv zeta.
  destruct (completed_workflow_reports_every_contact
              Scenario.third_contact_fails
              (started "2026-11-04" "12:30"
                 (<[CSV_FILE := Scenario.four_rows]> ∅))
              (snd (workflow Scenario.third_contact_fails
                      (started "2026-11-04" "12:30"
                         (<[CSV_FILE := Scenario.four_rows]> ∅)))))
    as [[[tr H] _] | H].
  - vm_compute. reflexivity.
  - exfalso. vm_compute in H.
    apply (f_equal (λ l, List.last l (Sleep (Seconds 0)))) in H.
    rewrite List.last_last in H. discriminate H.
  - exact H.
Defined.

(** ** The ways out of the run *)

Section WaysOut.
Variable env : op → nat → answer.

Lemma raises_only_raise {A : Type} (P : exn → Prop) (e : exn) :
  P e → raises_only P (raise e : M A).
Proof. now intros H w e' w' [= <- _]. Qed.

Lemma raises_only_try_except {A : Type} (P : exn → Prop) (body : M A)
    (cs : list (clause A)) :
  raises_only P body → (∀ e h, select cs e = Some h → raises_only P h) →
  raises_only P (try_except body cs).
Proof.
  intros Hb Hh w e w'. rewrite try_except_run.
  destruct (body w) as [[a | e'] w1] eqn:E; [discriminate |].
  destruct (select cs e') as [h |] eqn:Es.
  - intros H. exact (Hh _ _ Es _ _ _ H).
  - intros [= <- <-]. exact (Hb _ _ _ E).
Qed.

Lemma raises_only_driver_quit (P : exn → Prop) : raises_only P driver_quit.
Proof. intros w e w'. discriminate. Qed.

Lemma syscall_exits_with_1 {A : Type} (o : op)
    (act : world → error + (A * world)) :
  raises_only exits_with_1 (syscall env o act).
Proof.
  intros w e w' H. apply syscall_raise_inv in H as [[-> | [x ->]] _];
    intros code; discriminate.
Qed.

Lemma send_exits_with_1 (name phone raw_message : string) (retry_limit : Z)
    (is_reply : bool) :
  raises_only exits_with_1
    (send_whatsapp_message env name phone raw_message retry_limit is_reply).
Proof.
  intros w e w'.
  destruct (send_unfolds env name phone raw_message retry_limit is_reply w)
    as (message & _ & ->).
  intros H. apply bind_raise_inv in H as [H | (mw & w1 & _ & H)].
  - exact (syscall_exits_with_1 _ _ _ _ _ H).
  - apply attempts_raise_inv in H as [-> | (x & tr & -> & _)];
      intros code; discriminate.
Qed.

Lemma send_all_exits_with_1 (contacts : list contact) :
  ∀ count, raises_only exits_with_1 (send_all env contacts count).
Proof.
  induction contacts as [| c rest IH]; intros count; cbn [send_all].
  - apply raises_only_ret.
  - apply raises_only_bind; [apply send_exits_with_1 | intros b; apply IH].
Qed.

Lemma wait_for_whatsapp_login_exits_with_1 (timeout : Z) :
  raises_only exits_with_1 (wait_for_whatsapp_login env timeout).
Proof.
  unfold wait_for_whatsapp_login, until_chat_list.
  apply raises_only_try_except.
  - apply raises_only_bind; [apply syscall_exits_with_1 |].
    intros _. apply raises_only_ret.
  - intros e h Hs. apply select_Timeout in Hs as ->. apply raises_only_ret.
Qed.

Lemma read_rows_exits_with_1 (rows : list row) :
  ∀ contacts, raises_only exits_with_1 (read_rows env rows contacts).
Proof.
  induction rows as [| r rest IH]; intros contacts; cbn [read_rows].
  - apply raises_only_ret.
  - apply raises_only_bind; [apply syscall_exits_with_1 | intros _].
    apply raises_only_bind; [| intros ?; apply IH].
    unfold read_row, strip_value.
    destruct (row_get r "Phone"), (row_get r "Name"), (row_get r "Message");
      repeat first
        [ apply raises_only_bind; [| intros ?]
        | apply raises_only_ret | apply raises_only_log
        | apply raises_only_if
        | apply raises_only_raise; intros code; discriminate ].
Qed.

Lemma load_contacts_exits_with_1 (path : string) :
  raises_only exits_with_1 (load_contacts_from_csv env path).
Proof.
  unfold load_contacts_from_csv, open_csv.
  apply raises_only_bind.
  - apply raises_only_try_same.
    + apply raises_only_bind; [apply syscall_exits_with_1 |].
      intros rows. apply read_rows_exits_with_1.
    + intros x. apply raises_only_bind; [apply raises_only_log | intros _].
      apply raises_only_raise. intros code. discriminate.
  - intros [| c cs]; [| apply raises_only_ret].
    apply raises_only_bind; [apply raises_only_log | intros _].
    apply raises_only_ret.
Qed.

Lemma prompt_qr_scan_exits_with_1 :
  raises_only exits_with_1 (prompt_qr_scan env).
Proof.
  unfold prompt_qr_scan, call.
  apply raises_only_bind; [apply raises_only_log | intros _].
  apply raises_only_bind; [apply syscall_exits_with_1 | intros _].
  apply raises_only_bind; [apply wait_for_whatsapp_login_exits_with_1 |].
  intros li. destruct li; cbn [negb]; [apply raises_only_ret |].
  apply raises_only_bind; [apply raises_only_log | intros _].
  apply raises_only_bind; [apply raises_only_driver_quit | intros _].
  apply raises_only_raise. now intros code [= <-].
Qed.

(** The workflow never exits with another status than 1. *)
Lemma workflow_exits_with_1 : raises_only exits_with_1 (workflow env).
Proof.
  unfold workflow, driver_get.
  apply raises_only_bind; [apply syscall_exits_with_1 | intros _].
  apply raises_only_bind; [apply wait_for_whatsapp_login_exits_with_1 |].
  intros li. apply raises_only_bind; [| intros _].
  { destruct li; cbn [negb];
      [apply raises_only_ret | apply prompt_qr_scan_exits_with_1]. }
  apply raises_only_bind; [apply load_contacts_exits_with_1 |].
  intros [| c cs]; [apply raises_only_ret |]. cbv zeta.
  apply raises_only_bind; [apply raises_only_log | intros _].
  apply raises_only_bind; [apply send_all_exits_with_1 | intros count].
  apply raises_only_log.
Qed.

(** After the [finally] clause no window is open. *)
Lemma guarded_closes (body : M unit) (w w' : world) (r : result unit) :
  guarded body w = (r, w') → handles (chrome w') = [].
Proof.
  unfold guarded, try_finally.
  destruct (try_except body _ w) as [r1 w1].
  rewrite bind_run, log_run. cbn. now intros [= _ <-].
Qed.

End WaysOut.



(** ** Failures before the [try] statement *)

(** X19: [initialize_driver] runs before the [try] statement.  When the
    browser starts but one of the three settings that follow fails or is
    interrupted, the exception leaves [main_bulk_send] as it is:
    [driver.quit()] is not called and nothing is logged. *)
Theorem failed_launch_is_not_cleaned_up (env : op → nat → answer)
    (dir date time : string) (files : gmap string (list row)) :
  env UrlOpen 0 = Proceed → env ChromeNew 0 = Proceed →
  ¬ (env SetPageLoadTimeout 0 = Proceed ∧ env ImplicitlyWait 0 = Proceed
     ∧ env MaximizeWindow 0 = Proceed) →
  let run := main_bulk_send env dir (initial_world date time files) in
  (∃ e, fst run = Raise e ∧ ∀ code, e ≠ SystemExit code)
  ∧ calls Quit (trace (snd run)) = 0
  ∧ Forall (λ ev, ∃ o r, ev = Call o r) (trace (snd run)).
Proof.
  intros H H1 Hnot. cbv zeta.
  assert (∃ e w',
            main_bulk_send env dir (initial_world date time files)
            = (Raise e, w')
            ∧ (∀ code, e ≠ SystemExit code)
            ∧ calls Quit (trace w') = 0
            ∧ Forall (λ ev, ∃ o r, ev = Call o r) (trace w'))
    as (e & w' & -> & He & Hq & Hl);
    [| cbn [fst snd]; split; [exists e; now split | now repeat split]].
  unfold main_bulk_send, check_internet_connection.
  rewrite bind_run, try_except_run, bind_run, call_proceeds by exact H.
  cbn [mret M_ret negb]. rewrite bind_run.
  unfold initialize_driver.
  destruct (configure_chrome_options_returns dir) as [o ->].
  rewrite bind_run. unfold lift. rewrite bind_run.
  unfold webdriver_Chrome, syscall at 1.
  change (env ChromeNew _) with (env ChromeNew 0). rewrite H1.
  rewrite bind_run. unfold call at 1, syscall at 1.
  change (env SetPageLoadTimeout _) with (env SetPageLoadTimeout 0).
  destruct (env SetPageLoadTimeout 0) eqn:E1.
  2,3: eexists _, _; split; [reflexivity |]; split; [discriminate |];
       repeat split; repeat constructor; eauto.
  rewrite bind_run. unfold call at 1, syscall at 1.
  change (env ImplicitlyWait _) with (env ImplicitlyWait 0).
  destruct (env ImplicitlyWait 0) eqn:E2.
  2,3: eexists _, _; split; [reflexivity |]; split; [discriminate |];
       repeat split; repeat constructor; eauto.
  unfold call at 1, syscall at 1.
  change (env MaximizeWindow _) with (env MaximizeWindow 0).
  destruct (env MaximizeWindow 0) eqn:E3.
  2,3: eexists _, _; split; [reflexivity |]; split; [discriminate |];
       repeat split; repeat constructor; eauto.
  now destruct Hnot.
Qed.

(** The theorem at a browser that refuses the page load timeout. *)
Lemma failed_launch_is_not_cleaned_up_witness :
  let run := main_bulk_send Scenario.no_page_load_timeout
               Scenario.session_dir (Scenario.at_start Scenario.four_rows) in
  (∃ e, fst run = Raise e ∧ ∀ code, e ≠ SystemExit code)
  ∧ calls Quit (trace (snd run)) = 0
  ∧ Forall (λ ev, ∃ o r, ev = Call o r) (trace (snd run)).
Proof.
  apply (failed_launch_is_not_cleaned_up Scenario.no_page_load_timeout
           Scenario.session_dir "2026-11-04" "12:30"
           (<[CSV_FILE := Scenario.four_rows]> ∅));
    [reflexivity | reflexivity |].
  intros [H _]. discriminate H.
Defined.

(** ** Errors while signing in *)

Section LoginErrors.
Variable env : op → nat → answer.
Variables dir date time : string.
Variable files : gmap string (list row).

Lemma workflow_probe_error (e : error) :
  launches env → env (UntilChatList 30) 0 = Fault e → e ≠ TimeoutException →
  workflow env (started date time files)
  = (Raise (Err e),
     record (Call (UntilChatList 30) (Some (Err e)))
       (record (Call Get None) (started date time files))).
Proof.
  intros (_ & _ & _ & _ & HGet) H0 Hne. unfold workflow.
  rewrite bind_run. unfold driver_get.
  rewrite (syscall_proceeds env Get _ (started date time files) _ tt)
    by (exact HGet || reflexivity).
  rewrite bind_run. unfold wait_for_whatsapp_login, until_chat_list.
  rewrite try_except_run, bind_run.
  rewrite syscall_faults with (e := e) by exact H0.
  destruct e; try reflexivity. now destruct Hne.
Qed.

Lemma workflow_input_error (e : error) :
  launches env → env (UntilChatList 30) 0 = Fault TimeoutException →
  env Input 0 = Fault e →
  workflow env (started date time files)
  = (Raise (Err e),
     record (Call Input (Some (Err e)))
       (record (Log ScanQR "cyan")
          (record (Call (UntilChatList 30) (Some (Err TimeoutException)))
             (record (Call Get None) (started date time files))))).
Proof.
  intros (_ & _ & _ & _ & HGet) H0 HI. unfold workflow.
  rewrite bind_run. unfold driver_get.
  rewrite (syscall_proceeds env Get _ (started date time files) _ tt)
    by (exact HGet || reflexivity).
  rewrite bind_run. unfold wait_for_whatsapp_login, until_chat_list.
  rewrite try_except_run, bind_run.
  rewrite syscall_faults with (e := TimeoutException) by exact H0.
  cbn [select except_TimeoutException mret M_ret negb].
  rewrite bind_run. unfold prompt_qr_scan.
  rewrite bind_run, log_run, bind_run. unfold call.
  rewrite syscall_faults with (e := e) by exact HI.
  reflexivity.
Qed.

End LoginErrors.

(** X20: only a timeout of the login probe leads to the QR prompt.  Any
    other error of the probe ends the run, with no prompt and no contact
    loaded; and so does an error of [input()] at the prompt (no keyboard
    to read from).  The error is logged as unexpected, the browser is quit
    and the error is raised again. *)
Theorem login_errors_end_the_run (env : op → nat → answer)
    (dir date time : string) (files : gmap string (list row)) (e : error) :
  env UrlOpen 0 = Proceed → launches env →
  let run := main_bulk_send env dir (initial_world date time files) in
  (env (UntilChatList 30) 0 = Fault e → e ≠ TimeoutException →
   fst run = Raise (Err e)
   ∧ trace (snd run)
     = trace (started date time files)
       ++ [Call Get None; Call (UntilChatList 30) (Some (Err e));
           Log (Unexpected e) "red"; Log Quitting "blue"; Call Quit None])
  ∧ (env (UntilChatList 30) 0 = Fault TimeoutException →
     env Input 0 = Fault e →
     fst run = Raise (Err e)
     ∧ trace (snd run)
       = trace (started date time files)
         ++ [Call Get None;
             Call (UntilChatList 30) (Some (Err TimeoutException));
             Log ScanQR "cyan"; Call Input (Some (Err e));
             Log (Unexpected e) "red"; Log Quitting "blue"; Call Quit None]).
Proof.
  intros H Hl. cbv zeta.
  rewrite (main_started env dir date time files H Hl). split.
  - intros H0 Hne.
    destruct (guarded_error _ _ _ _
                (workflow_probe_error env date time files e Hl H0 Hne))
      as (w2 & -> & Htr).
    split; [reflexivity |]. cbn [snd]. rewrite Htr. reflexivity.
  - intros H0 HI.
    destruct (guarded_error _ _ _ _
                (workflow_input_error env date time files e Hl H0 HI))
      as (w2 & -> & Htr).
    split; [reflexivity |]. cbn [snd]. rewrite Htr. reflexivity.
Qed.

(** The theorem at a browser that crashes during the first probe, and at
    a prompt without keyboard. *)
Lemma login_errors_end_the_run_witness :
  (fst (main_bulk_send Scenario.crash_at_login Scenario.session_dir
          (Scenario.at_start Scenario.four_rows))
   = Raise (Err WebDriverException)
   ∧ trace (snd (main_bulk_send Scenario.crash_at_login Scenario.session_dir
                   (Scenario.at_start Scenario.four_rows)))
     = trace (started "2026-11-04" "12:30"
                (<[CSV_FILE := Scenario.four_rows]> ∅))
       ++ [Call Get None;
           Call (UntilChatList 30) (Some (Err WebDriverException));
           Log (Unexpected WebDriverException) "red"; Log Quitting "blue";
           Call Quit None])
  ∧ (fst (main_bulk_send Scenario.no_keyboard Scenario.session_dir
            (Scenario.at_start Scenario.four_rows))
     = Raise (Err EOFError)
     ∧ trace (snd (main_bulk_send Scenario.no_keyboard Scenario.session_dir
                     (Scenario.at_start Scenario.four_rows)))
       = trace (started "2026-11-04" "12:30"
                  (<[CSV_FILE := Scenario.four_rows]> ∅))
         ++ [Call Get None;
             Call (UntilChatList 30) (Some (Err TimeoutException));
             Log ScanQR "cyan"; Call Input (Some (Err EOFError));
             Log (Unexpected EOFError) "red"; Log Quitting "blue";
             Call Quit None]).
Proof.
  split.
  - apply (proj1 (login_errors_end_the_run Scenario.crash_at_login
                    Scenario.session_dir "2026-11-04" "12:30"
                    (<[CSV_FILE := Scenario.four_rows]> ∅)
                    WebDriverException eq_refl
                    ltac:(repeat split)));
      [reflexivity | discriminate].
  - apply (proj2 (login_errors_end_the_run Scenario.no_keyboard
                    Scenario.session_dir "2026-11-04" "12:30"
                    (<[CSV_FILE := Scenario.four_rows]> ∅)
                    EOFError eq_refl
                    ltac:(repeat split)));
      reflexivity.
Defined.

(** ** Before the browser exists *)

(** X21: before the browser exists.  An error of the connectivity check is
    logged and turned into [SystemExit(1)], and nothing else happens: no
    browser is started.  The user's interrupt during the check is no
    [Exception]: it leaves the program at once.  And when the browser
    cannot be started, its error leaves [main_bulk_send] with nothing
    logged. *)
Theorem no_network_no_browser (env : op → nat → answer)
    (dir date time : string) (files : gmap string (list row)) :
  let run := main_bulk_send env dir (initial_world date time files) in
  (∀ e, env UrlOpen 0 = Fault e →
        fst run = Raise (SystemExit 1)
        ∧ trace (snd run)
          = [Call UrlOpen (Some (Err e)); Log (NetworkError e) "red"])
  ∧ (env UrlOpen 0 = Interrupt →
     fst run = Raise KeyboardInterrupt
     ∧ trace (snd run) = [Call UrlOpen (Some KeyboardInterrupt)])
  ∧ (∀ e, env UrlOpen 0 = Proceed → env ChromeNew 0 = Fault e →
          fst run = Raise (Err e)
          ∧ trace (snd run)
            = [Call UrlOpen None; Call ChromeNew (Some (Err e))]).
Proof.
  cbv zeta. split; [| split].
  - intros e H. now rewrite (main_offline env dir date time files e H).
  - intros H. unfold main_bulk_send, check_internet_connection.
    rewrite bind_run, try_except_run, bind_run. unfold call, syscall.
    change (calls UrlOpen (trace (initial_world date time files))) with 0.
    rewrite H. split; reflexivity.
  - intros e H H1. unfold main_bulk_send, check_internet_connection.
    rewrite bind_run, try_except_run, bind_run, call_proceeds by exact H.
    cbn [mret M_ret negb]. rewrite bind_run.
    unfold initialize_driver.
    destruct (configure_chrome_options_returns dir) as [o ->].
    rewrite bind_run. unfold lift. rewrite bind_run.
    unfold webdriver_Chrome, syscall.
    change (env ChromeNew _) with (env ChromeNew 0). rewrite H1.
    split; reflexivity.
Qed.

(** ** When nothing fails *)

Section NothingFails.
Variable env : op → nat → answer.
Hypothesis proceeds : ∀ o i, env o i = Proceed.

Lemma attempt_body_succeeds (name phone url : string) (f : nat)
    (tr : list event) (d t : string) (fs : gmap string (list row)) :
  attempt_body env name phone url 0 false
    {| chrome := {| handles := [0]; focus := 0; fresh := S f |};
       trace := tr; today := d; now := t; disk := fs |}
  = (Ret true,
     {| chrome := {| handles := [0]; focus := 0; fresh := S (S f) |};
        trace := tr ++ [Call (ExecuteScript
                                ("window.open('" +:+ url +:+ "', '_blank');"))
                          None;
                        Call WindowHandles None;
                        Call (SwitchToWindow (S f)) None;
                        Call UntilInputBox None;
                        Sleep (Uniform 1 3);
                        Call SendKeysEnter None;
                        Log (Sent name phone) "green";
                        Call (Beep 1000 200) None;
                        Sleep (Seconds 2);
                        Call Close None;
                        Call (SwitchToWindow 0) None;
                        Sleep (Uniform MIN_DELAY_SEC MAX_DELAY_SEC)];
        today := d; now := t; disk := fs |}).
Proof.
  unfold attempt_body, try_except,
    execute_script, window_handles, switch_to_window, until_input_box,
    send_keys_ENTER, until_send_button, click, beep_success, driver_close,
    call, syscall, in_window, is_open, log, sleep, lift, last_item,
    mbind, M_bind, mret, M_ret, select, except_Exception, record, set_chrome.
  repeat first [progress cbn | rewrite proceeds | rewrite Nat.eqb_refl].
  rewrite <- !app_assoc. reflexivity.
Qed.

Lemma send_succeeds_at_once (name phone raw_message : string) (f : nat)
    (tr : list event) (d t : string) (fs : gmap string (list row)) :
  send_whatsapp_message env name phone raw_message RETRY_LIMIT false
    {| chrome := {| handles := [0]; focus := 0; fresh := S f |};
       trace := tr; today := d; now := t; disk := fs |}
  = (Ret true,
     {| chrome := {| handles := [0]; focus := 0; fresh := S (S f) |};
        trace := tr ++ successful_send name phone
                         (rendering d t name phone raw_message) (S f);
        today := d; now := t; disk := fs |}).
Proof.
  unfold send_whatsapp_message. rewrite bind_run. cbn [negb].
  rewrite render_message_template_run. cbn [today now]. unfold rendering.
  destruct (safe_substitute_total (substitutions name phone d t) raw_message)
    as [out ->].
  fold (contact_url phone out).
  unfold successful_send, open_tab_script.
  generalize (contact_url phone out). intros url.
  rewrite bind_run. unfold current_window_handle, syscall.
  rewrite proceeds.
  cbn [in_window chrome focus handles is_open existsb Nat.eqb orb].
  cbv [record set_chrome]. cbn [chrome trace today now disk].
  change (range 1 (RETRY_LIMIT + 1)) with [1%Z; 2%Z]. cbn [attempts].
  rewrite bind_run. unfold attempt_turn. rewrite try_except_run, bind_run.
  rewrite attempt_body_succeeds. cbn [mret M_ret]. rewrite <- app_assoc.
  reflexivity.
Qed.

Lemma send_all_succeeds (d t : string) (fs : gmap string (list row))
    (contacts : list contact) :
  ∀ (count : Z) (f : nat) (tr : list event),
    send_all env contacts count
      {| chrome := {| handles := [0]; focus := 0; fresh := S f |};
         trace := tr; today := d; now := t; disk := fs |}
    = (Ret (count + Z.of_nat (length contacts))%Z,
       {| chrome := {| handles := [0]; focus := 0;
                       fresh := S (length contacts + f) |};
          trace := tr ++ successful_sends d t contacts (S f);
          today := d; now := t; disk := fs |}).
Proof.
  induction contacts as [| c rest IH]; intros count f tr; cbn [send_all].
  - cbn. now rewrite Z.add_0_r, app_nil_r.
  - rewrite bind_run, send_succeeds_at_once, IH.
    cbn [successful_sends length]. rewrite <- app_assoc.
    replace (count + 1 + Z.of_nat (length rest))%Z
      with (count + Z.of_nat (S (length rest)))%Z by lia.
    replace (length rest + S f) with (S (length rest) + f) by lia.
    reflexivity.
Qed.

End NothingFails.

Lemma filter_none {A : Type} (p : A → bool) (l : list A) :
  Forall (λ x, p x = false) l → List.filter p l = [].
Proof.
  induction 1 as [| x l Hx _ IH]; [reflexivity |]. cbn. now rewrite Hx.
Qed.

Lemma sent_lines_of_successful_sends (d t : string) (contacts : list contact) :
  ∀ tab, List.filter is_sent_log (successful_sends d t contacts tab)
         = List.map sent_line contacts.
Proof.
  induction contacts as [| c rest IH]; intros tab; [reflexivity |].
  cbn [successful_sends List.map]. rewrite List.filter_app, IH. reflexivity.
Qed.

Lemma tabs_of_successful_sends (d t : string) (contacts : list contact) :
  ∀ tab, List.filter is_attempt (successful_sends d t contacts tab)
         = List.map (tab_of d t) contacts.
Proof.
  induction contacts as [| c rest IH]; intros tab; [reflexivity |].
  cbn [successful_sends List.map]. rewrite List.filter_app, IH. reflexivity.
Qed.

Lemma no_failure_in_successful_sends (d t : string) (contacts : list contact) :
  ∀ tab, Forall (λ ev, is_failed_to_send_log ev = false
                       ∧ is_attempt_failed_log ev = false)
           (successful_sends d t contacts tab).
Proof.
  induction contacts as [| c rest IH]; intros tab; [constructor |].
  cbn [successful_sends]. apply Forall_app. split; [| apply IH].
  unfold successful_send. repeat constructor.
Qed.

(** ** The date and the time *)

Section Clock.
Variable env : op → nat → answer.

Lemma keeps_clock_ret {A : Type} (a : A) : keeps_clock (mret a).
Proof. now intros w r w' [= _ <-]. Qed.

Lemma keeps_clock_raise {A : Type} (e : exn) : keeps_clock (raise e : M A).
Proof. now intros w r w' [= _ <-]. Qed.

Lemma keeps_clock_log (line : message_line) (style : string) :
  keeps_clock (log line style).
Proof. now intros w r w' [= _ <-]. Qed.

Lemma keeps_clock_bind {A B : Type} (m : M A) (f : A → M B) :
  keeps_clock m → (∀ a, keeps_clock (f a)) → keeps_clock (m ≫= f).
Proof.
  intros Hm Hf w r w'. rewrite bind_run.
  destruct (m w) as [[a | e] w1] eqn:E;
    destruct (Hm _ _ _ E) as (H1 & H2 & H3).
  - intros H. destruct (Hf _ _ _ _ H) as (H4 & H5 & H6).
    repeat split; congruence.
  - now intros [= _ <-].
Qed.

Lemma keeps_clock_try {A : Type} (body : M A) (handler : error → M A) :
  keeps_clock body → (∀ x, keeps_clock (handler x)) →
  keeps_clock (try_except body [except_Exception handler]).
Proof.
  intros Hb Hh w r w'. rewrite try_except_run.
  destruct (body w) as [[a | e] w1] eqn:E;
    destruct (Hb _ _ _ E) as (H1 & H2 & H3).
  - now intros [= _ <-].
  - destruct e as [x | |]; cbn [select except_Exception].
    + intros H. destruct (Hh _ _ _ _ H) as (H4 & H5 & H6).
      repeat split; congruence.
    + now intros [= _ <-].
    + now intros [= _ <-].
Qed.

Lemma keeps_clock_syscall {A : Type} (o : op)
    (act : world → error + (A * world)) :
  (∀ w a w1, act w = inr (a, w1) →
             today w1 = today w ∧ now w1 = now w ∧ disk w1 = disk w) →
  keeps_clock (syscall env o act).
Proof.
  intros Hact w r w'. unfold syscall. destruct (env o _).
  - destruct (act w) as [x | [a w1]] eqn:E; intros [= _ <-]; [done |].
    exact (Hact _ _ _ E).
  - now intros [= _ <-].
  - now intros [= _ <-].
Qed.

Lemma read_rows_keeps_clock (rows : list row) :
  ∀ contacts, keeps_clock (read_rows env rows contacts).
Proof.
  induction rows as [| r rest IH]; intros contacts; cbn [read_rows].
  - apply keeps_clock_ret.
  - apply keeps_clock_bind; [| intros _].
    { apply keeps_clock_syscall. now intros w a w1 [= _ <-]. }
    apply keeps_clock_bind; [| intros ?; apply IH].
    unfold read_row, strip_value.
    destruct (row_get r "Phone"), (row_get r "Name"), (row_get r "Message");
      repeat first
        [ apply keeps_clock_bind; [| intros ?]
        | apply keeps_clock_ret | apply keeps_clock_log
        | apply keeps_clock_raise
        | match goal with |- keeps_clock (if ?b then _ else _) => destruct b end ].
Qed.

Lemma load_contacts_keeps_clock (path : string) :
  keeps_clock (load_contacts_from_csv env path).
Proof.
  unfold load_contacts_from_csv, open_csv.
  apply keeps_clock_bind.
  - apply keeps_clock_try.
    + apply keeps_clock_bind; [| intros rows; apply read_rows_keeps_clock].
      apply keeps_clock_syscall. intros w a w1.
      destruct (disk _ !! path); [now intros [= _ <-] | discriminate].
    + intros x. apply keeps_clock_bind; [apply keeps_clock_log | intros _].
      apply keeps_clock_raise.
  - intros [| c cs]; [| apply keeps_clock_ret].
    apply keeps_clock_bind; [apply keeps_clock_log | intros _].
    apply keeps_clock_ret.
Qed.

End Clock.

Section NothingFailsInMain.
Variable env : op → nat → answer.
Hypothesis proceeds : ∀ o i, env o i = Proceed.
Variables dir date time : string.
Variable files : gmap string (list row).
Variable rows : list row.
Hypothesis on_disk : files !! CSV_FILE = Some rows.
Hypothesis strings : Forall string_cells rows.

Lemma sign_in_and_load_proceeds :
  ∃ added,
    sign_in_and_load env (started date time files)
    = (Ret (accepted_contacts rows),
       {| chrome := {| handles := [0]; focus := 0; fresh := 1 |};
          trace := trace (started date time files) ++ added;
          today := date; now := time; disk := files |})
    ∧ Forall (λ ev, is_setup_event ev = true) added.
Proof.
  destruct (sign_in_and_load env (started date time files)) as [r w2] eqn:E.
  destruct (sign_in_and_load_emits env _ _ _ E) as (added & Htr & Hadd).
  exists added. split; [| exact Hadd].
  revert E. unfold sign_in_and_load.
  rewrite bind_run. unfold driver_get.
  rewrite (syscall_proceeds env Get _ (started date time files) _ tt)
    by (apply proceeds || reflexivity).
  rewrite bind_run. unfold wait_for_whatsapp_login, until_chat_list.
  rewrite try_except_run, bind_run.
  rewrite (syscall_proceeds env (UntilChatList 30) _
             (record (Call Get None) (started date time files)) _ tt)
    by (apply proceeds || reflexivity).
  cbn [mret M_ret negb]. rewrite bind_run. cbn [mret M_ret].
  match goal with
  | |- context [load_contacts_from_csv env CSV_FILE ?w] => set (w1 := w)
  end.
  destruct (load_contacts_strings env CSV_FILE rows w1) as (w3 & El & Hch);
    [apply proceeds | exact on_disk | exact strings | intros; apply proceeds |].
  rewrite El. intros [= <- <-].
  destruct (load_contacts_keeps_clock env CSV_FILE _ _ _ El) as (Hd & Ht & Hf).
  destruct w3 as [b tr d t fs]. cbn in Htr, Hch, Hd, Ht, Hf. subst.
  reflexivity.
Qed.

Lemma launches_when_all_proceed : launches env.
Proof. repeat split; apply proceeds. Qed.

(** The whole run when nothing fails. *)
Lemma main_proceeds :
  accepted_contacts rows ≠ [] →
  ∃ added w',
    main_bulk_send env dir (initial_world date time files) = (Ret tt, w')
    ∧ Forall (λ ev, is_setup_event ev = true) added
    ∧ trace w'
      = trace (started date time files) ++ added
        ++ [Log (Starting (Z.of_nat (length (accepted_contacts rows))))
              "magenta"]
        ++ successful_sends date time (accepted_contacts rows) 1
        ++ [Log (Summary (Z.of_nat (length (accepted_contacts rows)))
                   (Z.of_nat (length (accepted_contacts rows))))
              "bold green";
            Log Quitting "blue"; Call Quit None].
Proof.
  intros Hne.
  rewrite (main_started env dir date time files (proceeds _ _)
             launches_when_all_proceed).
  destruct sign_in_and_load_proceeds as (added & Hsign & Hadd).
  exists added.
  assert (∃ w4,
            workflow env (started date time files) = (Ret tt, w4)
            ∧ trace w4
              = trace (started date time files) ++ added
                ++ [Log (Starting (Z.of_nat (length (accepted_contacts rows))))
                      "magenta"]
                ++ successful_sends date time (accepted_contacts rows) 1
                ++ [Log (Summary (Z.of_nat (length (accepted_contacts rows)))
                           (Z.of_nat (length (accepted_contacts rows))))
                      "bold green"]) as (w4 & Ew & Htr).
  { rewrite workflow_split, bind_run, Hsign.
    destruct (accepted_contacts rows) as [| c cs]; [done |].
    unfold send_and_report. cbv zeta.
    rewrite bind_run, log_run. cbv [record]. cbn [chrome trace today now disk].
    rewrite bind_run, (send_all_succeeds env proceeds), log_run.
    rewrite Z.add_0_l, Z.eqb_refl.
    eexists. split; [reflexivity |].
    cbn [record trace]. now rewrite <- !app_assoc. }
  destruct (guarded_ret _ _ _ Ew) as (w5 & -> & Htr5).
  exists w5. split; [reflexivity |]. split; [exact Hadd |].
  rewrite Htr5, Htr. now rewrite <- !app_assoc.
Qed.

End NothingFailsInMain.



(** ** The user's interrupt *)

Section Interrupts.
Variable env : op → nat → answer.

Lemma stops_nothing {A : Type} (m : M A) :
  (∀ w r w', m w = (r, w') → w' = w ∧ r ≠ Raise KeyboardInterrupt) →
  stops_at_interrupt m.
Proof.
  intros Hm w r w' H. destruct (Hm _ _ _ H) as [-> Hr].
  exists []. rewrite app_nil_r. split; [reflexivity |].
  destruct r as [a | [x | |]]; now try constructor.
Qed.

Lemma stops_ret {A : Type} (a : A) : stops_at_interrupt (mret a).
Proof. apply stops_nothing. now intros w r w' [= <- <-]. Qed.

Lemma stops_raise {A : Type} (e : exn) :
  e ≠ KeyboardInterrupt → stops_at_interrupt (raise e : M A).
Proof.
  intros He. apply stops_nothing. intros w r w' [= <- <-].
  split; [reflexivity | congruence].
Qed.

Lemma stops_lift {A : Type} (x : result A) :
  x ≠ Raise KeyboardInterrupt → stops_at_interrupt (lift x).
Proof. intros Hx. apply stops_nothing. now intros w r w' [= <- <-]. Qed.

Lemma stops_event {A : Type} (m : M A) (ev : event) :
  is_interrupted_call ev = false →
  (∀ w r w', m w = (r, w') →
             trace w' = trace w ++ [ev] ∧ r ≠ Raise KeyboardInterrupt) →
  stops_at_interrupt m.
Proof.
  intros Hev Hm w r w' H. destruct (Hm _ _ _ H) as [-> Hr].
  exists [ev]. split; [reflexivity |].
  destruct r as [a | [x | |]]; now repeat constructor.
Qed.

Lemma stops_log (line : message_line) (style : string) :
  stops_at_interrupt (log line style).
Proof.
  apply (stops_event _ (Log line style)); [reflexivity |].
  now intros w r w' [= <- <-].
Qed.

Lemma stops_sleep (d : delay) : stops_at_interrupt (sleep d).
Proof.
  apply (stops_event _ (Sleep d)); [reflexivity |].
  now intros w r w' [= <- <-].
Qed.

Lemma stops_driver_quit : stops_at_interrupt driver_quit.
Proof.
  apply (stops_event _ (Call Quit None)); [reflexivity |].
  now intros w r w' [= <- <-].
Qed.

Lemma stops_syscall {A : Type} (o : op) (act : world → error + (A * world)) :
  (∀ w a w1, act w = inr (a, w1) → trace w1 = trace w) →
  stops_at_interrupt (syscall env o act).
Proof.
  intros Hact w r w'. unfold syscall. destruct (env o _).
  - destruct (act w) as [x | [a w1]] eqn:E; intros [= <- <-];
      cbn [record trace].
    + exists [Call o (Some (Err x))]. split; [reflexivity |].
      unfold undisturbed. now repeat constructor.
    + exists [Call o None]. rewrite (Hact _ _ _ E). split; [reflexivity |].
      unfold undisturbed. now repeat constructor.
  - intros [= <- <-]. exists [Call o (Some (Err e))]. split; [reflexivity |].
    unfold undisturbed. now repeat constructor.
  - intros [= <- <-]. eexists [_]. split; [reflexivity |].
    exists [], o. split; [reflexivity | constructor].
Qed.

Lemma stops_bind {A B : Type} (m : M A) (f : A → M B) :
  stops_at_interrupt m → (∀ a, stops_at_interrupt (f a)) →
  stops_at_interrupt (m ≫= f).
Proof.
  intros Hm Hf w r w'. rewrite bind_run.
  destruct (m w) as [[a | e] w1] eqn:E;
    destruct (Hm _ _ _ E) as (add1 & Ht1 & H1).
  - intros H. destruct (Hf _ _ _ _ H) as (add2 & Ht2 & H2).
    exists (add1 ++ add2). rewrite Ht2, Ht1, <- app_assoc.
    split; [reflexivity |].
    destruct r as [b | [x | |]]; try (now apply Forall_app).
    destruct H2 as (pre & o & -> & Hpre). exists (add1 ++ pre), o.
    rewrite <- app_assoc. split; [reflexivity | now apply Forall_app].
  - intros [= <- <-]. exists add1. now split.
Qed.

Lemma stops_if {A : Type} (b : bool) (m1 m2 : M A) :
  stops_at_interrupt m1 → stops_at_interrupt m2 →
  stops_at_interrupt (if b then m1 else m2).
Proof. now destruct b. Qed.

(** A [try] statement without a clause for the interrupt. *)
Lemma stops_try_except {A : Type} (body : M A) (cs : list (clause A)) :
  select cs KeyboardInterrupt = None →
  stops_at_interrupt body →
  (∀ e h, select cs e = Some h → stops_at_interrupt h) →
  stops_at_interrupt (try_except body cs).
Proof.
  intros Hki Hb Hh w r w'. rewrite try_except_run.
  destruct (body w) as [[a | e] w1] eqn:E;
    destruct (Hb _ _ _ E) as (add1 & Ht1 & H1).
  - intros [= <- <-]. exists add1. now split.
  - destruct (select cs e) as [h |] eqn:Es.
    + assert (He : e ≠ KeyboardInterrupt) by congruence.
      assert (Hq : undisturbed add1) by (destruct e; [| done |]; exact H1).
      intros H. destruct (Hh _ _ Es _ _ _ H) as (add2 & Ht2 & H2).
      exists (add1 ++ add2). rewrite Ht2, Ht1, <- app_assoc.
      split; [reflexivity |].
      destruct r as [b | [x | |]]; try (now apply Forall_app).
      destruct H2 as (pre & o & -> & Hpre). exists (add1 ++ pre), o.
      rewrite <- app_assoc. split; [reflexivity | now apply Forall_app].
    + intros [= <- <-]. exists add1. now split.
Qed.

Lemma stops_try_Exception {A : Type} (body : M A) (handler : error → M A) :
  stops_at_interrupt body → (∀ x, stops_at_interrupt (handler x)) →
  stops_at_interrupt (try_except body [except_Exception handler]).
Proof.
  intros Hb Hh. apply stops_try_except; [reflexivity | exact Hb |].
  intros e h Hs. apply select_Exception in Hs as [x ->]. apply Hh.
Qed.

Ltac stops_tac :=
  repeat first
    [ apply stops_ret | apply stops_log | apply stops_sleep
    | apply stops_driver_quit
    | apply stops_raise; discriminate
    | apply stops_lift; discriminate
    | apply stops_if
    | apply stops_try_Exception; [| intros ?]
    | apply stops_syscall;
      first [ apply in_window_trace
            | apply switch_to_window_trace
            | intros ? ? ? [= _ <-]; reflexivity ]
    | apply stops_bind; [| intros ?] ].

Lemma last_item_not_interrupt {A : Type} (l : list A) :
  last_item l ≠ Raise KeyboardInterrupt.
Proof. unfold last_item. destruct (List.last _ _); discriminate. Qed.

Lemma attempts_stop (name phone url : string) (main_window : handle)
    (is_reply : bool) (numbers : list Z) :
  stops_at_interrupt (attempts env name phone url main_window is_reply numbers).
Proof.
  induction numbers as [| attempt rest IH]; cbn [attempts].
  - unfold_driver. stops_tac.
  - apply stops_bind; [| intros [b |]; [apply stops_ret | exact IH]].
    unfold attempt_turn, attempt_body, on_failure, cleanup. unfold_driver.
    stops_tac. apply stops_lift, last_item_not_interrupt.
Qed.

Lemma send_stops (name phone raw_message : string) (retry_limit : Z)
    (is_reply : bool) :
  stops_at_interrupt
    (send_whatsapp_message env name phone raw_message retry_limit is_reply).
Proof.
  intros w r w'.
  destruct (send_unfolds env name phone raw_message retry_limit is_reply w)
    as (message & _ & ->).
  revert r w'. apply stops_bind.
  - unfold_driver. stops_tac.
  - intros mw. apply attempts_stop.
Qed.

Lemma send_all_stops (contacts : list contact) :
  ∀ count, stops_at_interrupt (send_all env contacts count).
Proof.
  induction contacts as [| c rest IH]; intros count; cbn [send_all].
  - apply stops_ret.
  - apply stops_bind; [apply send_stops | intros b; apply IH].
Qed.

Lemma wait_for_whatsapp_login_stops (timeout : Z) :
  stops_at_interrupt (wait_for_whatsapp_login env timeout).
Proof.
  unfold wait_for_whatsapp_login, until_chat_list.
  apply stops_try_except; [reflexivity | stops_tac |].
  intros e h Hs. apply select_Timeout in Hs as ->. apply stops_ret.
Qed.

Lemma read_rows_stop (rows : list row) :
  ∀ contacts, stops_at_interrupt (read_rows env rows contacts).
Proof.
  induction rows as [| r rest IH]; intros contacts; cbn [read_rows].
  - apply stops_ret.
  - unfold call. apply stops_bind; [stops_tac | intros _].
    apply stops_bind; [| intros ?; apply IH].
    unfold read_row, strip_value.
    destruct (row_get r "Phone"), (row_get r "Name"), (row_get r "Message");
      stops_tac.
Qed.

Lemma load_contacts_stops (path : string) :
  stops_at_interrupt (load_contacts_from_csv env path).
Proof.
  unfold load_contacts_from_csv, open_csv.
  apply stops_bind.
  - apply stops_try_Exception; [| intros x; stops_tac].
    apply stops_bind; [| intros rows; apply read_rows_stop].
    apply stops_syscall. intros w a w1.
    destruct (disk _ !! path); [intros [= _ <-] | discriminate]. reflexivity.
  - intros [| c cs]; stops_tac.
Qed.

Lemma workflow_stops : stops_at_interrupt (workflow env).
Proof.
  unfold workflow, driver_get.
  apply stops_bind; [stops_tac | intros _].
  apply stops_bind; [apply wait_for_whatsapp_login_stops | intros li].
  apply stops_bind; [| intros _].
  { destruct li; cbn [negb]; [apply stops_ret |].
    unfold prompt_qr_scan, call.
    apply stops_bind; [apply stops_log | intros _].
    apply stops_bind; [stops_tac | intros _].
    apply stops_bind; [apply wait_for_whatsapp_login_stops | intros li].
    destruct li; cbn [negb]; stops_tac. }
  apply stops_bind; [apply load_contacts_stops |].
  intros [| c cs]; [apply stops_ret |]. cbv zeta.
  apply stops_bind; [apply stops_log | intros _].
  apply stops_bind; [apply send_all_stops | intros count].
  apply stops_log.
Qed.

End Interrupts.

(** X23: once the browser runs, the user's interrupt during any call ends
    the run in order: the interrupted call is the last thing the workflow
    does, the interruption is logged, the browser is quit and
    [main_bulk_send] returns.  Otherwise no call was interrupted. *)
Theorem interrupt_ends_the_run_gracefully (env : op → nat → answer)
    (dir date time : string) (files : gmap string (list row)) :
  env UrlOpen 0 = Proceed → launches env →
  let run := main_bulk_send env dir (initial_world date time files) in
  (fst run = Ret tt
   ∧ ∃ tr o, trace (snd run)
             = tr ++ [Call o (Some KeyboardInterrupt);
                      Log Interrupted "yellow"; Log Quitting "blue";
                      Call Quit None]
             ∧ undisturbed tr)
  ∨ undisturbed (trace (snd run)).
Proof.
  intros H Hl. cbv zeta.
  rewrite (main_started env dir date time files H Hl).
  destruct (workflow env (started date time files)) as [r1 w1] eqn:Ew.
  destruct (workflow_stops env _ _ _ Ew) as (added & Htr & Hadd).
  assert (Hstart : undisturbed (trace (started date time files)))
    by now repeat constructor.
  destruct r1 as [[] | [e | | code]].
  - destruct (guarded_ret _ _ _ Ew) as (w2 & -> & Htr2). right.
    cbn [snd]. rewrite Htr2, Htr. unfold undisturbed.
    rewrite !Forall_app. now repeat constructor.
  - destruct (guarded_error _ _ _ _ Ew) as (w2 & -> & Htr2). right.
    cbn [snd]. rewrite Htr2, Htr. unfold undisturbed.
    rewrite !Forall_app. now repeat constructor.
  - destruct (guarded_interrupt _ _ _ Ew) as (w2 & -> & Htr2). left.
    split; [reflexivity |]. destruct Hadd as (pre & o & -> & Hpre).
    exists (trace (started date time files) ++ pre), o.
    cbn [snd]. rewrite Htr2, Htr, <- !app_assoc.
    split; [reflexivity |]. now apply Forall_app.
  - destruct (guarded_exit _ _ _ _ Ew) as (w2 & -> & Htr2). right.
    cbn [snd]. rewrite Htr2, Htr. unfold undisturbed.
    rewrite !Forall_app. now repeat constructor.
Qed.

(** The theorem at a run interrupted while the second contact's message
    box is waited for. *)
Lemma interrupt_ends_the_run_gracefully_witness :
  let run := main_bulk_send Scenario.interrupted_at_second_contact
               Scenario.session_dir (Scenario.at_start Scenario.four_rows) in
  fst run = Ret tt
  ∧ ∃ tr o, trace (snd run)
            = tr ++ [Call o (Some KeyboardInterrupt);
                     Log Interrupted "yellow"; Log Quitting "blue";
                     Call Quit None]
            ∧ undisturbed tr.
Proof.
  destruct (interrupt_ends_the_run_gracefully
              Scenario.interrupted_at_second_contact Scenario.session_dir
              "2026-11-04" "12:30" (<[CSV_FILE := Scenario.four_rows]> ∅))
    as [H | H]; [reflexivity | repeat split | exact H |].
  exfalso. apply tally_none in H. vm_compute in H. discriminate H.
Defined.

(** ** The scenarios, run *)

(** C8: [configure_chrome_options] ends with [excludeSwitches] set to the
    log-suppression value only: the second assignment (line 95) replaces
    the first (line 75), so the exclusion of [enable-automation] is lost.
    The command-line arguments and [useAutomationExtension] are all kept. *)
Theorem configure_chrome_options_excludeSwitches (dir : string) :
  ∃ o : Selenium.Options,
    configure_chrome_options dir = Ret o
    ∧ Selenium.experimental_options o !! "excludeSwitches"
      = Some (Selenium.VList ["enable-logging"])
    ∧ Selenium.experimental_options o !! "useAutomationExtension"
      = Some (Selenium.VBool false)
    ∧ Selenium.arguments o
      = ["--user-data-dir=" +:+ dir; "--profile-directory=Default";
         "--disable-blink-features=AutomationControlled";
         "--disable-gpu"; "--no-sandbox"; "--disable-dev-shm-usage";
         "--log-level=3"; "--disable-logging"; "--disable-crash-reporter";
         "--disable-breakpad"; "--disable-component-update";
         "--disable-background-networking"; "--disable-default-apps";
         "--disable-features=TranslateUI"; "--no-first-run";
         "--no-service-autorun"; "--metrics-recording-only"].
Proof.
  eexists. split; [vm_compute; reflexivity |].
  split; [vm_compute; reflexivity |].
  split; vm_compute; reflexivity.
Qed.

(** C1: with [retry_limit = 2], when the first attempt submits the message
    and then fails to close its tab, the function does not return: it makes
    a second attempt and submits the message again.  With
    [retry_limit = 1] it returns false although the message was
    submitted. *)
Theorem send_resubmits_after_close_failure :
  (∃ w', send_whatsapp_message Scenario.first_close_fails
           "Ana" "15551234567" "Hi" 2 false Scenario.ready = (Ret true, w')
         ∧ attempts_made (trace w') = 2
         ∧ submits (trace w') = 2)
  ∧ (∃ w', send_whatsapp_message Scenario.first_close_fails
             "Ana" "15551234567" "Hi" 1 false Scenario.ready = (Ret false, w')
           ∧ attempts_made (trace w') = 1
           ∧ submits (trace w') = 1).
Proof.
  split; eexists; (split; [vm_compute; reflexivity |]);
    split; vm_compute; reflexivity.
Qed.

(** C7: when the login probe fails before and after the QR prompt,
    [driver.quit()] runs twice: once in [prompt_qr_scan] (line 142) and
    once more in the [finally] clause (line 311) that the [SystemExit] of
    [exit(1)] passes through. *)
Theorem quit_twice_on_login_failure :
  ∃ w', main_bulk_send Scenario.never_logged_in Scenario.session_dir
          (Scenario.at_start [Scenario.ana]) = (Raise (SystemExit 1), w')
        ∧ calls Quit (trace w') = 2.
Proof.
  eexists. split; [vm_compute; reflexivity |]. vm_compute. reflexivity.
Qed.

(** C10: a line of the contacts file that lacks the name and message
    columns is not skipped: [None.strip()] raises [AttributeError], the
    handler of the file errors logs it and raises it again, the contacts
    read so far are lost and the process ends with status 1. *)
Theorem short_row_aborts_the_run :
  (∃ w', load_contacts_from_csv Scenario.all_proceed CSV_FILE
           (Scenario.at_start [Scenario.ana; Scenario.short_row; Scenario.bob])
         = (Raise (Err AttributeError), w')
         ∧ trace w' = [Call (OpenCsv CSV_FILE) None; Call NextRow None;
                       Call NextRow None;
                       Log (CsvError CSV_FILE AttributeError) "red"])
  ∧ exit_status
      (fst (main_bulk_send Scenario.all_proceed Scenario.session_dir
              (Scenario.at_start
                 [Scenario.ana; Scenario.short_row; Scenario.bob]))) = 1%Z.
Proof.
  split; [eexists; split |]; vm_compute; reflexivity.
Qed.
